(** * cfit: estimating the GPU memory needed to load a model

    A shallow embedding of [src/cfit/utils.py], [src/cfit/core.py] and
    [src/cfit/cli.py], and the properties of the estimation core.

    Modelling conventions.
    - Python [int] is [Z].
    - Python [float] is IEEE 754 binary64, embedded as the Standard
      Library's [spec_float] with [prec = 53] and [emax = 1024]; every
      arithmetic operation is the correctly rounded one of [SpecFloat].
    - Python [str] is [string]; only ASCII text is modelled.
    - A raised exception is the [Raise] branch of [Py.result].
    - A [dict] is a [gmap]; a JSON document is the inductive [json]. *)

From Stdlib Require Import ZArith Lia String Ascii List Bool SpecFloat.
From Stdlib Require Import DecimalString DecimalFacts DecimalPos DecimalZ.
From stdpp Require Import base gmap strings.

Set Warnings "-register-all".

Local Open Scope string_scope.
Local Open Scope Z_scope.

(** ** Python exceptions and results *)

Module Py.

Inductive exn : Type :=
| ValueError (msg : string)
| OverflowError
| ZeroDivisionError
| TypeError
| AttributeError
| KeyError.

Inductive result (A : Type) : Type :=
| Ok (a : A)
| Raise (e : exn).
Global Arguments Ok {A} a.
Global Arguments Raise {A} e.

Global Instance result_ret : MRet result := fun A a => Ok a.
Global Instance result_bind : MBind result := fun A B f r =>
  match r with
  | Ok a => f a
  | Raise e => Raise e
  end.

Definition returns {A} (r : result A) : bool :=
  match r with Ok _ => true | Raise _ => false end.

End Py.
Import Py.

(** ** binary64 arithmetic *)

Module B64.

Definition prec : Z := 53.
Definition emax : Z := 1024.

Abbreviation float := spec_float.

(** The double nearest to an integer (ties to even). *)
Definition of_int (z : Z) : float := binary_normalize prec emax z 0 false.

(** The double nearest to the positive rational [n / d], with sign [s]. *)
Definition of_ratio (s : bool) (n d : Z) : float :=
  let '(q, e, l) := SFdiv_core_binary prec emax n 0 d 0 in
  binary_round_aux prec emax s q e l.

Definition mul : float -> float -> float := SFmul prec emax.
Definition div : float -> float -> float := SFdiv prec emax.
Definition leb : float -> float -> bool := SFleb.
Definition ltb : float -> float -> bool := SFltb.
Definition valid : float -> bool := valid_binary prec emax.

Definition is_zero (x : float) : bool :=
  match x with S754_zero _ => true | _ => false end.

Definition is_finite (x : float) : bool :=
  match x with S754_zero _ | S754_finite _ _ _ => true | _ => false end.

(** Nearest integer to [n / d] for [0 <= n] and [0 < d], ties to even. *)
Definition rne (n d : Z) : Z :=
  let q := n / d in
  match 2 * (n mod d) ?= d with
  | Lt => q
  | Eq => if Z.even q then q else q + 1
  | Gt => q + 1
  end.

(** [ceil], [trunc]: the integer above, resp. towards zero of, a finite
    double; [None] on infinities and NaN. *)
Definition signed (s : bool) (m : positive) : Z :=
  if s then Z.neg m else Z.pos m.

Definition ceil (x : float) : option Z :=
  match x with
  | S754_zero _ => Some 0
  | S754_finite s m e =>
      Some (if 0 <=? e then signed s m * 2 ^ e
            else - ((- signed s m) / 2 ^ (- e)))
  | _ => None
  end.

Definition trunc (x : float) : option Z :=
  match x with
  | S754_zero _ => Some 0
  | S754_finite s m e =>
      Some (if 0 <=? e then signed s m * 2 ^ e
            else Z.quot (signed s m) (2 ^ (- e)))
  | _ => None
  end.

(** [|x| * 10^k] rounded to the nearest integer, ties to even: the digits
    that a fixed-point conversion with [k] decimals prints. *)
Definition scaled_digits (k : nat) (m : positive) (e : Z) : Z :=
  if 0 <=? e then Z.pos m * 2 ^ e * 10 ^ Z.of_nat k
  else rne (Z.pos m * 10 ^ Z.of_nat k) (2 ^ (- e)).

End B64.

Abbreviation float := spec_float.

(** ** Python numbers, strings and formatting *)

Module PyNum.

(** A number is an [int] or a [float]; [IntEnum] members are ints. *)
Inductive num : Type :=
| NInt (z : Z)
| NFloat (x : float).

(** [float(z)] for an int [z]. *)
Definition int_to_float (z : Z) : result float :=
  match B64.of_int z with
  | S754_infinity _ => Raise OverflowError
  | x => Ok x
  end.

(** [a / b] on ints: the correctly rounded quotient. *)
Definition int_truediv (a b : Z) : result float :=
  if b =? 0 then Raise ZeroDivisionError
  else
    let s := xorb (a <? 0) (b <? 0) in
    if a =? 0 then Ok (S754_zero s)
    else match B64.of_ratio s (Z.abs a) (Z.abs b) with
         | S754_infinity _ => Raise OverflowError
         | x => Ok x
         end.

Definition float_truediv (x y : float) : result float :=
  if B64.is_zero y then Raise ZeroDivisionError else Ok (B64.div x y).

(** The operator [/]. *)
Definition truediv (a b : num) : result float :=
  match a, b with
  | NInt x, NInt y => int_truediv x y
  | NInt x, NFloat y => x' ← int_to_float x; float_truediv x' y
  | NFloat x, NInt y => y' ← int_to_float y; float_truediv x y'
  | NFloat x, NFloat y => float_truediv x y
  end.

(** The operator [*]. *)
Definition mul (a b : num) : result num :=
  match a, b with
  | NInt x, NInt y => Ok (NInt (x * y))
  | NInt x, NFloat y => x' ← int_to_float x; Ok (NFloat (B64.mul x' y))
  | NFloat x, NInt y => y' ← int_to_float y; Ok (NFloat (B64.mul x y'))
  | NFloat x, NFloat y => Ok (NFloat (B64.mul x y))
  end.

(** [math.ceil(x)] and [int(x)] on a float. *)
Definition math_ceil (x : float) : result Z :=
  match x with
  | S754_nan => Raise (ValueError "cannot convert float NaN to integer")
  | S754_infinity _ => Raise OverflowError
  | _ => match B64.ceil x with Some z => Ok z | None => Raise OverflowError end
  end.

Definition int_of_float (x : float) : result Z :=
  match x with
  | S754_nan => Raise (ValueError "cannot convert float NaN to integer")
  | S754_infinity _ => Raise OverflowError
  | _ => match B64.trunc x with Some z => Ok z | None => Raise OverflowError end
  end.

End PyNum.
Import PyNum.

Module PyStr.

(** [str(z)] for an int, within the interpreter's limit on the length of
    the conversion: CPython 3.11 raises [ValueError] for an int of more
    than 4300 digits (the default of [sys.set_int_max_str_digits]), and
    [str_int] agrees with [str] for [- 10^4300 < z < 10^4300]. *)
Definition str_int (z : Z) : string := NilZero.string_of_int (Z.to_int z).

Definition digit_char (d : Z) : ascii :=
  ascii_of_nat (48 + Z.to_nat d).

(** The [k] low decimal digits of [v], most significant first. *)
Fixpoint low_digits (k : nat) (v : Z) (acc : string) : string :=
  match k with
  | O => acc
  | S k' => low_digits k' (v / 10) (String (digit_char (v mod 10)) acc)
  end.

(** [format(x, ".kf")]: fixed-point text with [k] decimals, correctly
    rounded from the exact binary value. *)
Definition format_fixed (k : nat) (x : float) : string :=
  let body (r : Z) :=
    let p := 10 ^ Z.of_nat k in
    str_int (r / p) ++
    match k with
    | O => ""
    | _ => "." ++ low_digits k (r mod p) ""
    end in
  match x with
  | S754_nan => "nan"
  | S754_infinity s => if s then "-inf" else "inf"
  | S754_zero s => (if s then "-" else "") ++ body 0
  | S754_finite s m e =>
      (if s then "-" else "") ++ body (B64.scaled_digits k m e)
  end.

(** [s.isascii()]: every character is below 128. A Python [str] is a
    sequence of Unicode code points, and the classes the code relies on
    are Unicode-aware: [\d] and [float] also take the decimal digits of
    other scripts, and [str.lower] the cased letters outside ASCII. The
    definitions below give them on ASCII text: they agree with Python
    on every text that satisfies [isascii]. *)
Fixpoint isascii (s : string) : bool :=
  match s with
  | EmptyString => true
  | String c s' => (nat_of_ascii c <? 128)%nat && isascii s'
  end.

(** [\d], and the digits [float] reads, on ASCII text. *)
Definition is_digit (c : ascii) : bool :=
  let n := nat_of_ascii c in ((48 <=? n) && (n <=? 57))%nat.

Definition lower_char (c : ascii) : ascii :=
  let n := nat_of_ascii c in
  if ((65 <=? n) && (n <=? 90))%nat then ascii_of_nat (n + 32) else c.

(** [s.lower()] on ASCII text. *)
Fixpoint lower (s : string) : string :=
  match s with
  | EmptyString => EmptyString
  | String c s' => String (lower_char c) (lower s')
  end.

(** Value of a run of decimal digits, most significant first. *)
Fixpoint digits_value (acc : Z) (s : string) : Z :=
  match s with
  | EmptyString => acc
  | String c s' => digits_value (10 * acc + (Z.of_nat (nat_of_ascii c) - 48)) s'
  end.

(** Splits at the first ["."]. *)
Fixpoint split_point (s : string) : string * option string :=
  match s with
  | EmptyString => (EmptyString, None)
  | String c s' =>
      if Ascii.eqb c "." then (EmptyString, Some s')
      else let '(a, b) := split_point s' in (String c a, b)
  end.

(** [float(s)] for text of the shape [digits] or [digits.digits]: the
    double nearest to the decimal number written. *)
Definition float_of_decimal (s : string) : float :=
  let '(ip, fp) := split_point s in
  let fp := match fp with Some f => f | None => EmptyString end in
  let n := digits_value 0 (ip ++ fp) in
  let d := 10 ^ Z.of_nat (String.length fp) in
  if n =? 0 then S754_zero false else B64.of_ratio false n d.

End PyStr.
Import PyStr.

(** ** [utils.py] *)

Inductive Precision : Type := BITS_32 | BITS_16 | BITS_8 | BITS_4.

Definition Precision_value (p : Precision) : Z :=
  match p with
  | BITS_32 => 32
  | BITS_16 => 16
  | BITS_8 => 8
  | BITS_4 => 4
  end.

(** Iteration order of the enumeration ([for precision in Precision]). *)
Definition Precision_members : list Precision :=
  [BITS_32; BITS_16; BITS_8; BITS_4].

Definition Precision_num (p : Precision) : num := NInt (Precision_value p).

Definition PRECISION_MAP : gmap string Precision :=
  <["float32" := BITS_32]> (<["float16" := BITS_16]> (<["bfloat16" := BITS_16]>
  (<["int8" := BITS_8]> (<["int4" := BITS_4]> ∅)))).

Inductive ModelSizeUnit : Type := MILLION | BILLION | TRILLION.

Definition ModelSizeUnit_value (u : ModelSizeUnit) : Z :=
  match u with
  | MILLION => 10 ^ 6
  | BILLION => 10 ^ 9
  | TRILLION => 10 ^ 12
  end.

(** The literal [1.2]. *)
Definition lit_1_2 : float := float_of_decimal "1.2".

(** [(total_parameters * 4) / (32 / precision) * 1.2] *)
Definition calculate_memory (total_parameters : Z) (precision : num) : result float :=
  let a := NInt (total_parameters * 4) in
  b ← truediv (NInt 32) precision;
  c ← truediv a (NFloat b);
  r ← mul (NFloat c) (NFloat lit_1_2);
  match r with
  | NFloat x => Ok x
  | NInt z => int_to_float z
  end.

Definition convert_bytes_to_human_readable (bytes_value : float) : result string :=
  gb ← truediv (NFloat bytes_value) (NInt (1024 ^ 3));
  mb ← truediv (NFloat bytes_value) (NInt (1024 ^ 2));
  Ok (if B64.leb (B64.of_int 1) gb
      then format_fixed 2 gb ++ " GB"
      else format_fixed 2 mb ++ " MB").

(** [total_bits / precision], then [math.ceil]. *)
Definition estimate_parameters (file_size_bytes : Z) (precision : num) : result Z :=
  let total_bits := file_size_bytes * 8 in
  estimated_parameters ← truediv (NInt total_bits) precision;
  math_ceil estimated_parameters.


(** *** Regular expressions

    A backtracking matcher for the fragment of [re] the program uses.
    [rmatch r s] lists, in the order the engine tries them, the ways
    [r] matches at the start of [s], each as (text consumed, text left). *)

Module Re.

Inductive regex : Type :=
| RClass (f : ascii -> bool)      (* one character of a class *)
| RPlus (f : ascii -> bool)       (* [c+], greedy *)
| RSeq (r1 r2 : regex)
| ROpt (r : regex)                (* [r?], greedy *)
| REnd.                           (* [$] *)

(** [c*], longest first. *)
Fixpoint many (f : ascii -> bool) (s : string) : list (string * string) :=
  match s with
  | String c s' =>
      if f c
      then (map (fun '(a, b) => (String c a, b)) (many f s') ++ [(EmptyString, s)])%list
      else [(EmptyString, s)]
  | EmptyString => [(EmptyString, s)]
  end.

Fixpoint rmatch (r : regex) (s : string) : list (string * string) :=
  match r with
  | RClass f =>
      match s with
      | String c s' => if f c then [(String c EmptyString, s')] else []
      | EmptyString => []
      end
  | RPlus f =>
      match s with
      | String c s' =>
          if f c then map (fun '(a, b) => (String c a, b)) (many f s') else []
      | EmptyString => []
      end
  | RSeq r1 r2 =>
      flat_map (fun '(a, rest) =>
                  map (fun '(b, rest') => (a ++ b, rest')) (rmatch r2 rest))
               (rmatch r1 s)
  | ROpt r' => (rmatch r' s ++ [(EmptyString, s)])%list
  | REnd =>
      (* end of text, or just before a final newline *)
      if (String.eqb s EmptyString || String.eqb s (String "010" EmptyString))%bool
      then [(EmptyString, s)] else []
  end.

(** [re.match] of the pattern [(r1)(r2)]: the two groups of the first
    match the engine finds. *)
Definition match_groups (r1 r2 : regex) (s : string) : option (string * string) :=
  head (flat_map (fun '(a, rest) => map (fun '(b, _) => (a, b)) (rmatch r2 rest))
                 (rmatch r1 s)).

(** [re.match] as a truth value. *)
Definition matches (r : regex) (s : string) : bool :=
  match rmatch r s with [] => false | _ :: _ => true end.

Definition one_of (cs : string) (c : ascii) : bool :=
  existsb (Ascii.eqb c) (list_ascii_of_string cs).

(** [\d+(\.\d+)?] *)
Definition number_re : regex :=
  RSeq (RPlus is_digit) (ROpt (RSeq (RClass (Ascii.eqb ".")) (RPlus is_digit))).

End Re.

Definition size_mapping : gmap string ModelSizeUnit :=
  <["m" := MILLION]> (<["b" := BILLION]> (<["t" := TRILLION]> ∅)).

(** [re.match(r"(\d+(\.\d+)?)([mbt])", size_str)] *)
Definition size_pattern_match (size_str : string) : option (string * string) :=
  Re.match_groups Re.number_re (Re.RClass (Re.one_of "mbt")) size_str.

Definition parse_model_size (size_str : string) : result Z :=
  let size_str := lower size_str in
  match size_pattern_match size_str with
  | None => Raise (ValueError ("Invalid model size format: " ++ size_str))
  | Some (g1, g3) =>
      let number := float_of_decimal g1 in
      match size_mapping !! g3 with
      | None => Raise KeyError
      | Some u =>
          r ← mul (NFloat number) (NInt (ModelSizeUnit_value u));
          match r with
          | NFloat x => int_of_float x
          | NInt z => Ok z
          end
      end
  end.

Fixpoint format_model_size_loop (size_mapping : list (ModelSizeUnit * string))
    (size_int : Z) : result string :=
  match size_mapping with
  | (threshold, unit) :: rest =>
      if ModelSizeUnit_value threshold <=? size_int
      then x ← truediv (NInt size_int) (NInt (ModelSizeUnit_value threshold));
           Ok (format_fixed 1 x ++ unit)
      else format_model_size_loop rest size_int
  | [] => Ok (str_int size_int)
  end.

Definition format_model_size (size_int : Z) : result string :=
  format_model_size_loop [(TRILLION, "T"); (BILLION, "B"); (MILLION, "M")] size_int.

(** ** [core.py] *)

(** Python values that can reach the core: parsed JSON ([config.json] as
    returned by [response.json()]), the strings ["auto"] and ["all"], ints,
    and members of [Precision]. *)
Inductive value : Type :=
| VNone
| VBool (b : bool)
| VInt (z : Z)
| VFloat (x : float)
| VStr (s : string)
| VList (l : list value)
| VDict (d : gmap string value)
| VPrecision (p : Precision).

(** Truth value of an object, as [if x:] tests it. *)
Definition truthy (v : value) : bool :=
  match v with
  | VNone => false
  | VBool b => b
  | VInt z => negb (z =? 0)
  | VFloat x => negb (B64.is_zero x)
  | VStr s => negb (String.eqb s "")
  | VList l => match l with [] => false | _ => true end
  | VDict d => negb (bool_decide (d = ∅))
  | VPrecision p => negb (Precision_value p =? 0)
  end.

(** [x == s] for a string [s]. *)
Definition eq_str (v : value) (s : string) : bool :=
  match v with VStr t => String.eqb t s | _ => false end.

(** [v.get(key, default)]: only a [dict] has the method. *)
Definition dict_get (v : value) (key : string) (default : value) : result value :=
  match v with
  | VDict d => Ok (match d !! key with Some x => x | None => default end)
  | _ => Raise AttributeError
  end.

(** [PRECISION_MAP.get(key, default)]: a list or dict is not hashable. *)
Definition precision_map_get (key : value) (default : Precision) : result Precision :=
  match key with
  | VStr s => Ok (match PRECISION_MAP !! s with Some p => p | None => default end)
  | VList _ | VDict _ => Raise TypeError
  | _ => Ok default
  end.

Definition determine_precision (model_config : gmap string value) : result value :=
  let by_dtype :=
    p ← precision_map_get
          (match model_config !! "torch_dtype" with Some t => t | None => VNone end)
          BITS_32;
    Ok (VPrecision p) in
  match model_config !! "quantization" with
  | Some q =>
      dict_get q "bits"
        (match model_config !! "torch_dtype" with
         | Some t => t
         | None => VPrecision BITS_32
         end)
  | None =>
      match model_config !! "quantization_config" with
      | Some qc =>
          b4 ← dict_get qc "load_in_4bit" VNone;
          if truthy b4 then Ok (VPrecision BITS_4)
          else
            b8 ← dict_get qc "load_in_8bit" VNone;
            if truthy b8 then Ok (VPrecision BITS_8)
            else by_dtype
      | None => by_dtype
      end
  end.

(** A value used as an operand of [/]. *)
Definition as_num (v : value) : result num :=
  match v with
  | VInt z => Ok (NInt z)
  | VBool b => Ok (NInt (if b then 1 else 0))
  | VPrecision p => Ok (Precision_num p)
  | VFloat x => Ok (NFloat x)
  | _ => Raise TypeError
  end.

Definition join_lines (l : list string) : string :=
  String.concat (String "010" EmptyString) l.

Fixpoint calculate_all_precisions_loop (num_params : Z) (members : list Precision)
    : result (list string) :=
  match members with
  | [] => Ok []
  | precision :: rest =>
      gpu_mem ← calculate_memory num_params (Precision_num precision);
      h ← convert_bytes_to_human_readable gpu_mem;
      results ← calculate_all_precisions_loop num_params rest;
      Ok (("  - " ++ str_int (Precision_value precision) ++ "bit: " ++ h) :: results)
  end.

Definition calculate_all_precisions (num_params : Z)
    (model_name_or_path : option string) : result string :=
  results ← calculate_all_precisions_loop num_params Precision_members;
  label ← format_model_size num_params;
  match model_name_or_path with
  | Some name =>
      if negb (String.eqb name "")
      then Ok ("Required GPU Memory[" ++ name ++ ", parameters: " ++ label ++ "]"
               ++ String "010" EmptyString ++ join_lines results)
      else Ok ("Required GPU Memory[parameters: " ++ label ++ "]"
               ++ String "010" EmptyString ++ join_lines results)
  | None =>
      Ok ("Required GPU Memory[parameters: " ++ label ++ "]"
          ++ String "010" EmptyString ++ join_lines results)
  end.

(** The argument of [from_params]: a size label or a count. *)
Inductive params_arg : Type :=
| ParamStr (s : string)
| ParamInt (z : Z).

Section Core.

(** The model registry (network access) and the text [str] gives for a
    float are outside the repository's code. *)
Variable get_model_size : string -> result Z.
Variable get_model_config : string -> result (gmap string value).
Variable float_str : float -> string.

(** [f"{precision}"] for a precision that went through the arithmetic. *)
Definition format_precision (precision : value) : string :=
  match precision with
  | VInt z => str_int z
  | VPrecision p => str_int (Precision_value p)
  | VBool b => if b then "True" else "False"
  | VFloat x => float_str x
  | _ => ""
  end.

Definition from_hf (model_name_or_path : string) (precision : value) : result string :=
  model_size ← get_model_size model_name_or_path;
  precision ←
    (if eq_str precision "auto"
     then model_config ← get_model_config model_name_or_path;
          determine_precision model_config
     else Ok precision);
  if eq_str precision "all"
  then calculate_all_precisions model_size (Some model_name_or_path)
  else
    p ← as_num precision;
    num_params ← estimate_parameters model_size p;
    gpu_mem ← calculate_memory num_params p;
    h ← convert_bytes_to_human_readable gpu_mem;
    Ok ("Required GPU Memory[" ++ model_name_or_path ++ ", precision: "
        ++ format_precision precision ++ "]: " ++ h).

Definition from_params (num_params : params_arg) (precision : value) : result string :=
  num_params ←
    match num_params with
    | ParamStr s => parse_model_size s
    | ParamInt z => Ok z
    end;
  if eq_str precision "all"
  then calculate_all_precisions num_params None
  else
    p ← as_num precision;
    gpu_mem ← calculate_memory num_params p;
    label ← format_model_size num_params;
    h ← convert_bytes_to_human_readable gpu_mem;
    Ok ("Required GPU Memory[parameters: " ++ label ++ ", precision: "
        ++ format_precision precision ++ "]: " ++ h).

(** ** [cli.py] *)

(** The values [argparse] admits for [--precision]. *)
Inductive precision_choice : Type :=
| Choice_all | Choice_auto | Choice_32 | Choice_16 | Choice_8 | Choice_4.

(** [args.precision] after the conversion of numeric choices by [int]. *)
Definition choice_value (c : precision_choice) : value :=
  match c with
  | Choice_all => VStr "all"
  | Choice_auto => VStr "auto"
  | Choice_32 => VInt 32
  | Choice_16 => VInt 16
  | Choice_8 => VInt 8
  | Choice_4 => VInt 4
  end.

(** [^\d+(?:\.\d+)?[MBTmbt]$]; [re.match] starts at the beginning of
    the text, where [^] holds. *)
Definition cli_pattern : Re.regex :=
  Re.RSeq Re.number_re (Re.RSeq (Re.RClass (Re.one_of "MBTmbt")) Re.REnd).

(** The call [cli] makes. *)
Inductive call : Type :=
| Call_from_params (num_params : params_arg) (precision : value)
| Call_from_hf (model_name_or_path : string) (precision : value).

(** [args.model_or_params] is always a [str]: [argparse] converts
    nothing, so [isinstance(model_input, int)] is false. *)
Definition cli_dispatch (model_or_params : string) (precision : precision_choice) : call :=
  let precision := choice_value precision in
  let model_input := model_or_params in
  if (false || Re.matches cli_pattern model_input)%bool
  then
    let precision := if eq_str precision "auto" then VStr "all" else precision in
    Call_from_params (ParamStr model_input) precision
  else Call_from_hf model_input precision.

Definition run_call (c : call) : result string :=
  match c with
  | Call_from_params n p => from_params n p
  | Call_from_hf m p => from_hf m p
  end.

(** The text [cli] prints. *)
Definition cli (model_or_params : string) (precision : precision_choice) : result string :=
  run_call (cli_dispatch model_or_params precision).

End Core.

(** ** The model registry ([utils.py], [core.py])

    The Hugging Face client is outside the repository. A call to it
    returns or raises; the code tells [NotASafetensorsRepoError] from
    every other exception, and of an exception it uses the text that
    [str] gives. The exceptions represented are those derived from
    [Exception], the ones the handlers of this code catch: an
    interrupt or an exit request (a [BaseException] only) passes
    through them unchanged, as would a failure of the constructor
    [HfApi()], which [get_model_file_size] calls before its [try].
    Neither is represented, so the statements about the registry say
    what the code does for given answers of the calls, not which
    exceptions can leave it. *)

Inductive ModelFileType : Type :=
| PYTORCH | TENSORFLOW | FLAX | RUST | CHECKPOINT | ONNX | COREML.

Definition MODEL_FILE_NAMES : list (ModelFileType * string) :=
  [(PYTORCH, "pytorch_model.bin"); (TENSORFLOW, "tf_model.h5");
   (FLAX, "flax_model.msgpack"); (RUST, "rust_model.ot");
   (CHECKPOINT, "model.ckpt"); (ONNX, "model.onnx");
   (COREML, "coreml_model.mlmodel")].

(** [rfilename in MODEL_FILE_NAMES.values()] *)
Definition is_model_file (rfilename : string) : bool :=
  existsb (String.eqb rfilename) (map snd MODEL_FILE_NAMES).

Inductive hub_exn : Type :=
| NotASafetensorsRepoError (text : string)
| HubException (text : string).

(** [str(e)] *)
Definition hub_exn_str (e : hub_exn) : string :=
  match e with
  | NotASafetensorsRepoError text => text
  | HubException text => text
  end.

Inductive outcome (A : Type) : Type :=
| Returns (a : A)
| Raises (e : hub_exn).

Arguments Returns {A} a.
Arguments Raises {A} e.

Section Registry.

(** [api.model_info(name).siblings], each by its [rfilename]. *)
Variable model_info_siblings : string -> outcome (list string).

(** [get_hf_file_metadata(hf_hub_url(name, rfilename)).size] *)
Variable file_metadata_size : string -> string -> outcome (option Z).

(** [int(get_safetensors_metadata(name).metadata["total_size"])] *)
Variable safetensors_total_size : string -> outcome Z.

(** The loop over the siblings: the first known file name decides. *)
Fixpoint get_model_file_size_loop (model_name_or_path : string) (siblings : list string)
    : result (option Z) :=
  match siblings with
  | [] => Ok None
  | rfilename :: rest =>
      if is_model_file rfilename
      then match file_metadata_size model_name_or_path rfilename with
           | Returns size => Ok size
           | Raises e =>
               Raise (ValueError ("Failed to get model file size: " ++ hub_exn_str e))
           end
      else get_model_file_size_loop model_name_or_path rest
  end.

Definition get_model_file_size (model_name_or_path : string) : result (option Z) :=
  match model_info_siblings model_name_or_path with
  | Returns siblings => get_model_file_size_loop model_name_or_path siblings
  | Raises e => Raise (ValueError ("Failed to get model file size: " ++ hub_exn_str e))
  end.

Definition get_model_size (model_name_or_path : string) : result Z :=
  match safetensors_total_size model_name_or_path with
  | Returns total_size => Ok total_size
  | Raises (NotASafetensorsRepoError _) =>
      size ← get_model_file_size model_name_or_path;
      match size with
      | None =>
          Raise (ValueError ("Model size can't be obtained from the model repo: "
                             ++ model_name_or_path))
      | Some size => Ok size
      end
  | Raises (HubException text) =>
      Raise (ValueError ("Error obtaining model size: " ++ text))
  end.

End Registry.

(** ** Definitions used by the statements and proofs *)

Import B64 PyNum PyStr.

Definition fexp (e : Z) : Z := Z.max (e - 53) (-1074).

Definition loc_of (a b : Z) : location :=
  if a mod b =? 0 then loc_Exact else loc_Inexact (2 * (a mod b) ?= b).

Definition rec_of (a b : Z) : shr_record := shr_record_of_loc (a / b) (loc_of a b).

Definition round_core (a b ex : Z) : Z * Z :=
  let mx := a / b in
  let e1 := ex + Z.max 0 (fexp (Zdigits2 mx + ex) - ex) in
  let m1 := rne a (2 ^ (e1 - ex) * b) in
  let e2 := e1 + Z.max 0 (fexp (Zdigits2 m1 + e1) - e1) in
  (m1 / 2 ^ (e2 - e1), e2).

Definition pack (s : bool) (me : Z * Z) : float :=
  match fst me with
  | 0 => S754_zero s
  | Z.pos m => if snd me <=? emax - prec then S754_finite s m (snd me) else S754_infinity s
  | Z.neg _ => S754_nan
  end.

(** The quotient, exponent and position that the division kernel returns. *)
Definition div_exp (m1 e1 m2 e2 : Z) : Z :=
  Z.min (fexp (Zdigits2 m1 + e1 - (Zdigits2 m2 + e2))) (e1 - e2).

Definition div_num (m1 e1 m2 e2 : Z) : Z :=
  m1 * 2 ^ (e1 - e2 - div_exp m1 e1 m2 e2).

Definition spec_estimateMemoryBytes (paramCount : Z) (precision : Precision) : float :=
  B64.mul
    (B64.div (B64.of_int (paramCount * 4))
             (B64.div (B64.of_int 32) (B64.of_int (Precision_value precision))))
    lit_1_2.

(** [32 / precision] is [2 ^ halvings precision]. *)
Definition halvings (p : Precision) : Z :=
  match p with BITS_32 => 0 | BITS_16 => 1 | BITS_8 => 2 | BITS_4 => 3 end.

Definition P : Z := 2 ^ 1074.

(** The value of a finite double times [2^1074]: an integer. *)
Definition B2S (x : float) : Z :=
  match x with
  | S754_finite s m e => signed s m * 2 ^ (e + 1074)
  | _ => 0
  end.

Definition nonneg (x : float) : bool :=
  match x with
  | S754_zero _ | S754_finite false _ _ => true
  | _ => false
  end.

Definition ceil_div (a b : Z) : Z := - ((- a) / b).

(** A rounded mantissa [m1] in [[2^52, 2^53]] at scaled exponent [S],
    with the carry folded in. *)
Definition pack_norm (s : bool) (m1 S : Z) : float :=
  pack s (if m1 =? 2 ^ 53 then (2 ^ 52, S - 1074 + 1) else (m1, S - 1074)).

Definition spec_estimateParameterCount (fileSizeBytes : Z) (precision : Precision) : Z :=
  ceil_div (fileSizeBytes * 8) (Precision_value precision).

(** The scaled value of the double nearest to [8 f / precision]. *)
Definition est_scale (f : Z) (prec : Precision) : Z :=
  Zdigits2 f + 1019 + halvings prec.

Definition est_value (f : Z) (prec : Precision) : Z :=
  rne (f * 8 * P) (Precision_value prec * 2 ^ est_scale f prec) * 2 ^ est_scale f prec.

Definition spec_humanizeBytes (value : float) : string :=
  if B64.leb (B64.of_int (2 ^ 30)) value
  then format_fixed 2 (B64.div value (B64.of_int (2 ^ 30))) ++ " GB"
  else format_fixed 2 (B64.div value (B64.of_int (2 ^ 20))) ++ " MB".

Fixpoint all_digits (s : string) : bool :=
  match s with
  | EmptyString => true
  | String c s' => is_digit c && all_digits s'
  end.

(** A non-empty run of decimal digits. *)
Definition digit_run (s : string) : Prop := s <> EmptyString /\ all_digits s = true.

(** [<digits>[.<digits>]] *)
Definition number_text (s : string) : Prop :=
  digit_run s \/ exists a b, s = a ++ "." ++ b /\ digit_run a /\ digit_run b.

(** One of M/B/T, case-insensitive. *)
Definition unit_letter (c : ascii) : bool := Re.one_of "MBTmbt" c.

(** [<digits>[.<digits>]<unit>] *)
Definition size_label (s : string) : Prop :=
  exists num u, s = num ++ String u EmptyString /\ number_text num /\ unit_letter u = true.

Definition unit_multiplier (u : ascii) : Z :=
  if Re.one_of "Mm" u then 10 ^ 6
  else if Re.one_of "Bb" u then 10 ^ 9
  else 10 ^ 12.

(** Longest run of digits at the start of a text, and what follows. *)
Fixpoint span_digits (s : string) : string * string :=
  match s with
  | String c s' =>
      if is_digit c then let '(a, b) := span_digits s' in (String c a, b)
      else (EmptyString, s)
  | EmptyString => (EmptyString, EmptyString)
  end.

Definition starts_with_digit (s : string) : bool :=
  match s with String c _ => is_digit c | EmptyString => false end.

(** The match of [(\d+(\.\d+)?)([mbt])] at the start of a text, found
    without backtracking: number, unit, rest. *)
Definition scan (s : string) : option (string * string * string) :=
  let '(ds1, r1) := span_digits s in
  if String.eqb ds1 EmptyString then None
  else
    match r1 with
    | String c r2 =>
        let '(ds2, r3) := span_digits r2 in
        if Ascii.eqb c "." && negb (String.eqb ds2 EmptyString)
        then match r3 with
             | String u rest =>
                 if Re.one_of "mbt" u
                 then Some (ds1 ++ String "." ds2, String u EmptyString, rest)
                 else None
             | EmptyString => None
             end
        else if Re.one_of "mbt" c then Some (ds1, String c EmptyString, r2) else None
    | EmptyString => None
    end.

(** The unit class after a candidate number. *)
Definition unit_after (a rest : string) : list (string * string) :=
  map (fun '(b, _) => (a, b)) (Re.rmatch (Re.RClass (Re.one_of "mbt")) rest).

(** The fraction and unit after the integer part [a]. *)
Definition frac_unit_after (a rest : string) : list (string * string) :=
  flat_map (fun '(x, r) => unit_after x r)
    (map (fun '(b, rest') => (a ++ b, rest'))
         (Re.rmatch (Re.ROpt (Re.RSeq (Re.RClass (Ascii.eqb ".")) (Re.RPlus is_digit))) rest)).

(** The number times the unit multiplier, truncated to an integer. *)
Definition spec_parse_value (num : string) (u : ascii) : result Z :=
  int_of_float (B64.mul (float_of_decimal num) (B64.of_int (unit_multiplier u))).


(** The decimal number a label's text denotes: numerator and the power
    of ten below it. *)
Definition number_num (num : string) : Z :=
  let '(ip, fp) := split_point num in
  digits_value 0 (ip ++ match fp with Some f => f | None => EmptyString end).

Definition number_den (num : string) : Z :=
  let '(ip, fp) := split_point num in
  10 ^ Z.of_nat (String.length match fp with Some f => f | None => EmptyString end).

(** A finite, valid, positive double of scaled value [R], within
    relative error [2^-53] of the exact scaled value [A / B]. *)
Definition rounds_to (x : float) (A B : Z) : Prop :=
  exists m e, x = S754_finite false m e /\ B64.valid x = true /\
              - A <= (B2S x * B - A) * 2 ^ 53 <= A.

(** The text that [format_fixed 1] writes for a positive double: the
    tenths, rounded to the nearest, printed with one decimal. *)
Definition tenths_text (r : Z) : string :=
  str_int (r / 10) ++ String "." (String (digit_char (r mod 10)) EmptyString).

Fixpoint all_in (f : ascii -> bool) (s : string) : bool :=
  match s with
  | EmptyString => true
  | String c s' => f c && all_in f s'
  end.

(** [matched r a rest]: the pattern [r] matches the text [a] when [rest]
    follows it. *)
Fixpoint matched (r : Re.regex) (a rest : string) : Prop :=
  match r with
  | Re.RClass f => exists c, a = String c EmptyString /\ f c = true
  | Re.RPlus f => a <> EmptyString /\ all_in f a = true
  | Re.RSeq r1 r2 =>
      exists a1 a2, a = a1 ++ a2 /\ matched r1 a1 (a2 ++ rest) /\ matched r2 a2 rest
  | Re.ROpt r' => matched r' a rest \/ a = EmptyString
  | Re.REnd => a = EmptyString /\ (rest = EmptyString \/ rest = String "010" EmptyString)
  end.

(** A size label, or one followed by a single newline. *)
Definition cli_label (s : string) : Prop :=
  size_label s \/ exists l, s = l ++ String "010" EmptyString /\ size_label l.

(** A hypothesis set aside, out of the way of the arithmetic procedures. *)
Definition kept (A : Prop) : Prop := A.

(** The threshold and the unit letter [format_model_size] picks. *)
Definition size_unit (n : Z) : Z * string :=
  if 10 ^ 12 <=? n then (10 ^ 12, "T")
  else if 10 ^ 9 <=? n then (10 ^ 9, "B")
  else (10 ^ 6, "M").

(** One line of the report. *)
Definition report_line (n : Z) (prec : Precision) : string :=
  "  - " ++ str_int (Precision_value prec) ++ "bit: "
  ++ spec_humanizeBytes (spec_estimateMemoryBytes n prec).


(** A count of hundredths as fixed-point text: the integer part, a
    point, and the two low digits. *)
Definition hundredths_text (r : Z) : string :=
  str_int (r / 100) ++ "." ++ low_digits 2 (r mod 100) "".

(** * Properties *)

Lemma fexp_eq e : SpecFloat.fexp prec emax e = fexp e.
Proof. reflexivity. Qed.

Lemma iter_pos_eq {A} (f : A -> A) p x : SpecFloat.iter_pos f p x = Pos.iter f x p.
Proof.
  revert x. induction p as [p IH|p IH|]; intros x; simpl.
  - rewrite !IH, !Pos.iter_swap. reflexivity.
  - rewrite !IH. reflexivity.
  - reflexivity.
Qed.

Lemma loc_of_rec m l : loc_of_shr_record (shr_record_of_loc m l) = l.
Proof. destruct l as [|[]]; reflexivity. Qed.

Lemma shr_m_rec m l : shr_m (shr_record_of_loc m l) = m.
Proof. destruct l as [|[]]; reflexivity. Qed.

Lemma shr_1_eq m r s :
  0 <= m -> shr_1 (Build_shr_record m r s) = Build_shr_record (m / 2) (Z.odd m) (r || s).
Proof.
  intros Hm. rewrite <- Z.div2_div.
  destruct m as [|[p|p|]|]; try lia; reflexivity.
Qed.

Lemma shr_1_rec a b : 0 <= a -> 0 < b -> shr_1 (rec_of a b) = rec_of a (2 * b).
Proof.
  intros Ha Hb. unfold rec_of, loc_of.
  assert (Hq : a / (2 * b) = a / b / 2) by (rewrite (Z.mul_comm 2 b), Z.div_div by lia; reflexivity).
  assert (Hr : a mod (2 * b) = a mod b + b * ((a / b) mod 2))
    by (rewrite (Z.mul_comm 2 b); apply Z.rem_mul_r; lia).
  rewrite Hq, Hr, Zmod_odd.
  pose proof (Z.mod_pos_bound a b Hb) as Hrb.
  pose proof (Z.div_pos a b Ha Hb) as Hm.
  set (m := a / b) in *. set (r := a mod b) in *.
  destruct (Z.eqb_spec r 0) as [Hr0|Hr0].
  - cbn [shr_record_of_loc]. rewrite shr_1_eq by assumption.
    destruct (Z.odd m); cbn [orb].
    + destruct (Z.eqb_spec (r + b * 1) 0); [lia|].
      replace (2 * (r + b * 1) ?= 2 * b) with Eq by (symmetry; apply Z.compare_eq_iff; lia).
      reflexivity.
    + destruct (Z.eqb_spec (r + b * 0) 0); [|lia]. reflexivity.
  - assert (Hs : forall c, shr_1 (shr_record_of_loc m (loc_Inexact c)) =
                           Build_shr_record (m / 2) (Z.odd m) true).
    { intros [| |]; cbn [shr_record_of_loc]; rewrite shr_1_eq by assumption;
        rewrite ?orb_true_r; reflexivity. }
    rewrite Hs.
    destruct (Z.odd m).
    + destruct (Z.eqb_spec (r + b * 1) 0); [lia|].
      replace (2 * (r + b * 1) ?= 2 * b) with Gt by (symmetry; apply Z.compare_gt_iff; lia).
      reflexivity.
    + destruct (Z.eqb_spec (r + b * 0) 0); [lia|].
      replace (2 * (r + b * 0) ?= 2 * b) with Lt by (symmetry; apply Z.compare_lt_iff; lia).
      reflexivity.
Qed.

Lemma iter_shr_1_rec p a b :
  0 <= a -> 0 < b -> Pos.iter shr_1 (rec_of a b) p = rec_of a (2 ^ Z.pos p * b).
Proof.
  intros Ha Hb. induction p as [|p IH] using Pos.peano_ind.
  - simpl Pos.iter. rewrite shr_1_rec by assumption. reflexivity.
  - rewrite Pos.iter_succ, IH, shr_1_rec by lia.
    f_equal. rewrite Pos2Z.inj_succ, Z.pow_succ_r by lia. ring.
Qed.

Lemma shr_rec a b e n :
  0 <= a -> 0 < b ->
  shr (rec_of a b) e n = (rec_of a (2 ^ Z.max 0 n * b), e + Z.max 0 n).
Proof.
  intros Ha Hb. unfold shr. destruct n as [|p|p].
  - simpl Z.max. rewrite Z.pow_0_r, Z.mul_1_l, Z.add_0_r. reflexivity.
  - rewrite iter_pos_eq, iter_shr_1_rec by assumption.
    replace (Z.max 0 (Z.pos p)) with (Z.pos p) by lia. reflexivity.
  - replace (Z.max 0 (Z.neg p)) with 0 by lia.
    rewrite Z.pow_0_r, Z.mul_1_l, Z.add_0_r. reflexivity.
Qed.

Lemma rne_rec a b :
  0 < b ->
  round_nearest_even (shr_m (rec_of a b)) (loc_of_shr_record (rec_of a b)) = rne a b.
Proof.
  intros Hb. unfold rec_of. rewrite shr_m_rec, loc_of_rec.
  unfold loc_of, rne, round_nearest_even.
  destruct (Z.eqb_spec (a mod b) 0) as [E|E].
  - rewrite E. replace (2 * 0 ?= b) with Lt by (symmetry; apply Z.compare_lt_iff; lia).
    reflexivity.
  - destruct (2 * (a mod b) ?= b); reflexivity.
Qed.

Lemma rne_cases a b : rne a b = a / b \/ rne a b = a / b + 1.
Proof.
  unfold rne. destruct (2 * (a mod b) ?= b); auto. destruct (Z.even (a / b)); auto.
Qed.

Lemma rne_nonneg a b : 0 <= a -> 0 < b -> 0 <= rne a b.
Proof.
  intros Ha Hb. pose proof (Z.div_pos a b Ha Hb). destruct (rne_cases a b); lia.
Qed.

Lemma rne_exact a b : 0 < b -> a mod b = 0 -> rne a b = a / b.
Proof.
  intros Hb E. unfold rne. rewrite E.
  replace (2 * 0 ?= b) with Lt by (symmetry; apply Z.compare_lt_iff; lia). reflexivity.
Qed.

Lemma rne_mul m b : 0 < b -> rne (m * b) b = m.
Proof.
  intros Hb. rewrite rne_exact by (try apply Z.mod_mul; lia). apply Z.div_mul. lia.
Qed.

(** The rounding error is at most one half. *)
Lemma rne_err a b : 0 < b -> - b <= 2 * (rne a b * b - a) <= b.
Proof.
  intros Hb. pose proof (Z.div_mod a b ltac:(lia)) as E.
  pose proof (Z.mod_pos_bound a b Hb) as Hr.
  unfold rne. destruct (Z.compare_spec (2 * (a mod b)) b).
  - destruct (Z.even (a / b)); nia.
  - nia.
  - nia.
Qed.

Lemma rec_of_exact m : rec_of m 1 = shr_record_of_loc m loc_Exact.
Proof. unfold rec_of, loc_of. rewrite Z.mod_1_r, Z.div_1_r. reflexivity. Qed.

Lemma binary_round_aux_spec s a b ex :
  0 <= a -> 0 < b ->
  binary_round_aux prec emax s (a / b) ex (loc_of a b) = pack s (round_core a b ex).
Proof.
  intros Ha Hb. unfold binary_round_aux, shr_fexp. rewrite !fexp_eq.
  change (shr_record_of_loc (a / b) (loc_of a b)) with (rec_of a b).
  rewrite shr_rec by assumption.
  assert (Hp : 0 < 2 ^ Z.max 0 (fexp (Zdigits2 (a / b) + ex) - ex) * b)
    by (apply Z.mul_pos_pos; [apply Z.pow_pos_nonneg; lia|assumption]).
  rewrite rne_rec by assumption.
  rewrite <- rec_of_exact, shr_rec by (try apply rne_nonneg; lia).
  unfold rec_of at 1. rewrite shr_m_rec.
  unfold pack, round_core. cbn [fst snd].
  replace (ex + Z.max 0 (fexp (Zdigits2 (a / b) + ex) - ex) - ex)
    with (Z.max 0 (fexp (Zdigits2 (a / b) + ex) - ex)) by lia.
  set (e1 := ex + Z.max 0 (fexp (Zdigits2 (a / b) + ex) - ex)).
  set (m1 := rne a (2 ^ Z.max 0 (fexp (Zdigits2 (a / b) + ex) - ex) * b)).
  replace (e1 + Z.max 0 (fexp (Zdigits2 m1 + e1) - e1) - e1)
    with (Z.max 0 (fexp (Zdigits2 m1 + e1) - e1)) by lia.
  rewrite Z.mul_1_r. reflexivity.
Qed.

Lemma binary_round_aux_exact s m ex :
  0 <= m -> binary_round_aux prec emax s m ex loc_Exact = pack s (round_core m 1 ex).
Proof.
  intros Hm. rewrite <- binary_round_aux_spec by lia.
  unfold loc_of. rewrite Z.mod_1_r, Z.div_1_r. reflexivity.
Qed.

(** Number of binary digits. *)
Lemma digits2_pos_size p : digits2_pos p = Pos.size p.
Proof. induction p; simpl; congruence. Qed.

Lemma Zdigits2_log2 m : 0 < m -> Zdigits2 m = Z.log2 m + 1.
Proof.
  destruct m as [|p|p]; try lia. intros _. simpl Zdigits2. rewrite digits2_pos_size.
  destruct p; simpl; lia.
Qed.

Lemma Zdigits2_bounds m : 0 < m -> 2 ^ (Zdigits2 m - 1) <= m < 2 ^ Zdigits2 m.
Proof.
  intros Hm. rewrite Zdigits2_log2 by assumption.
  replace (Z.log2 m + 1 - 1) with (Z.log2 m) by lia.
  apply Z.log2_spec. assumption.
Qed.

Lemma Zdigits2_unique m d : 2 ^ (d - 1) <= m < 2 ^ d -> 0 < d -> Zdigits2 m = d.
Proof.
  intros H Hd.
  assert (0 < m) by (pose proof (Z.pow_pos_nonneg 2 (d - 1)); lia).
  rewrite Zdigits2_log2 by assumption.
  rewrite (Z.log2_unique m (d - 1)); try lia.
  replace (Z.succ (d - 1)) with d by lia. assumption.
Qed.

Lemma Zdigits2_nonneg m : 0 <= Zdigits2 m.
Proof. destruct m; simpl; lia. Qed.

Lemma Zdigits2_le m k : 0 <= m < 2 ^ k -> 0 <= k -> Zdigits2 m <= k.
Proof.
  intros [H0 H] Hk. destruct (Z.eq_dec m 0) as [->|]; [simpl; lia|].
  pose proof (Zdigits2_bounds m ltac:(lia)) as [Hl _].
  destruct (Z_lt_le_dec k (Zdigits2 m)); [|lia].
  assert (2 ^ k <= 2 ^ (Zdigits2 m - 1)) by (apply Z.pow_le_mono_r; lia). lia.
Qed.

Lemma pow2_split (x y : Z) : 0 <= x -> 0 <= y -> 2 ^ (x + y) = 2 ^ x * 2 ^ y.
Proof. intros. apply Z.pow_add_r; assumption. Qed.

Lemma div_pow2_bounds q n k :
  0 <= n -> 0 <= k -> 2 ^ (k + n) <= q < 2 ^ (k + 1 + n) ->
  2 ^ k <= q / 2 ^ n < 2 ^ (k + 1).
Proof.
  intros Hn Hk [Hl Hu]. rewrite pow2_split in Hl, Hu by lia.
  assert (0 < 2 ^ n) by (apply Z.pow_pos_nonneg; lia).
  split.
  - apply Z.div_le_lower_bound; lia.
  - apply Z.div_lt_upper_bound; lia.
Qed.

Lemma round_core_normal a b ex :
  0 <= a -> 0 < b ->
  53 <= Zdigits2 (a / b) -> -1074 <= Zdigits2 (a / b) + ex - 53 ->
  let n := Zdigits2 (a / b) - 53 in
  let m1 := rne a (2 ^ n * b) in
  2 ^ 52 <= m1 <= 2 ^ 53 /\
  round_core a b ex = if m1 =? 2 ^ 53 then (2 ^ 52, ex + n + 1) else (m1, ex + n).
Proof.
  intros Ha Hb Hd He n m1.
  assert (Hq : 0 < a / b).
  { pose proof (Z.div_pos a b Ha Hb). destruct (a / b); simpl in Hd; lia. }
  pose proof (Zdigits2_bounds _ Hq) as Hqb. fold n in He.
  assert (Hn : 0 <= n) by (unfold n; lia).
  assert (Hpn : 0 < 2 ^ n) by (apply Z.pow_pos_nonneg; lia).
  assert (Hfl : 2 ^ 52 <= a / (2 ^ n * b) < 2 ^ 53).
  { rewrite (Z.mul_comm (2 ^ n) b), <- Z.div_div by lia.
    apply (div_pow2_bounds _ n 52); try lia.
    replace (52 + n) with (Zdigits2 (a / b) - 1) by (unfold n; lia).
    replace (52 + 1 + n) with (Zdigits2 (a / b)) by (unfold n; lia).
    assumption. }
  assert (Hm1 : 2 ^ 52 <= m1 <= 2 ^ 53).
  { unfold m1. destruct (rne_cases a (2 ^ n * b)) as [-> | ->]; lia. }
  split; [assumption|].
  unfold round_core.
  assert (E1 : ex + Z.max 0 (fexp (Zdigits2 (a / b) + ex) - ex) = ex + n).
  { unfold fexp, n. lia. }
  rewrite E1. replace (ex + n - ex) with n by lia. fold m1.
  destruct (Z.eqb_spec m1 (2 ^ 53)) as [E|E].
  - rewrite E. change (Zdigits2 (2 ^ 53)) with 54.
    replace (Z.max 0 (fexp (54 + (ex + n)) - (ex + n))) with 1 by (unfold fexp, n in *; lia).
    replace (ex + n + 1 - (ex + n)) with 1 by lia. reflexivity.
  - rewrite (Zdigits2_unique m1 53) by lia.
    replace (Z.max 0 (fexp (53 + (ex + n)) - (ex + n))) with 0 by (unfold fexp, n in *; lia).
    rewrite Z.add_0_r, Z.sub_diag, Z.pow_0_r, Z.div_1_r. reflexivity.
Qed.

Lemma pos_iter_xO m d : Z.pos (Pos.iter xO m d) = Z.pos m * 2 ^ Z.pos d.
Proof.
  induction d as [|d IH] using Pos.peano_ind.
  - simpl. lia.
  - rewrite Pos.iter_succ, Pos2Z.inj_xO, IH, Pos2Z.inj_succ, Z.pow_succ_r by lia. ring.
Qed.

Lemma pack_finite s m e :
  0 < m -> e <= 971 -> pack s (m, e) = S754_finite s (Z.to_pos m) e.
Proof.
  intros Hm He. unfold pack. cbn [fst snd]. destruct m as [|p|p]; try lia.
  change (emax - prec) with 971. destruct (Z.leb_spec e 971); [reflexivity|lia].
Qed.

Lemma pow2_pos k : 0 < 2 ^ k \/ k < 0.
Proof. destruct (Z_lt_le_dec k 0); [right; lia|left; apply Z.pow_pos_nonneg; lia]. Qed.

(** An integer below the overflow threshold converts to a normal double. *)
Lemma of_int_normal z :
  0 < z < 2 ^ 1024 - 2 ^ 970 ->
  exists m e, of_int z = S754_finite false m e /\
              2 ^ 52 <= Z.pos m < 2 ^ 53 /\ Zdigits2 z - 53 <= e <= 971.
Proof.
  intros [Hz Hzu]. destruct z as [|p|p]; try lia.
  unfold of_int, binary_normalize, binary_round. rewrite fexp_eq, Z.add_0_r.
  pose proof (Zdigits2_bounds (Z.pos p) Hz) as Hb.
  change (Z.pos (digits2_pos p)) with (Zdigits2 (Z.pos p)).
  set (d := Zdigits2 (Z.pos p)) in *.
  assert (Hd1 : 1 <= d) by (unfold d; simpl; lia).
  assert (Hd : d <= 1024).
  { apply Zdigits2_le; lia. }
  destruct (Z_le_gt_dec d 53) as [Hs|Hl].
  - (* the integer fits in the mantissa: aligned to 53 bits, exactly *)
    set (m := Z.pos p * 2 ^ (53 - d)).
    assert (Hm : 2 ^ 52 <= m < 2 ^ 53).
    { unfold m.
      assert (E2 : 2 ^ 52 = 2 ^ (d - 1) * 2 ^ (53 - d))
        by (rewrite <- pow2_split by lia; f_equal; lia).
      assert (E3 : 2 ^ 53 = 2 ^ d * 2 ^ (53 - d))
        by (rewrite <- pow2_split by lia; f_equal; lia).
      rewrite E2, E3.
      assert (0 < 2 ^ (53 - d)) by (apply Z.pow_pos_nonneg; lia). nia. }
    assert (Hal : exists mz, shl_align p 0 (fexp d) = (mz, d - 53) /\ Z.pos mz = m).
    { unfold shl_align, fexp. replace (Z.max (d - 53) (-1074) - 0) with (d - 53) by lia.
      destruct (d - 53) as [|q|q] eqn:E; try lia.
      - exists p. split; [reflexivity|]. unfold m. replace (53 - d) with 0 by lia. simpl; lia.
      - exists (Pos.iter xO p q). split; [f_equal; unfold fexp; lia|].
        rewrite pos_iter_xO. unfold m. f_equal. f_equal. lia. }
    destruct Hal as (mz & -> & Hmz).
    rewrite binary_round_aux_exact by lia.
    assert (Hdm : Zdigits2 (Z.pos mz / 1) = 53)
      by (rewrite Z.div_1_r; apply Zdigits2_unique; lia).
    destruct (round_core_normal (Z.pos mz) 1 (d - 53)) as [_ Hrc];
      [lia|lia|rewrite Hdm; lia|rewrite Hdm; lia|].
    rewrite Hrc, Hdm, Z.sub_diag.
    change (2 ^ 0 * 1) with 1. unfold rne. rewrite Z.mod_1_r, Z.div_1_r.
    change (2 * 0 ?= 1) with Lt. cbv iota.
    destruct (Z.eqb_spec (Z.pos mz) (2 ^ 53)); [lia|].
    rewrite pack_finite by lia.
    exists mz, (d - 53 + 0). repeat split; simpl Z.to_pos; lia.
  - (* more than 53 bits: rounded *)
    assert (Hal : shl_align p 0 (fexp d) = (p, 0)).
    { unfold shl_align, fexp. destruct (Z.max (d - 53) (-1074) - 0) eqn:E; try reflexivity; lia. }
    rewrite Hal, binary_round_aux_exact by lia.
    assert (Hdm : Zdigits2 (Z.pos p / 1) = d) by (rewrite Z.div_1_r; reflexivity).
    destruct (round_core_normal (Z.pos p) 1 0) as [Hm1 Hrc];
      [lia|lia|rewrite Hdm; lia|rewrite Hdm; lia|].
    rewrite Hrc. rewrite Hdm, Z.mul_1_r in *.
    set (m1 := rne (Z.pos p) (2 ^ (d - 53))) in *.
    destruct (Z.eqb_spec m1 (2 ^ 53)) as [E|E].
    + (* a carry: the threshold excludes it at the top exponent *)
      assert (d <= 1023).
      { destruct (Z.eq_dec d 1024) as [E4|]; [|lia].
        pose proof (rne_err (Z.pos p) (2 ^ (d - 53)) ltac:(apply Z.pow_pos_nonneg; lia)) as He.
        fold m1 in He. rewrite E, E4 in He.
        change (2 ^ (1024 - 53)) with (2 ^ 971) in He.
        change (2 ^ 53 * 2 ^ 971) with (2 ^ 1024) in He.
        assert (E5 : 2 ^ 971 = 2 * 2 ^ 970) by reflexivity.
        exfalso. lia. }
      rewrite pack_finite by lia.
      exists (Z.to_pos (2 ^ 52)), (0 + (d - 53) + 1). repeat split; simpl Z.to_pos; lia.
    + rewrite pack_finite by lia.
      exists (Z.to_pos m1), (0 + (d - 53)). rewrite Z2Pos.id by lia. repeat split; lia.
Qed.

Lemma new_location_spec d r :
  0 < d -> 0 <= r < d ->
  new_location d r = if r =? 0 then loc_Exact else loc_Inexact (2 * r ?= d).
Proof.
  intros Hd Hr. unfold new_location, new_location_even, new_location_odd.
  destruct (Z.even d) eqn:Ev; destruct (Z.eqb_spec r 0) as [E|E]; try reflexivity.
  f_equal.
  assert (Ho : Z.odd d = true) by (rewrite <- Z.negb_even, Ev; reflexivity).
  apply Z.odd_spec in Ho. destruct Ho as [k Hk].
  destruct (Z.compare_spec (2 * r + 1) d); destruct (Z.compare_spec (2 * r) d);
    try reflexivity; lia.
Qed.

Lemma div_core_spec m1 e1 m2 e2 :
  0 < m1 -> 0 < m2 ->
  SFdiv_core_binary prec emax m1 e1 m2 e2 =
  (div_num m1 e1 m2 e2 / m2, div_exp m1 e1 m2 e2, loc_of (div_num m1 e1 m2 e2) m2).
Proof.
  intros H1 H2. unfold SFdiv_core_binary. rewrite fexp_eq.
  fold (div_exp m1 e1 m2 e2). unfold div_num.
  set (e' := div_exp m1 e1 m2 e2).
  assert (Hs : 0 <= e1 - e2 - e') by (unfold e', div_exp; lia).
  set (s := e1 - e2 - e') in *.
  assert (Hm' : match s with Z.pos _ => Z.shiftl m1 s | 0 => m1 | Z.neg _ => 0 end
                = m1 * 2 ^ s).
  { clearbody s. destruct s as [|q|q]; try lia.
    apply Z.shiftl_mul_pow2. lia. }
  rewrite Hm'. set (a := m1 * 2 ^ s).
  assert (Ha : 0 <= a) by (unfold a; apply Z.mul_nonneg_nonneg; [lia|apply Z.pow_nonneg; lia]).
  pose proof (Z.mod_pos_bound a m2 H2) as Hr.
  unfold loc_of. rewrite <- new_location_spec by assumption.
  unfold Z.div, Z.modulo. destruct (Z.div_eucl a m2). reflexivity.
Qed.

Lemma div_num_nonneg m1 e1 m2 e2 : 0 < m1 -> 0 <= div_num m1 e1 m2 e2.
Proof.
  intros. unfold div_num. apply Z.mul_nonneg_nonneg; [lia|].
  destruct (pow2_pos (e1 - e2 - div_exp m1 e1 m2 e2)); [lia|].
  rewrite Z.pow_neg_r by assumption. lia.
Qed.

Lemma div_finite_spec sx mx ex sy my ey :
  B64.div (S754_finite sx mx ex) (S754_finite sy my ey) =
  pack (xorb sx sy)
       (round_core (div_num (Z.pos mx) ex (Z.pos my) ey) (Z.pos my)
                   (div_exp (Z.pos mx) ex (Z.pos my) ey)).
Proof.
  unfold B64.div, SFdiv. rewrite div_core_spec by lia.
  apply binary_round_aux_spec; [apply div_num_nonneg|]; lia.
Qed.

Lemma of_ratio_spec s n d :
  0 < n -> 0 < d ->
  of_ratio s n d = pack s (round_core (div_num n 0 d 0) d (div_exp n 0 d 0)).
Proof.
  intros Hn Hd. unfold of_ratio. rewrite div_core_spec by lia.
  apply binary_round_aux_spec; [apply div_num_nonneg|]; lia.
Qed.

Lemma mul_finite_spec sx mx ex sy my ey :
  B64.mul (S754_finite sx mx ex) (S754_finite sy my ey) =
  pack (xorb sx sy) (round_core (Z.pos mx * Z.pos my) 1 (ex + ey)).
Proof.
  unfold B64.mul, SFmul. rewrite Pos2Z.inj_mul. apply binary_round_aux_exact. lia.
Qed.

(** Dividing a normal double by a power of two only moves the exponent. *)
Lemma div_pow2_normal sx m e sy my j :
  2 ^ 52 <= Z.pos m < 2 ^ 53 -> Z.pos my = 2 ^ 52 ->
  -1073 <= e - j <= 971 ->
  B64.div (S754_finite sx m e) (S754_finite sy my (j - 52)) = S754_finite (xorb sx sy) m (e - j).
Proof.
  intros Hm Hy He. rewrite div_finite_spec.
  assert (Hde : div_exp (Z.pos m) e (Z.pos my) (j - 52) = e - j - 1).
  { unfold div_exp. rewrite (Zdigits2_unique (Z.pos m) 53), (Zdigits2_unique (Z.pos my) 53) by lia.
    unfold fexp. lia. }
  unfold div_num. rewrite Hde.
  replace (e - (j - 52) - (e - j - 1)) with 53 by lia.
  assert (Hq : Z.pos m * 2 ^ 53 / Z.pos my = 2 * Z.pos m).
  { rewrite Hy. change (2 ^ 53) with (2 * 2 ^ 52). rewrite Z.mul_assoc, Z.div_mul by lia. lia. }
  assert (Hdq : Zdigits2 (Z.pos m * 2 ^ 53 / Z.pos my) = 54).
  { rewrite Hq. apply Zdigits2_unique; lia. }
  destruct (round_core_normal (Z.pos m * 2 ^ 53) (Z.pos my) (e - j - 1)) as [_ Hrc];
    [lia|lia|rewrite Hdq; lia|rewrite Hdq; lia|].
  rewrite Hrc, Hdq, Hy. change (2 ^ (54 - 53) * 2 ^ 52) with (2 ^ 53).
  rewrite rne_mul by lia.
  destruct (Z.eqb_spec (Z.pos m) (2 ^ 53)); [lia|].
  rewrite pack_finite by lia. simpl Z.to_pos. f_equal. lia.
Qed.

Lemma pack_leb mm e1 e2 :
  0 < mm -> e1 <= e2 -> B64.leb (pack false (mm, e1)) (pack false (mm, e2)) = true.
Proof.
  intros Hm He. unfold pack. cbn [fst snd]. destruct mm as [|q|q]; try lia.
  change (emax - prec) with 971.
  destruct (Z.leb_spec e1 971), (Z.leb_spec e2 971); try lia; try reflexivity.
  unfold B64.leb, SFleb, SFcompare.
  destruct (Z.compare_spec e1 e2); try lia; try reflexivity.
  rewrite Pos.compare_cont_refl. reflexivity.
Qed.

Lemma pack_nonneg mm e : 0 < mm -> B64.leb (S754_zero false) (pack false (mm, e)) = true.
Proof.
  intros Hm. unfold pack. cbn [fst snd]. destruct mm as [|q|q]; try lia.
  destruct (e <=? emax - prec); reflexivity.
Qed.

(** Multiplying by the literal [1.2]: one mantissa for all exponents. *)
Lemma mul_lit_shape m :
  2 ^ 52 <= Z.pos m < 2 ^ 53 ->
  exists mm dd, 0 < mm /\
    forall e, -1000 <= e -> B64.mul (S754_finite false m e) lit_1_2 = pack false (mm, e + dd).
Proof.
  intros Hm.
  change lit_1_2 with (S754_finite false 5404319552844595 (-52)).
  set (a := Z.pos m * 5404319552844595).
  assert (Ha : 2 ^ 104 <= a < 2 ^ 106).
  { unfold a. change (2 ^ 104) with (2 ^ 52 * 2 ^ 52). change (2 ^ 106) with (2 ^ 53 * 2 ^ 53). nia. }
  assert (Hd : 105 <= Zdigits2 (a / 1) <= 106).
  { rewrite Z.div_1_r. split.
    - pose proof (Zdigits2_bounds a ltac:(lia)) as [_ Hu].
      destruct (Z_lt_le_dec (Zdigits2 a) 105); [|lia].
      assert (2 ^ Zdigits2 a <= 2 ^ 104) by (apply Z.pow_le_mono_r; lia). lia.
    - apply Zdigits2_le; lia. }
  set (n := Zdigits2 (a / 1) - 53) in *.
  set (m1 := rne a (2 ^ n * 1)).
  exists (if m1 =? 2 ^ 53 then 2 ^ 52 else m1), (if m1 =? 2 ^ 53 then -52 + n + 1 else -52 + n).
  assert (Hm1 : 2 ^ 52 <= m1 <= 2 ^ 53).
  { destruct (round_core_normal a 1 0) as [H _]; try lia. exact H. }
  split; [destruct (m1 =? 2 ^ 53); lia|].
  intros e He. rewrite mul_finite_spec. cbn [xorb]. fold a.
  destruct (round_core_normal a 1 (e + -52)) as [_ Hrc]; try lia.
  rewrite Hrc. fold n. fold m1.
  destruct (m1 =? 2 ^ 53); f_equal; f_equal; lia.
Qed.

Lemma truediv_32 prec :
  truediv (NInt 32) (Precision_num prec)
  = Ok (B64.div (B64.of_int 32) (B64.of_int (Precision_value prec))).
Proof. destruct prec; vm_compute; reflexivity. Qed.

Lemma calculate_memory_eq p prec :
  0 <= p -> p * 4 < 2 ^ 1024 - 2 ^ 970 ->
  calculate_memory p (Precision_num prec) = Ok (spec_estimateMemoryBytes p prec).
Proof.
  intros Hp Hu. unfold calculate_memory, spec_estimateMemoryBytes.
  rewrite truediv_32. cbn [mbind result_bind truediv].
  assert (Hx : int_to_float (p * 4) = Ok (B64.of_int (p * 4))).
  { unfold int_to_float. destruct (Z.eq_dec p 0) as [->|Hne]; [reflexivity|].
    destruct (of_int_normal (p * 4)) as (m & e & -> & _); [lia|reflexivity]. }
  rewrite Hx. cbn [mbind result_bind].
  assert (Hb : B64.is_zero (B64.div (B64.of_int 32) (B64.of_int (Precision_value prec))) = false)
    by (destruct prec; vm_compute; reflexivity).
  unfold float_truediv. rewrite Hb. reflexivity.
Qed.

Lemma estimate_shape p :
  0 < p -> p * 4 < 2 ^ 1024 - 2 ^ 970 ->
  exists mm E, 0 < mm /\
    forall prec, spec_estimateMemoryBytes p prec = pack false (mm, E - halvings prec).
Proof.
  intros Hp Hu.
  destruct (of_int_normal (p * 4)) as (m & e & Hx & Hm & He); [lia|].
  assert (Hd : 3 <= Zdigits2 (p * 4)).
  { pose proof (Zdigits2_bounds (p * 4) ltac:(lia)) as [_ Hb].
    destruct (Z_lt_le_dec (Zdigits2 (p * 4)) 3); [|lia].
    assert (2 ^ Zdigits2 (p * 4) <= 2 ^ 2)
      by (apply Z.pow_le_mono_r; pose proof (Zdigits2_nonneg (p * 4)); lia).
    change (2 ^ 2) with 4 in *. lia. }
  destruct (mul_lit_shape m Hm) as (mm & dd & Hmm & Hmul).
  exists mm, (e + dd). split; [assumption|].
  intros prec. unfold spec_estimateMemoryBytes. rewrite Hx.
  assert (Hb : B64.div (B64.of_int 32) (B64.of_int (Precision_value prec))
               = S754_finite false 4503599627370496 (halvings prec - 52))
    by (destruct prec; vm_compute; reflexivity).
  rewrite Hb, div_pow2_normal; [|assumption|reflexivity|destruct prec; simpl halvings; lia].
  cbn [xorb]. rewrite Hmul by (destruct prec; simpl halvings; lia).
  f_equal. f_equal. lia.
Qed.

(** *** Structure of valid doubles *)

Lemma valid_finite_inv s m e :
  B64.valid (S754_finite s m e) = true ->
  -1074 <= e <= 971 /\ Zdigits2 (Z.pos m) <= 53 /\
  (-1074 < e -> 2 ^ 52 <= Z.pos m < 2 ^ 53).
Proof.
  unfold B64.valid, valid_binary, bounded, canonical_mantissa. rewrite fexp_eq.
  change (Z.pos (digits2_pos m)) with (Zdigits2 (Z.pos m)).
  change (emax - prec) with 971.
  intros H. apply andb_true_iff in H as [H1 H2].
  apply Z.eqb_eq in H1. apply Z.leb_le in H2. unfold fexp in H1.
  split; [lia|split; [lia|intros Hgt]].
  assert (Zdigits2 (Z.pos m) = 53) as Hd by lia.
  pose proof (Zdigits2_bounds (Z.pos m) ltac:(lia)) as Hb. rewrite Hd in Hb.
  change (2 ^ (53 - 1)) with (2 ^ 52) in Hb. lia.
Qed.

Lemma pack_small_lt_one s m2 e2 :
  e2 < -52 -> B64.leb (S754_finite false 4503599627370496 (-52)) (pack s (m2, e2)) = false.
Proof.
  intros He. unfold pack. cbn [fst snd]. destruct m2 as [|q|q]; try (destruct s; reflexivity).
  change (emax - prec) with 971. destruct (Z.leb_spec e2 971); [|lia].
  unfold B64.leb, SFleb, SFcompare. destruct s; [reflexivity|].
  destruct (Z.compare_spec (-52) e2); try lia; reflexivity.
Qed.

Lemma pack_neg_lt_one me :
  B64.leb (S754_finite false 4503599627370496 (-52)) (pack true me) = false.
Proof.
  unfold pack. destruct (fst me); try reflexivity.
  destruct (snd me <=? emax - prec); reflexivity.
Qed.

(** A tiny double divided by [2^30] stays tiny. *)
Lemma div_tiny m e :
  B64.valid (S754_finite false m e) = true -> e <= -1044 ->
  exists m2 e2, e2 <= -1073 /\
    B64.div (S754_finite false m e) (S754_finite false 4503599627370496 (-22))
    = pack false (m2, e2).
Proof.
  intros Hv He. apply valid_finite_inv in Hv as (Hr & Hd & _).
  rewrite div_finite_spec. cbn [xorb].
  set (b := Z.pos 4503599627370496).
  assert (Hex : div_exp (Z.pos m) e b (-22) = -1074).
  { unfold div_exp, b. change (Zdigits2 (Z.pos 4503599627370496)) with 53.
    unfold fexp. pose proof (Zdigits2_nonneg (Z.pos m)). lia. }
  rewrite Hex. unfold div_num. rewrite Hex.
  set (s := e - -22 - -1074). assert (Hs : 0 <= s <= 52) by (unfold s; lia).
  set (a := Z.pos m * 2 ^ s).
  assert (Hq : 0 <= a / b < 2 ^ 53).
  { assert (Z.pos m < 2 ^ 53).
    { pose proof (Zdigits2_bounds (Z.pos m) ltac:(lia)) as [_ Hu].
      assert (2 ^ Zdigits2 (Z.pos m) <= 2 ^ 53) by (apply Z.pow_le_mono_r; lia). lia. }
    assert (0 < 2 ^ s <= 2 ^ 52).
    { split; [apply Z.pow_pos_nonneg; lia|apply Z.pow_le_mono_r; lia]. }
    split; [apply Z.div_pos; unfold a, b; nia|].
    apply Z.div_lt_upper_bound; unfold a, b; [lia|].
    change (Z.pos 4503599627370496) with (2 ^ 52). nia. }
  unfold round_core.
  assert (Hdq : Zdigits2 (a / b) <= 53) by (apply Zdigits2_le; lia).
  pose proof (Zdigits2_nonneg (a / b)) as Hdq0.
  replace (-1074 + Z.max 0 (fexp (Zdigits2 (a / b) + -1074) - -1074)) with (-1074)
    by (unfold fexp; lia).
  replace (-1074 - -1074) with 0 by lia. change (2 ^ 0 * b) with b.
  set (m1 := rne a b).
  assert (Hm1 : 0 <= m1 <= 2 ^ 53) by (unfold m1; destruct (rne_cases a b) as [-> | ->]; lia).
  assert (Hd1 : 0 <= Zdigits2 m1 <= 54).
  { split; [apply Zdigits2_nonneg|]. apply Zdigits2_le; lia. }
  eexists _, _. split; [|reflexivity]. unfold fexp. lia.
Qed.

Lemma ge_one_iff_ge_gib x :
  B64.valid x = true ->
  B64.leb (B64.of_int 1) (B64.div x (B64.of_int (1024 ^ 3)))
  = B64.leb (B64.of_int (1024 ^ 3)) x.
Proof.
  intros Hv.
  change (B64.of_int 1) with (S754_finite false 4503599627370496 (-52)).
  change (B64.of_int (1024 ^ 3)) with (S754_finite false 4503599627370496 (-22)).
  destruct x as [s|s| |s m e]; try (destruct s; reflexivity); try reflexivity.
  destruct s.
  - rewrite div_finite_spec. cbn [xorb]. rewrite pack_neg_lt_one. reflexivity.
  - destruct (Z_le_gt_dec e (-1044)) as [Ht|Hn].
    + destruct (div_tiny m e Hv Ht) as (m2 & e2 & He2 & ->).
      rewrite pack_small_lt_one by lia.
      unfold B64.leb, SFleb, SFcompare. destruct (Z.compare_spec (-22) e); try lia; reflexivity.
    + pose proof (valid_finite_inv _ _ _ Hv) as (Hr & _ & Hm).
      specialize (Hm ltac:(lia)).
      replace (-22) with (30 - 52) at 1 by lia.
      rewrite div_pow2_normal by (try reflexivity; lia). cbn [xorb].
      unfold B64.leb, SFleb, SFcompare.
      destruct (Z.compare_spec (-52) (e - 30)), (Z.compare_spec (-22) e); try lia; reflexivity.
Qed.

(** *** Values of doubles, in units of [2^-1074] *)

Lemma P_pos : 0 < P.
Proof. reflexivity. Qed.

Lemma pow2_gt0 k : 0 <= k -> 0 < 2 ^ k.
Proof. intros. apply Z.pow_pos_nonneg; lia. Qed.

Lemma pow2_le a b : a <= b -> 0 <= a -> 2 ^ a <= 2 ^ b.
Proof. intros. apply Z.pow_le_mono_r; lia. Qed.

Lemma pow2_lt_inv a b : 0 <= a -> 0 <= b -> 2 ^ a < 2 ^ b -> a < b.
Proof. intros Ha Hb H. apply (Z.pow_lt_mono_r_iff 2); lia. Qed.

Lemma B2S_nonneg x : nonneg x = true -> 0 <= B2S x.
Proof.
  destruct x as [| | |[] m e]; simpl; try lia; discriminate.
Qed.

Lemma leb_B2S x y :
  B64.valid x = true -> B64.valid y = true -> nonneg x = true -> nonneg y = true ->
  B64.leb x y = (B2S x <=? B2S y).
Proof.
  intros Vx Vy Nx Ny.
  destruct x as [sx| | |[] mx ex]; try discriminate;
    destruct y as [sy| | |[] my ey]; try discriminate.
  - reflexivity.
  - apply valid_finite_inv in Vy as (Hr & _ & _).
    unfold B64.leb, SFleb, SFcompare, B2S, signed. symmetry. apply Z.leb_le.
    pose proof (pow2_gt0 (ey + 1074) ltac:(lia)). lia.
  - apply valid_finite_inv in Vx as (Hr & _ & _).
    unfold B64.leb, SFleb, SFcompare, B2S, signed. symmetry. apply Z.leb_gt.
    pose proof (pow2_gt0 (ex + 1074) ltac:(lia)). lia.
  - apply valid_finite_inv in Vx as (Hrx & Hdx & Hnx).
    apply valid_finite_inv in Vy as (Hry & Hdy & Hny).
    assert (Hux : Z.pos mx < 2 ^ 53).
    { pose proof (Zdigits2_bounds (Z.pos mx) ltac:(lia)) as [_ Hu].
      pose proof (pow2_le (Zdigits2 (Z.pos mx)) 53 Hdx (Zdigits2_nonneg _)). lia. }
    assert (Huy : Z.pos my < 2 ^ 53).
    { pose proof (Zdigits2_bounds (Z.pos my) ltac:(lia)) as [_ Hu].
      pose proof (pow2_le (Zdigits2 (Z.pos my)) 53 Hdy (Zdigits2_nonneg _)). lia. }
    unfold B64.leb, SFleb, SFcompare, B2S, signed.
    pose proof (pow2_gt0 (ex + 1074) ltac:(lia)) as Hpx.
    pose proof (pow2_gt0 (ey + 1074) ltac:(lia)) as Hpy.
    destruct (Z.compare_spec ex ey) as [E|E|E].
    + subst ey. rewrite Pos.compare_cont_spec. simpl Pos.switch_Eq.
      change (Pos.compare mx my) with (Z.compare (Z.pos mx) (Z.pos my)).
      destruct (Z.compare_spec (Z.pos mx) (Z.pos my)) as [E|E|E]; symmetry.
      * apply Z.leb_le. rewrite E. lia.
      * apply Z.leb_le. nia.
      * apply Z.leb_gt. nia.
    + symmetry. apply Z.leb_le. specialize (Hny ltac:(lia)).
      pose proof (pow2_le (ex + 1074 + 1) (ey + 1074) ltac:(lia) ltac:(lia)) as Hle.
      rewrite pow2_split in Hle by lia. change (2 ^ 1) with 2 in Hle.
      change (2 ^ 53) with (2 * 2 ^ 52) in Hux. nia.
    + symmetry. apply Z.leb_gt. specialize (Hnx ltac:(lia)).
      pose proof (pow2_le (ey + 1074 + 1) (ex + 1074) ltac:(lia) ltac:(lia)) as Hle.
      rewrite pow2_split in Hle by lia. change (2 ^ 1) with 2 in Hle.
      change (2 ^ 53) with (2 * 2 ^ 52) in Huy. nia.
Qed.

Lemma rne_scale a b c : 0 < b -> 0 < c -> rne (a * c) (b * c) = rne a b.
Proof.
  intros Hb Hc. unfold rne.
  rewrite Z.div_mul_cancel_r, Z.mul_mod_distr_r by lia.
  assert (E : (2 * (a mod b * c) ?= b * c) = (2 * (a mod b) ?= b)).
  { destruct (Z.compare_spec (2 * (a mod b)) b);
      [apply Z.compare_eq_iff|apply Z.compare_lt_iff|apply Z.compare_gt_iff]; nia. }
  rewrite E. reflexivity.
Qed.

Lemma rne_mono a a' b : 0 < b -> a <= a' -> rne a b <= rne a' b.
Proof.
  intros Hb Ha.
  pose proof (Z.div_le_mono a a' b Hb Ha) as Hq.
  destruct (Z.eq_dec (a / b) (a' / b)) as [E|E].
  - pose proof (Z.div_mod a b ltac:(lia)) as E1.
    pose proof (Z.div_mod a' b ltac:(lia)) as E2.
    unfold rne. rewrite <- E.
    destruct (Z.compare_spec (2 * (a mod b)) b), (Z.compare_spec (2 * (a' mod b)) b);
      destruct (Z.even (a / b)); nia.
  - destruct (rne_cases a b) as [-> | ->], (rne_cases a' b) as [-> | ->]; lia.
Qed.

Lemma round_core_char s a b ex S :
  0 <= a -> 0 < b -> 0 <= ex + 1074 <= S ->
  b * 2 ^ (S + 52) <= a * 2 ^ (ex + 1074) < b * 2 ^ (S + 53) ->
  2 ^ 52 <= rne (a * 2 ^ (ex + 1074)) (b * 2 ^ S) <= 2 ^ 53 /\
  pack s (round_core a b ex) = pack_norm s (rne (a * 2 ^ (ex + 1074)) (b * 2 ^ S)) S.
Proof.
  intros Ha Hb Hk [Hl Hu].
  set (k := ex + 1074) in *.
  pose proof (pow2_gt0 k ltac:(lia)) as Hpk.
  pose proof (pow2_gt0 (S - k) ltac:(lia)) as Hpd.
  assert (E52 : 2 ^ (S + 52) = 2 ^ (S - k + 52) * 2 ^ k)
    by (rewrite <- pow2_split by lia; f_equal; lia).
  assert (E53 : 2 ^ (S + 53) = 2 ^ (S - k + 53) * 2 ^ k)
    by (rewrite <- pow2_split by lia; f_equal; lia).
  assert (ES : 2 ^ S = 2 ^ (S - k) * 2 ^ k)
    by (rewrite <- pow2_split by lia; f_equal; lia).
  assert (Hq : 2 ^ (S - k + 52) <= a / b < 2 ^ (S - k + 53)).
  { split.
    - apply Z.div_le_lower_bound; [lia|]. nia.
    - apply Z.div_lt_upper_bound; [lia|]. nia. }
  assert (Hdq : Zdigits2 (a / b) = S - k + 53).
  { apply Zdigits2_unique; [|lia].
    replace (S - k + 53 - 1) with (S - k + 52) by lia. assumption. }
  destruct (round_core_normal a b ex) as [Hm1 Hrc]; try (rewrite ?Hdq; unfold k in *; lia).
  rewrite Hdq in Hm1, Hrc.
  replace (S - k + 53 - 53) with (S - k) in * by lia.
  assert (Er : rne (a * 2 ^ k) (b * 2 ^ S) = rne a (2 ^ (S - k) * b)).
  { rewrite ES, Z.mul_assoc, (Z.mul_comm b). apply rne_scale; lia. }
  rewrite Er. split; [assumption|].
  unfold pack_norm. rewrite Hrc.
  replace (ex + (S - k)) with (S - 1074) by (unfold k; lia). reflexivity.
Qed.

Lemma pack_norm_finite m1 S :
  2 ^ 52 <= m1 <= 2 ^ 53 -> 0 <= S -> m1 * 2 ^ S < 2 ^ 2098 ->
  exists m e, pack_norm false m1 S = S754_finite false m e /\
              B64.valid (S754_finite false m e) = true /\
              B2S (S754_finite false m e) = m1 * 2 ^ S.
Proof.
  intros Hm HS Hlt. unfold pack_norm.
  pose proof (pow2_gt0 S HS) as HpS.
  assert (Hv : forall m e, 2 ^ 52 <= Z.pos m < 2 ^ 53 -> -1074 <= e <= 971 ->
                           B64.valid (S754_finite false m e) = true).
  { intros m e Hmm He. unfold B64.valid, valid_binary, bounded, canonical_mantissa.
    rewrite fexp_eq. change (Z.pos (digits2_pos m)) with (Zdigits2 (Z.pos m)).
    rewrite (Zdigits2_unique (Z.pos m) 53) by lia.
    change (emax - prec) with 971. apply andb_true_iff. split.
    - apply Z.eqb_eq. unfold fexp. lia.
    - apply Z.leb_le. lia. }
  destruct (Z.eqb_spec m1 (2 ^ 53)) as [E|E].
  - assert (S < 2045).
    { enough (53 + S < 2098) by lia.
      apply (pow2_lt_inv (53 + S) 2098); try lia. rewrite pow2_split by lia. lia. }
    rewrite pack_finite by lia.
    eexists _, _. split; [reflexivity|]. split.
    + apply Hv; simpl; lia.
    + unfold B2S, signed. change (Z.pos (Z.to_pos (2 ^ 52))) with (2 ^ 52).
      replace (S - 1074 + 1 + 1074) with (S + 1) by lia.
      rewrite pow2_split, E by lia. change (2 ^ 53) with (2 ^ 52 * 2 ^ 1). ring.
  - assert (S < 2046).
    { enough (52 + S < 2098) by lia.
      apply (pow2_lt_inv (52 + S) 2098); try lia. rewrite pow2_split by lia. nia. }
    rewrite pack_finite by lia.
    eexists _, _. split; [reflexivity|]. split.
    + apply Hv; rewrite ?Z2Pos.id; lia.
    + unfold B2S, signed. rewrite Z2Pos.id by lia. f_equal. f_equal. lia.
Qed.

Lemma pack_norm_overflow s m1 S :
  2 ^ 52 <= m1 <= 2 ^ 53 -> 0 <= S -> 2 ^ 2098 <= m1 * 2 ^ S ->
  pack_norm s m1 S = S754_infinity s.
Proof.
  intros Hm HS Hge. unfold pack_norm, pack.
  pose proof (pow2_gt0 S HS) as HpS.
  change (emax - prec) with 971.
  destruct (Z.eqb_spec m1 (2 ^ 53)) as [E|E]; cbn [fst snd].
  - assert (2045 <= S).
    { destruct (Z_lt_le_dec S 2045) as [Hc|]; [|lia].
      pose proof (pow2_le (53 + S) 2097 ltac:(lia) ltac:(lia)) as Hle.
      rewrite pow2_split in Hle by lia. rewrite E in Hge.
      change (2 ^ 2098) with (2 * 2 ^ 2097) in Hge.
      pose proof (pow2_gt0 2097 ltac:(lia)). lia. }
    change (2 ^ 52) with (Z.pos 4503599627370496).
    destruct (Z.leb_spec (S - 1074 + 1) 971); [lia|reflexivity].
  - assert (2046 <= S).
    { destruct (Z_lt_le_dec S 2046) as [Hc|]; [|lia].
      pose proof (pow2_le (53 + S) 2098 ltac:(lia) ltac:(lia)) as Hle.
      rewrite pow2_split in Hle by lia. nia. }
    destruct m1 as [|q|q]; try lia.
    destruct (Z.leb_spec (S - 1074) 971); [lia|reflexivity].
Qed.

(** The double nearest to [n / d], for a quotient in the normal range:
    [S + 52] is the position of its leading bit, in units of [2^-1074]. *)
Lemma of_ratio_char s n d S :
  0 < n -> 0 < d -> 0 <= S ->
  d * 2 ^ (S + 52) <= n * P < d * 2 ^ (S + 53) ->
  2 ^ 52 <= rne (n * P) (d * 2 ^ S) <= 2 ^ 53 /\
  of_ratio s n d = pack_norm s (rne (n * P) (d * 2 ^ S)) S.
Proof.
  intros Hn Hd HS [Hl Hu]. rewrite of_ratio_spec by assumption.
  set (ex := div_exp n 0 d 0).
  pose proof (Zdigits2_bounds n Hn) as [Hn1 Hn2].
  pose proof (Zdigits2_bounds d Hd) as [Hd1 Hd2].
  assert (Hdn : 1 <= Zdigits2 n) by (destruct n; simpl; lia).
  assert (Hdd : 1 <= Zdigits2 d) by (destruct d; simpl; lia).
  assert (Hex : -1074 <= ex <= 0).
  { unfold ex, div_exp, fexp. clear. lia. }
  assert (HexS : ex + 1074 <= S).
  { destruct (Z_le_gt_dec (ex + 1074) S) as [|Hc]; [assumption|exfalso].
    assert (Hex2 : ex <= Zdigits2 n - Zdigits2 d - 53).
    { clear - Hc HS. unfold ex, div_exp, fexp in *. lia. }
    (* 2^(d1 - 1 + 1074) <= n P < d * 2^(S+53) < 2^(d2 + S + 53) *)
    assert (H1 : 2 ^ (Zdigits2 n - 1 + 1074) <= n * P).
    { rewrite pow2_split by lia. unfold P. pose proof (pow2_gt0 1074 ltac:(lia)). nia. }
    assert (H2 : d * 2 ^ (S + 53) < 2 ^ (Zdigits2 d + (S + 53))).
    { rewrite (pow2_split (Zdigits2 d) (S + 53)) by lia.
      apply Z.mul_lt_mono_pos_r; [apply pow2_gt0; lia|assumption]. }
    assert (Zdigits2 n - 1 + 1074 < Zdigits2 d + (S + 53))
      by (apply pow2_lt_inv; lia).
    lia. }
  assert (Ea : div_num n 0 d 0 * 2 ^ (ex + 1074) = n * P).
  { unfold div_num. fold ex. rewrite <- Z.mul_assoc, <- pow2_split by lia.
    unfold P. f_equal. f_equal. lia. }
  destruct (round_core_char s (div_num n 0 d 0) d ex S) as [Hb Hp];
    [apply div_num_nonneg; assumption|lia|lia|rewrite Ea; lia|].
  rewrite Ea in Hb, Hp. split; assumption.
Qed.

(** The product of two positive doubles, in the normal range. *)
Lemma mul_char mx ex my ey S :
  0 <= ex + ey + 1074 <= S ->
  2 ^ (S + 52) <= Z.pos mx * Z.pos my * 2 ^ (ex + ey + 1074) < 2 ^ (S + 53) ->
  2 ^ 52 <= rne (Z.pos mx * Z.pos my * 2 ^ (ex + ey + 1074)) (2 ^ S) <= 2 ^ 53 /\
  B64.mul (S754_finite false mx ex) (S754_finite false my ey)
  = pack_norm false (rne (Z.pos mx * Z.pos my * 2 ^ (ex + ey + 1074)) (2 ^ S)) S.
Proof.
  intros Hk Hb. rewrite mul_finite_spec. cbn [xorb].
  destruct (round_core_char false (Z.pos mx * Z.pos my) 1 (ex + ey) S) as [H1 H2];
    rewrite ?Z.mul_1_l; try lia.
  rewrite Z.mul_1_l in H1, H2. split; assumption.
Qed.

Lemma ceil_div_mul a b c : 0 < c -> 0 < b -> ceil_div (a * c) (b * c) = ceil_div a b.
Proof.
  intros Hc Hb. unfold ceil_div.
  rewrite <- Z.mul_opp_l, Z.div_mul_cancel_r by lia. reflexivity.
Qed.

Lemma ceil_div_exact a b : 0 < b -> ceil_div (a * b) b = a.
Proof.
  intros Hb. unfold ceil_div. rewrite <- Z.mul_opp_l, Z.div_mul by lia. lia.
Qed.

Lemma ceil_div_mono a a' b : 0 < b -> a <= a' -> ceil_div a b <= ceil_div a' b.
Proof.
  intros Hb Ha. unfold ceil_div.
  pose proof (Z.div_le_mono (- a') (- a) b Hb ltac:(lia)). lia.
Qed.

(** Equal fractions have equal ceilings. *)
Lemma ceil_div_cross a b c d :
  0 < b -> 0 < d -> a * d = c * b -> ceil_div a b = ceil_div c d.
Proof.
  intros Hb Hd E.
  rewrite <- (ceil_div_mul a b d), <- (ceil_div_mul c d b) by assumption.
  rewrite E, (Z.mul_comm b d). reflexivity.
Qed.

Lemma ceil_B2S m e :
  -1074 <= e -> B64.ceil (S754_finite false m e)
                = Some (ceil_div (B2S (S754_finite false m e)) P).
Proof.
  intros He. unfold B64.ceil, B2S, signed. f_equal.
  destruct (Z.leb_spec 0 e) as [H|H].
  - rewrite pow2_split by lia. fold P. rewrite Z.mul_assoc, ceil_div_exact by apply P_pos.
    reflexivity.
  - assert (EP : P = 2 ^ (- e) * 2 ^ (e + 1074)).
    { unfold P. rewrite <- pow2_split by lia. f_equal. lia. }
    rewrite EP, ceil_div_mul by (apply pow2_gt0; lia). reflexivity.
Qed.

Lemma trunc_B2S m e :
  -1074 <= e -> B64.trunc (S754_finite false m e)
                = Some (B2S (S754_finite false m e) / P).
Proof.
  intros He. unfold B64.trunc, B2S, signed. f_equal.
  destruct (Z.leb_spec 0 e) as [H|H].
  - rewrite pow2_split by lia. fold P. rewrite Z.mul_assoc, Z.div_mul by (unfold P; lia).
    reflexivity.
  - assert (EP : P = 2 ^ (- e) * 2 ^ (e + 1074)).
    { unfold P. rewrite <- pow2_split by lia. f_equal. lia. }
    rewrite EP, Z.div_mul_cancel_r by (pose proof (pow2_gt0 (-e)); pose proof (pow2_gt0 (e + 1074)); lia).
    rewrite Z.quot_div_nonneg by (pose proof (pow2_gt0 (-e)); lia). reflexivity.
Qed.

Lemma Precision_value_pow2 prec : Precision_value prec = 2 ^ (5 - halvings prec).
Proof. destruct prec; reflexivity. Qed.

Lemma halvings_range prec : 0 <= halvings prec <= 3.
Proof. destruct prec; simpl; lia. Qed.

Lemma est_binade f prec :
  0 < f ->
  Precision_value prec * 2 ^ (est_scale f prec + 52) <= f * 8 * P
  < Precision_value prec * 2 ^ (est_scale f prec + 53).
Proof.
  intros Hf. pose proof (Zdigits2_bounds f Hf) as [Hl Hu].
  pose proof (halvings_range prec) as Hh.
  assert (Hd : 1 <= Zdigits2 f) by (destruct f; simpl; lia).
  rewrite Precision_value_pow2. unfold est_scale.
  rewrite <- !pow2_split by lia.
  replace (5 - halvings prec + (Zdigits2 f + 1019 + halvings prec + 52))
    with (Zdigits2 f - 1 + 1077) by lia.
  replace (5 - halvings prec + (Zdigits2 f + 1019 + halvings prec + 53))
    with (Zdigits2 f + 1077) by lia.
  rewrite !pow2_split by lia.
  replace (f * 8 * P) with (f * 2 ^ 1077) by (unfold P; change (2 ^ 1077) with (8 * 2 ^ 1074); ring).
  pose proof (pow2_gt0 1077 ltac:(lia)). nia.
Qed.

Lemma estimate_parameters_char f prec :
  0 < f ->
  estimate_parameters f (Precision_num prec) =
  if est_value f prec <? 2 ^ 2098 then Ok (ceil_div (est_value f prec) P)
  else Raise OverflowError.
Proof.
  intros Hf. pose proof (halvings_range prec) as Hh.
  assert (Hv : 0 < Precision_value prec) by (destruct prec; simpl; lia).
  assert (HS : 0 <= est_scale f prec)
    by (unfold est_scale; pose proof (Zdigits2_nonneg f); lia).
  unfold estimate_parameters, Precision_num, truediv, int_truediv.
  destruct (Z.eqb_spec (Precision_value prec) 0); [lia|].
  destruct (Z.eqb_spec (f * 8) 0); [lia|].
  destruct (Z.ltb_spec (f * 8) 0); [lia|].
  destruct (Z.ltb_spec (Precision_value prec) 0); [lia|].
  cbn [xorb]. rewrite !Z.abs_eq by lia.
  destruct (of_ratio_char false (f * 8) (Precision_value prec) (est_scale f prec))
    as [Hm ->]; try lia.
  { apply est_binade. assumption. }
  fold (est_value f prec) in *.
  set (m1 := rne (f * 8 * P) (Precision_value prec * 2 ^ est_scale f prec)) in *.
  assert (ER : est_value f prec = m1 * 2 ^ est_scale f prec) by reflexivity.
  destruct (Z.ltb_spec (est_value f prec) (2 ^ 2098)) as [Hlt|Hge].
  - destruct (pack_norm_finite m1 (est_scale f prec)) as (m & e & -> & Hval & HB); try lia.
    cbn [mbind result_bind]. unfold math_ceil.
    apply valid_finite_inv in Hval as (Hr & _).
    rewrite ceil_B2S, HB by lia. rewrite ER. reflexivity.
  - rewrite pack_norm_overflow by lia. reflexivity.
Qed.

Lemma est_scale_mono f1 f2 prec : 0 < f1 <= f2 -> est_scale f1 prec <= est_scale f2 prec.
Proof.
  intros [H1 H2]. unfold est_scale.
  pose proof (Zdigits2_bounds f1 H1) as [Hl _].
  pose proof (Zdigits2_bounds f2 ltac:(lia)) as [_ Hu].
  assert (Hd : 1 <= Zdigits2 f1) by (destruct f1; simpl; lia).
  assert (Zdigits2 f1 - 1 < Zdigits2 f2).
  { apply pow2_lt_inv; try lia. apply Zdigits2_nonneg. }
  lia.
Qed.

Lemma est_value_mono f1 f2 prec :
  0 < f1 <= f2 -> est_value f1 prec <= est_value f2 prec.
Proof.
  intros H12. pose proof (est_scale_mono f1 f2 prec H12) as HS.
  assert (Hv : 0 < Precision_value prec) by (destruct prec; simpl; lia).
  assert (HS1 : 0 <= est_scale f1 prec)
    by (unfold est_scale; pose proof (Zdigits2_nonneg f1); pose proof (halvings_range prec); lia).
  destruct (of_ratio_char false (f1 * 8) (Precision_value prec) (est_scale f1 prec))
    as [Hm1 _]; try lia.
  { apply est_binade. lia. }
  destruct (of_ratio_char false (f2 * 8) (Precision_value prec) (est_scale f2 prec))
    as [Hm2 _]; try lia.
  { apply est_binade. lia. }
  unfold est_value.
  destruct (Z.eq_dec (est_scale f1 prec) (est_scale f2 prec)) as [E|E].
  - rewrite E. apply Z.mul_le_mono_nonneg_r; [apply Z.pow_nonneg; lia|].
    apply rne_mono; [|unfold P; lia].
    apply Z.mul_pos_pos; [assumption|apply pow2_gt0; lia].
  - pose proof (pow2_le (est_scale f1 prec + 1) (est_scale f2 prec) ltac:(lia) ltac:(lia)) as Hle.
    rewrite pow2_split in Hle by lia. change (2 ^ 1) with 2 in Hle.
    pose proof (pow2_gt0 (est_scale f1 prec) HS1).
    change (2 ^ 53) with (2 * 2 ^ 52) in *. nia.
Qed.

Lemma ceil_div_ge a b : 0 < b -> a <= ceil_div a b * b.
Proof.
  intros Hb. unfold ceil_div.
  pose proof (Z.div_mod (- a) b ltac:(lia)). pose proof (Z.mod_pos_bound (- a) b Hb). nia.
Qed.

Lemma est_value_nonneg f prec : 0 < f -> 0 <= est_value f prec.
Proof.
  intros Hf. unfold est_value.
  assert (Hv : 0 < Precision_value prec) by (destruct prec; simpl; lia).
  assert (HS : 0 <= est_scale f prec)
    by (unfold est_scale; pose proof (Zdigits2_nonneg f); pose proof (halvings_range prec); lia).
  apply Z.mul_nonneg_nonneg; [|apply Z.pow_nonneg; lia].
  apply rne_nonneg; [unfold P; lia|].
  apply Z.mul_pos_pos; [assumption|apply pow2_gt0; assumption].
Qed.

Lemma estimate_parameters_exact f prec :
  0 <= f <= 2 ^ 53 ->
  estimate_parameters f (Precision_num prec) = Ok (spec_estimateParameterCount f prec).
Proof.
  intros [H0 Hu].
  destruct (Z.eq_dec f 0) as [->|Hne]; [destruct prec; vm_compute; reflexivity|].
  destruct (Z.eq_dec f (2 ^ 53)) as [->|Hne2]; [destruct prec; vm_compute; reflexivity|].
  rewrite estimate_parameters_char by lia.
  pose proof (halvings_range prec) as Hh.
  pose proof (Zdigits2_bounds f ltac:(lia)) as [Hl Hub].
  assert (Hd1 : 1 <= Zdigits2 f) by (destruct f; simpl; lia).
  assert (Hd : Zdigits2 f <= 53) by (apply Zdigits2_le; lia).
  set (M := f * 2 ^ (53 - Zdigits2 f)).
  assert (HM : 2 ^ 52 <= M < 2 ^ 53).
  { unfold M.
    assert (E2 : 2 ^ 52 = 2 ^ (Zdigits2 f - 1) * 2 ^ (53 - Zdigits2 f))
      by (rewrite <- pow2_split by lia; f_equal; lia).
    assert (E3 : 2 ^ 53 = 2 ^ Zdigits2 f * 2 ^ (53 - Zdigits2 f))
      by (rewrite <- pow2_split by lia; f_equal; lia).
    rewrite E2, E3. pose proof (pow2_gt0 (53 - Zdigits2 f) ltac:(lia)). nia. }
  assert (HS : 0 <= est_scale f prec) by (unfold est_scale; lia).
  assert (EB : Precision_value prec * 2 ^ est_scale f prec = 2 ^ (Zdigits2 f + 1024)).
  { rewrite Precision_value_pow2. unfold est_scale. rewrite <- pow2_split by lia. f_equal. lia. }
  assert (EA : f * 8 * P = M * 2 ^ (Zdigits2 f + 1024)).
  { transitivity (f * 2 ^ 1077).
    - unfold P. change (2 ^ 1077) with (8 * 2 ^ 1074). ring.
    - unfold M. rewrite <- Z.mul_assoc, <- pow2_split by lia. f_equal. f_equal. lia. }
  assert (EV : est_value f prec = M * 2 ^ est_scale f prec).
  { unfold est_value. rewrite EB, EA, rne_mul by (apply pow2_gt0; lia). reflexivity. }
  assert (Hlt : est_value f prec < 2 ^ 2098).
  { rewrite EV.
    pose proof (pow2_le (est_scale f prec) 1075 ltac:(unfold est_scale; lia) HS).
    pose proof (pow2_gt0 (est_scale f prec) HS).
    change (2 ^ 2098) with (2 ^ 53 * 2 ^ 1075 * 2 ^ 970). nia. }
  destruct (Z.ltb_spec (est_value f prec) (2 ^ 2098)); [|lia].
  f_equal. unfold spec_estimateParameterCount.
  apply ceil_div_cross; [apply P_pos|destruct prec; simpl; lia|].
  rewrite EV, <- Z.mul_assoc, (Z.mul_comm (2 ^ _)), EB, <- EA. reflexivity.
Qed.

(** *** [convert_bytes_to_human_readable] *)

Lemma convert_bytes_eq x :
  B64.valid x = true -> convert_bytes_to_human_readable x = Ok (spec_humanizeBytes x).
Proof.
  intros Hv. unfold convert_bytes_to_human_readable, spec_humanizeBytes, truediv.
  change (int_to_float (1024 ^ 3)) with (Ok (B64.of_int (1024 ^ 3))).
  change (int_to_float (1024 ^ 2)) with (Ok (B64.of_int (1024 ^ 2))).
  cbn [mbind result_bind]. unfold float_truediv.
  change (B64.is_zero (B64.of_int (1024 ^ 3))) with false.
  change (B64.is_zero (B64.of_int (1024 ^ 2))) with false.
  cbn [mbind result_bind]. rewrite ge_one_iff_ge_gib by assumption. reflexivity.
Qed.

(** *** Size labels *)

Lemma append_cons c a b : String c a ++ b = String c (a ++ b).
Proof. reflexivity. Qed.

Lemma append_nil_l a : EmptyString ++ a = a.
Proof. reflexivity. Qed.



Lemma span_digits_rest s : starts_with_digit (snd (span_digits s)) = false.
Proof.
  induction s as [|c s IH]; [reflexivity|]. simpl.
  destruct (is_digit c) eqn:E; [|simpl; assumption].
  destruct (span_digits s) as [a b]. simpl in *. assumption.
Qed.

Lemma span_digits_run d r :
  all_digits d = true -> starts_with_digit r = false -> span_digits (d ++ r) = (d, r).
Proof.
  intros Hd Hr. induction d as [|c d IH].
  - rewrite append_nil_l. destruct r as [|c r]; [reflexivity|]. simpl in *. rewrite Hr. reflexivity.
  - simpl in Hd. apply andb_true_iff in Hd as [Hc Hd]. rewrite append_cons. simpl.
    rewrite Hc, IH by assumption. reflexivity.
Qed.

(** Matches of [\d*] and [\d+]: the longest run first; every shorter
    one leaves a digit behind. *)
Lemma many_digits s :
  exists tl, Re.many is_digit s = (span_digits s :: tl)%list /\
             Forall (fun '(_, rest) => starts_with_digit rest = true) tl.
Proof.
  induction s as [|c s IH]; simpl.
  - exists []. split; [reflexivity|constructor].
  - destruct (is_digit c) eqn:E.
    + destruct IH as (tl & -> & Htl). destruct (span_digits s) as [a b].
      exists (map (fun '(a, b) => (String c a, b)) tl ++ [(EmptyString, String c s)])%list.
      split; [reflexivity|].
      apply List.Forall_app. split.
      * apply List.Forall_map. eapply List.Forall_impl; [|exact Htl]. intros [x y]. simpl. auto.
      * constructor; [simpl; assumption|constructor].
    + exists []. split; [reflexivity|constructor].
Qed.

Lemma plus_digits s :
  Re.rmatch (Re.RPlus is_digit) s = [] /\ fst (span_digits s) = EmptyString
  \/ exists tl, Re.rmatch (Re.RPlus is_digit) s = (span_digits s :: tl)%list /\
                fst (span_digits s) <> EmptyString /\
                Forall (fun '(_, rest) => starts_with_digit rest = true) tl.
Proof.
  destruct s as [|c s]; simpl; [left; split; reflexivity|].
  destruct (is_digit c) eqn:E; [|left; split; reflexivity].
  right. destruct (many_digits s) as (tl & -> & Htl). destruct (span_digits s) as [a b].
  exists (map (fun '(a, b) => (String c a, b)) tl). split; [reflexivity|]. split; [discriminate|].
  apply List.Forall_map. eapply List.Forall_impl; [|exact Htl]. intros [x y]. simpl. auto.
Qed.

Lemma digit_not_dot c : is_digit c = true -> Ascii.eqb "." c = false.
Proof. destruct c as [[] [] [] [] [] [] [] []]; try discriminate; reflexivity. Qed.

Lemma digit_not_unit c : is_digit c = true -> Re.one_of "mbt" c = false.
Proof. destruct c as [[] [] [] [] [] [] [] []]; try discriminate; reflexivity. Qed.

Lemma dot_not_unit c : Ascii.eqb "." c = true -> Re.one_of "mbt" c = false.
Proof. destruct c as [[] [] [] [] [] [] [] []]; try discriminate; reflexivity. Qed.

Lemma append_nil_r a : a ++ EmptyString = a.
Proof. induction a as [|c a IH]; [reflexivity|]. rewrite append_cons, IH. reflexivity. Qed.

Lemma append_assoc a b c : (a ++ b) ++ c = a ++ (b ++ c).
Proof. induction a as [|x a IH]; [reflexivity|]. rewrite !append_cons, IH. reflexivity. Qed.

Lemma flat_map_nil {A B} (f : A -> list B) (l : list A) :
  Forall (fun x => f x = []) l -> flat_map f l = [].
Proof.
  induction 1 as [|x l Hx _ IH]; [reflexivity|]. simpl. rewrite Hx, IH. reflexivity.
Qed.

Lemma flat_map_flat_map {A B C} (g : B -> list C) (h : A -> list B) (l : list A) :
  flat_map g (flat_map h l) = flat_map (fun x => flat_map g (h x)) l.
Proof.
  induction l as [|x l IH]; [reflexivity|]. simpl. rewrite List.flat_map_app, IH. reflexivity.
Qed.

Lemma rmatch_opt r s :
  Re.rmatch (Re.ROpt r) s = (Re.rmatch r s ++ [(EmptyString, s)])%list.
Proof. reflexivity. Qed.

Lemma rmatch_seq r1 r2 s :
  Re.rmatch (Re.RSeq r1 r2) s =
  flat_map (fun '(a, rest) => map (fun '(b, rest') => (a ++ b, rest')) (Re.rmatch r2 rest))
           (Re.rmatch r1 s).
Proof. reflexivity. Qed.

Lemma rmatch_class f c s :
  Re.rmatch (Re.RClass f) (String c s) = if f c then [(String c EmptyString, s)] else [].
Proof. reflexivity. Qed.

Lemma unit_after_digit a rest : starts_with_digit rest = true -> unit_after a rest = [].
Proof.
  unfold unit_after. destruct rest as [|c r]; [discriminate|]. simpl starts_with_digit.
  intros H. rewrite rmatch_class, digit_not_unit by assumption. reflexivity.
Qed.

Lemma size_pattern_match_unfold s :
  size_pattern_match s =
  head (flat_map (fun '(a, rest) => frac_unit_after a rest) (Re.rmatch (Re.RPlus is_digit) s)).
Proof.
  unfold size_pattern_match, Re.match_groups, Re.number_re.
  rewrite rmatch_seq, flat_map_flat_map. f_equal.
  apply List.flat_map_ext. intros [a rest]. reflexivity.
Qed.

Lemma frac_unit_after_digit a rest :
  starts_with_digit rest = true -> frac_unit_after a rest = [].
Proof.
  intros H. unfold frac_unit_after. destruct rest as [|c r]; [discriminate|].
  simpl in H. rewrite rmatch_opt, rmatch_seq, rmatch_class, digit_not_dot by assumption.
  cbn [flat_map app map]. rewrite append_nil_r, unit_after_digit by assumption. reflexivity.
Qed.

Lemma frac_unit_after_live ds1 r1 :
  starts_with_digit r1 = false ->
  head (frac_unit_after ds1 r1) =
  match r1 with
  | String c r2 =>
      let '(ds2, r3) := span_digits r2 in
      if Ascii.eqb c "." && negb (String.eqb ds2 EmptyString)
      then match r3 with
           | String u rest =>
               if Re.one_of "mbt" u
               then Some (ds1 ++ String "." ds2, String u EmptyString)
               else None
           | EmptyString => None
           end
      else if Re.one_of "mbt" c then Some (ds1, String c EmptyString) else None
  | EmptyString => None
  end.
Proof.
  intros Hr. unfold frac_unit_after. destruct r1 as [|c r2]; [reflexivity|].
  rewrite rmatch_opt, rmatch_seq, rmatch_class, Ascii.eqb_sym.
  destruct (Ascii.eqb c ".") eqn:Ec.
  - (* a dot: a fraction if digits follow *)
    assert (Hu : Re.one_of "mbt" c = false) by (apply dot_not_unit; rewrite Ascii.eqb_sym; exact Ec).
    cbn [flat_map]. rewrite app_nil_r.
    destruct (plus_digits r2) as [[E1 E2]|(tl & E1 & E2 & Htl)]; rewrite E1.
    + destruct (span_digits r2) as [ds2 r3]. cbn [fst] in E2. subst ds2.
      cbn [map app flat_map andb negb String.eqb]. rewrite append_nil_r.
      unfold unit_after. rewrite rmatch_class, Hu. reflexivity.
    + pose proof (span_digits_rest r2) as Hr3.
      destruct (span_digits r2) as [ds2 r3]. cbn [fst snd] in *.
      assert (Hne : String.eqb ds2 EmptyString = false) by (apply String.eqb_neq; assumption).
      rewrite Hne. cbn [andb negb map app flat_map].
      rewrite !List.map_app, List.flat_map_app. cbn [map flat_map].
      rewrite append_nil_r, app_nil_r.
      rewrite (flat_map_nil _ (map _ (map _ tl))).
      2:{ apply List.Forall_map, List.Forall_map. eapply List.Forall_impl; [|exact Htl].
          intros [x y] Hy. apply unit_after_digit. assumption. }
      rewrite app_nil_l.
      assert (E3 : unit_after ds1 (String c r2) = []).
      { unfold unit_after. rewrite rmatch_class, Hu. reflexivity. }
      rewrite E3, app_nil_r.
      apply Ascii.eqb_eq in Ec. subst c.
      unfold unit_after.
      destruct r3 as [|u rest]; [reflexivity|]. rewrite rmatch_class.
      destruct (Re.one_of "mbt" u); reflexivity.
  - cbn [flat_map app map]. rewrite append_nil_r, app_nil_r.
    destruct (span_digits r2) as [ds2 r3]. cbn [andb].
    unfold unit_after. rewrite rmatch_class.
    destruct (Re.one_of "mbt" c); reflexivity.
Qed.

Lemma size_pattern_match_scan s :
  size_pattern_match s = option_map (fun '(n, u, _) => (n, u)) (scan s).
Proof.
  rewrite size_pattern_match_unfold. unfold scan.
  pose proof (span_digits_rest s) as Hrest.
  destruct (plus_digits s) as [[E1 E2]|(tl & E1 & E2 & Htl)]; rewrite E1.
  - destruct (span_digits s) as [ds1 r1]. cbn [fst] in E2. subst ds1. reflexivity.
  - destruct (span_digits s) as [ds1 r1]. cbn [fst snd] in *.
    assert (Hne : String.eqb ds1 EmptyString = false) by (apply String.eqb_neq; assumption).
    rewrite Hne. cbn [flat_map].
    rewrite (flat_map_nil _ tl).
    2:{ eapply List.Forall_impl; [|exact Htl]. intros [x y] Hy.
        apply frac_unit_after_digit. assumption. }
    rewrite app_nil_r, frac_unit_after_live by assumption.
    destruct r1 as [|c r2]; [reflexivity|].
    destruct (span_digits r2) as [ds2 r3].
    destruct (Ascii.eqb c "." && negb (String.eqb ds2 EmptyString)).
    + destruct r3 as [|u rest]; [reflexivity|]. destruct (Re.one_of "mbt" u); reflexivity.
    + destruct (Re.one_of "mbt" c); reflexivity.
Qed.

(** *** Lower-casing *)

Lemma lower_app a b : lower (a ++ b) = lower a ++ lower b.
Proof. induction a as [|c a IH]; [reflexivity|]. rewrite append_cons. simpl. rewrite IH. reflexivity. Qed.

Lemma lower_char_digit c : is_digit c = true -> lower_char c = c.
Proof. destruct c as [[] [] [] [] [] [] [] []]; try discriminate; reflexivity. Qed.



Lemma lower_char_unit c : unit_letter c = true -> Re.one_of "mbt" (lower_char c) = true.
Proof. destruct c as [[] [] [] [] [] [] [] []]; try discriminate; reflexivity. Qed.


Lemma unit_not_digit c : Re.one_of "mbt" c = true -> is_digit c = false.
Proof. destruct c as [[] [] [] [] [] [] [] []]; try discriminate; reflexivity. Qed.

Lemma unit_not_dot c : Re.one_of "mbt" c = true -> Ascii.eqb c "." = false.
Proof. destruct c as [[] [] [] [] [] [] [] []]; try discriminate; reflexivity. Qed.

Lemma lower_digits d : all_digits d = true -> lower d = d.
Proof.
  induction d as [|c d IH]; [reflexivity|]. simpl. intros H.
  apply andb_true_iff in H as [Hc Hd]. rewrite lower_char_digit, IH by assumption. reflexivity.
Qed.



Lemma lower_number num : number_text num -> lower num = num.
Proof.
  intros [[_ H]|(a & b & -> & [_ Ha] & [_ Hb])].
  - apply lower_digits. assumption.
  - rewrite !lower_app, (lower_digits a), (lower_digits b) by assumption. reflexivity.
Qed.


(** *** The scan finds exactly the labelled prefixes *)

Lemma digit_run_not_empty d : digit_run d -> String.eqb d EmptyString = false.
Proof. intros [H _]. apply String.eqb_neq. assumption. Qed.

Lemma scan_label_lower num u rest :
  number_text num -> Re.one_of "mbt" u = true ->
  scan (num ++ String u rest) = Some (num, String u EmptyString, rest).
Proof.
  intros Hnum Hu. unfold scan.
  pose proof (unit_not_digit u Hu) as Hud. pose proof (unit_not_dot u Hu) as Hudot.
  destruct Hnum as [Hd|(a & b & -> & Ha & Hb)].
  - rewrite span_digits_run by (try apply Hd; simpl; assumption).
    cbv beta iota zeta. rewrite digit_run_not_empty by assumption.
    destruct (span_digits rest) as [ds2 r3]. rewrite Hudot, Hu. reflexivity.
  - rewrite !append_assoc. rewrite span_digits_run by (try apply Ha; reflexivity).
    cbv beta iota zeta. rewrite digit_run_not_empty by assumption.
    change ("." ++ b ++ String u rest) with (String "." (b ++ String u rest)).
    cbv beta iota zeta.
    rewrite span_digits_run by (try apply Hb; simpl; assumption).
    cbv beta iota zeta. rewrite (digit_run_not_empty b) by assumption.
    change (Ascii.eqb "." ".") with true. cbn [andb negb]. rewrite Hu. reflexivity.
Qed.



(** *** [parse_model_size] *)

Lemma parse_model_size_scan s :
  parse_model_size s =
  match scan (lower s) with
  | None => Raise (ValueError ("Invalid model size format: " ++ lower s))
  | Some (n, u, _) =>
      match size_mapping !! u with
      | None => Raise KeyError
      | Some unit =>
          int_of_float (B64.mul (float_of_decimal n) (B64.of_int (ModelSizeUnit_value unit)))
      end
  end.
Proof.
  unfold parse_model_size. rewrite size_pattern_match_scan.
  destruct (scan (lower s)) as [[[n u] rest]|]; [|reflexivity].
  cbn [option_map]. destruct (size_mapping !! u) as [unit|]; [|reflexivity].
  destruct unit; reflexivity.
Qed.

Lemma unit_lookup u :
  unit_letter u = true ->
  exists unit, size_mapping !! String (lower_char u) EmptyString = Some unit /\
               ModelSizeUnit_value unit = unit_multiplier u.
Proof.
  destruct u as [[] [] [] [] [] [] [] []]; try discriminate; intros _;
    eexists; split; reflexivity.
Qed.

(** A text that starts with a size label parses to the value of that
    label, whatever follows it. *)
Lemma parse_model_size_label num u rest :
  number_text num -> unit_letter u = true ->
  parse_model_size (num ++ String u rest) = spec_parse_value num u.
Proof.
  intros Hnum Hu. rewrite parse_model_size_scan.
  rewrite lower_app, lower_number by assumption. simpl lower.
  rewrite scan_label_lower by (try apply lower_char_unit; assumption).
  destruct (unit_lookup u Hu) as (unit & -> & Ev). rewrite Ev. reflexivity.
Qed.

Lemma parse_model_size_invalid s :
  scan (lower s) = None ->
  parse_model_size s = Raise (ValueError ("Invalid model size format: " ++ lower s)).
Proof. intros E. rewrite parse_model_size_scan, E. reflexivity. Qed.

(** *** Rounding never yields NaN *)





Lemma digits_value_nonneg s acc : all_digits s = true -> 0 <= acc -> 0 <= digits_value acc s.
Proof.
  revert acc. induction s as [|c s IH]; intros acc H Hacc; [assumption|].
  simpl in *. apply andb_true_iff in H as [Hc Hs]. apply IH; [assumption|].
  unfold is_digit in Hc. apply andb_true_iff in Hc as [H1 _].
  apply Nat.leb_le in H1. lia.
Qed.

Lemma all_digits_app a b : all_digits (a ++ b) = all_digits a && all_digits b.
Proof.
  induction a as [|c a IH]; [reflexivity|]. rewrite append_cons. simpl.
  rewrite IH, andb_assoc. reflexivity.
Qed.

Lemma split_point_digits a :
  all_digits a = true -> split_point a = (a, None).
Proof.
  induction a as [|c a IH]; [reflexivity|]. simpl. intros H.
  apply andb_true_iff in H as [Hc Ha].
  rewrite Ascii.eqb_sym, digit_not_dot, IH by assumption. reflexivity.
Qed.

Lemma split_point_dot a b :
  all_digits a = true -> split_point (a ++ String "." b) = (a, Some b).
Proof.
  induction a as [|c a IH]; [reflexivity|]. rewrite append_cons. simpl. intros H.
  apply andb_true_iff in H as [Hc Ha].
  rewrite Ascii.eqb_sym, digit_not_dot, IH by assumption. reflexivity.
Qed.

Lemma float_of_decimal_eq num :
  float_of_decimal num =
  if number_num num =? 0 then S754_zero false
  else of_ratio false (number_num num) (number_den num).
Proof. unfold float_of_decimal, number_num, number_den. destruct (split_point num). reflexivity. Qed.

Lemma number_num_nonneg num : number_text num -> 0 <= number_num num.
Proof.
  unfold number_num.
  intros [[_ H]|(a & b & -> & [_ Ha] & [_ Hb])].
  - rewrite split_point_digits, append_nil_r by assumption.
    apply digits_value_nonneg; [assumption|lia].
  - change ("." ++ b) with (String "." b). rewrite split_point_dot by assumption.
    apply digits_value_nonneg; [|lia]. rewrite all_digits_app, Ha, Hb. reflexivity.
Qed.





(** *** Relative error of one rounding *)

Lemma binade_exists A B :
  0 < B -> B * 2 ^ 52 <= A ->
  exists S, 0 <= S /\ B * 2 ^ (S + 52) <= A < B * 2 ^ (S + 53).
Proof.
  intros HB HA.
  assert (Hq : 2 ^ 52 <= A / B) by (apply Z.div_le_lower_bound; lia).
  pose proof (Z.log2_spec (A / B) ltac:(lia)) as [Hl Hu].
  assert (HL : 52 <= Z.log2 (A / B)).
  { change 52 with (Z.log2 (2 ^ 52)). apply Z.log2_le_mono. assumption. }
  exists (Z.log2 (A / B) - 52).
  replace (Z.log2 (A / B) - 52 + 52) with (Z.log2 (A / B)) by lia.
  replace (Z.log2 (A / B) - 52 + 53) with (Z.succ (Z.log2 (A / B))) by lia.
  pose proof (Z.div_mod A B ltac:(lia)) as E.
  pose proof (Z.mod_pos_bound A B HB) as Hr.
  split; [lia|]. split; nia.
Qed.

Lemma pack_norm_rounds m1 S A B :
  0 < B -> 0 <= S -> 2 ^ 52 <= m1 <= 2 ^ 53 ->
  m1 = rne A (B * 2 ^ S) -> B * 2 ^ (S + 52) <= A < B * 2 ^ 2097 ->
  rounds_to (pack_norm false m1 S) A B.
Proof.
  intros HB HS Hm Em [Hl Hu].
  pose proof (pow2_gt0 S HS) as HpS.
  assert (HS2 : S + 52 < 2097).
  { apply pow2_lt_inv; try lia.
    apply (Z.mul_lt_mono_pos_l B); [assumption|lia]. }
  destruct (pack_norm_finite m1 S) as (m & e & -> & Hv & HR); try lia.
  { pose proof (pow2_le S 2044 ltac:(lia) HS).
    change (2 ^ 2098) with (2 * 2 ^ 53 * 2 ^ 2044). nia. }
  exists m, e. split; [reflexivity|]. split; [assumption|].
  rewrite HR.
  pose proof (rne_err A (B * 2 ^ S) ltac:(nia)) as He. rewrite <- Em in He.
  rewrite pow2_split in Hl by lia. change (2 ^ 53) with (2 * 2 ^ 52). nia.
Qed.

Lemma of_ratio_rounds n d :
  0 < n -> 0 < d -> d * 2 ^ 52 <= n * P -> n * P < d * 2 ^ 2097 ->
  rounds_to (of_ratio false n d) (n * P) d.
Proof.
  intros Hn Hd Hl Hu.
  destruct (binade_exists (n * P) d Hd Hl) as (S & HS & Hb).
  destruct (of_ratio_char false n d S Hn Hd HS Hb) as [Hm ->].
  apply pack_norm_rounds; try assumption; try reflexivity. lia.
Qed.

Lemma mul_rounds mx ex my ey :
  0 <= ex + ey + 1074 -> 2 ^ 52 <= Z.pos mx * Z.pos my ->
  Z.pos mx * Z.pos my * 2 ^ (ex + ey + 1074) < 2 ^ 2097 ->
  rounds_to (B64.mul (S754_finite false mx ex) (S754_finite false my ey))
            (Z.pos mx * Z.pos my * 2 ^ (ex + ey + 1074)) 1.
Proof.
  intros Hk Hmm Hu.
  set (k := ex + ey + 1074) in *. set (A := Z.pos mx * Z.pos my * 2 ^ k) in *.
  pose proof (pow2_gt0 k Hk) as Hpk.
  assert (HA : 1 * 2 ^ 52 <= A) by (unfold A; nia).
  destruct (binade_exists A 1 ltac:(lia) HA) as (S & HS & Hb).
  rewrite !Z.mul_1_l in Hb.
  assert (HkS : k <= S).
  { destruct (Z_le_gt_dec k S) as [|Hc]; [assumption|exfalso].
    pose proof (pow2_le (S + 53) (k + 52) ltac:(lia) ltac:(lia)) as Hle.
    rewrite (pow2_split k 52) in Hle by lia. unfold A in Hb. nia. }
  destruct (mul_char mx ex my ey S) as [Hm ->]; fold k; fold A; try lia.
  replace (2 ^ S) with (1 * 2 ^ S) in * by lia.
  apply pack_norm_rounds; try assumption; try reflexivity; lia.
Qed.

(** *** Decimal text of an integer *)

Lemma uint_all_digits u : all_digits (NilEmpty.string_of_uint u) = true.
Proof. induction u; simpl; try assumption; reflexivity. Qed.

Lemma digits_value_uint_acc u acc s :
  digits_value (Z.pos acc) (NilEmpty.string_of_uint u ++ s)
  = digits_value (Z.pos (Pos.of_uint_acc u acc)) s.
Proof.
  revert acc. induction u as [|u IH|u IH|u IH|u IH|u IH|u IH|u IH|u IH|u IH|u IH];
    intros acc; [reflexivity|..];
    cbn [NilEmpty.string_of_uint Pos.of_uint_acc]; rewrite append_cons;
    cbn [digits_value]; rewrite <- IH; f_equal;
    rewrite ?Pos2Z.inj_add, Pos2Z.inj_mul;
    match goal with |- context [Z.of_nat ?x - 48] =>
      let c := eval vm_compute in (Z.of_nat x - 48) in
      change (Z.of_nat x - 48) with c
    end; lia.
Qed.

Lemma digits_value_uint u s :
  digits_value 0 (NilEmpty.string_of_uint u ++ s) = digits_value (Z.of_N (Pos.of_uint u)) s.
Proof.
  induction u as [|u IH|u IH|u IH|u IH|u IH|u IH|u IH|u IH|u IH|u IH];
    [reflexivity|exact IH|..];
    cbn [NilEmpty.string_of_uint Pos.of_uint]; rewrite append_cons;
    cbn [digits_value Z.of_N]; rewrite <- digits_value_uint_acc; f_equal.
Qed.

Lemma str_int_pos p : str_int (Z.pos p) = NilEmpty.string_of_uint (Pos.to_uint p).
Proof.
  unfold str_int. cbn [Z.to_int NilZero.string_of_int]. unfold NilZero.string_of_uint.
  pose proof (Unsigned.to_uint_nonnil p). destruct (Pos.to_uint p); congruence.
Qed.

Lemma digits_value_str_int z s :
  0 <= z -> digits_value 0 (str_int z ++ s) = digits_value z s.
Proof.
  intros Hz. destruct z as [|p|p]; try lia; [reflexivity|].
  rewrite str_int_pos, digits_value_uint, Unsigned.of_to. reflexivity.
Qed.

Lemma str_int_digit_run z : 0 <= z -> digit_run (str_int z).
Proof.
  intros Hz. destruct z as [|p|p]; try lia.
  - split; [discriminate|reflexivity].
  - split.
    + intros E. pose proof (digits_value_str_int (Z.pos p) EmptyString ltac:(lia)) as H.
      rewrite E in H. simpl in H. discriminate.
    + rewrite str_int_pos. apply uint_all_digits.
Qed.

Lemma digit_char_is_digit d : 0 <= d <= 9 -> is_digit (digit_char d) = true.
Proof.
  intros H. assert (E : d = 0 \/ d = 1 \/ d = 2 \/ d = 3 \/ d = 4 \/ d = 5 \/ d = 6 \/ d = 7
                       \/ d = 8 \/ d = 9) by lia.
  repeat (destruct E as [-> | E]; [reflexivity|]). subst. reflexivity.
Qed.

Lemma digit_char_value d : 0 <= d <= 9 -> Z.of_nat (nat_of_ascii (digit_char d)) - 48 = d.
Proof.
  intros H. assert (E : d = 0 \/ d = 1 \/ d = 2 \/ d = 3 \/ d = 4 \/ d = 5 \/ d = 6 \/ d = 7
                       \/ d = 8 \/ d = 9) by lia.
  repeat (destruct E as [-> | E]; [reflexivity|]). subst. reflexivity.
Qed.

Lemma format_fixed_1 m e :
  format_fixed 1 (S754_finite false m e) = tenths_text (scaled_digits 1 m e).
Proof.
  unfold format_fixed, tenths_text. rewrite append_nil_l.
  change (10 ^ Z.of_nat 1) with 10. cbn [low_digits].
  rewrite Z.mod_mod by lia. reflexivity.
Qed.

Lemma tenths_text_number r : 0 <= r -> number_text (tenths_text r).
Proof.
  intros Hr. right. exists (str_int (r / 10)), (String (digit_char (r mod 10)) EmptyString).
  split; [reflexivity|]. split.
  - apply str_int_digit_run. apply Z.div_pos; lia.
  - split; [discriminate|]. cbn [all_digits].
    rewrite digit_char_is_digit by (pose proof (Z.mod_pos_bound r 10); lia). reflexivity.
Qed.

Lemma tenths_text_value r :
  0 <= r -> number_num (tenths_text r) = r /\ number_den (tenths_text r) = 10.
Proof.
  intros Hr. unfold number_num, number_den, tenths_text.
  pose proof (str_int_digit_run (r / 10) ltac:(apply Z.div_pos; lia)) as [_ Hd].
  rewrite split_point_dot by assumption.
  split; [|reflexivity].
  rewrite digits_value_str_int by (apply Z.div_pos; lia).
  cbn [digits_value]. rewrite digit_char_value by (pose proof (Z.mod_pos_bound r 10); lia).
  pose proof (Z.div_mod r 10 ltac:(lia)). lia.
Qed.

(** The tenths are the scaled value, times ten, rounded. *)
Lemma scaled_digits_B2S m e :
  -1074 <= e ->
  scaled_digits 1 m e = rne (10 * B2S (S754_finite false m e)) P.
Proof.
  intros He. unfold scaled_digits, B2S, signed. change (10 ^ Z.of_nat 1) with 10.
  destruct (Z.leb_spec 0 e) as [H|H].
  - rewrite pow2_split by lia. fold P.
    replace (10 * (Z.pos m * (2 ^ e * P))) with (Z.pos m * 2 ^ e * 10 * P) by ring.
    rewrite rne_mul by apply P_pos. reflexivity.
  - assert (EP : P = 2 ^ (- e) * 2 ^ (e + 1074)).
    { unfold P. rewrite <- pow2_split by lia. f_equal. lia. }
    rewrite EP.
    replace (10 * (Z.pos m * 2 ^ (e + 1074))) with (Z.pos m * 10 * 2 ^ (e + 1074)) by ring.
    rewrite rne_scale by (apply pow2_gt0; lia). reflexivity.
Qed.

(** *** The round trip *)

Ltac keep H := let T := type of H in change (kept T) in H.

Lemma unit_mul_le T n p :
  0 <= p -> T <= n -> T * p <= n * p.
Proof. intros Hp H. apply Z.mul_le_mono_nonneg_r; assumption. Qed.

Lemma roundtrip_side_gen n T Rx r p q :
  T = 10 ^ 6 \/ T = 10 ^ 9 \/ T = 10 ^ 12 ->
  0 < p -> T <= n -> n * p <= q ->
  - (n * p) <= (Rx * T - n * p) * 2 ^ 53 <= n * p ->
  - p <= 2 * (r * p - 10 * Rx) <= p ->
  10 <= r /\ r * p < 20 * q.
Proof.
  intros HT Hp HTn Hq Hx Hr.
  pose proof (unit_mul_le T n p (Z.lt_le_incl _ _ Hp) HTn) as HTp.
  assert (H9 : 9 * p < r * p) by (destruct HT as [-> | [-> | ->]]; lia).
  split; [|destruct HT as [-> | [-> | ->]]; lia].
  apply Z.mul_lt_mono_pos_r in H9; [lia|assumption].
Qed.

Lemma roundtrip_side_mul_gen n T Rx r Ry p q :
  T = 10 ^ 6 \/ T = 10 ^ 9 \/ T = 10 ^ 12 ->
  0 < p -> T <= n -> n * p <= q ->
  - (n * p) <= (Rx * T - n * p) * 2 ^ 53 <= n * p ->
  - p <= 2 * (r * p - 10 * Rx) <= p ->
  - (r * p) <= (Ry * 10 - r * p) * 2 ^ 53 <= r * p ->
  p <= 2 * Ry /\ Ry * T < 2 * q.
Proof.
  intros HT Hp HTn Hq Hx Hr Hy.
  destruct (roundtrip_side_gen n T Rx r p q HT Hp HTn Hq Hx Hr) as [Hr10 _].
  pose proof (unit_mul_le T n p (Z.lt_le_incl _ _ Hp) HTn) as HTp.
  pose proof (unit_mul_le 10 r p (Z.lt_le_incl _ _ Hp) Hr10) as Hrp.
  destruct HT as [-> | [-> | ->]]; lia.
Qed.

Lemma roundtrip_arith_gen n T Rx r Ry Rz v p :
  T = 10 ^ 6 \/ T = 10 ^ 9 \/ T = 10 ^ 12 ->
  0 < p -> T <= n -> 10 ^ 6 <= n ->
  - (n * p) <= (Rx * T - n * p) * 2 ^ 53 <= n * p ->
  - p <= 2 * (r * p - 10 * Rx) <= p ->
  - (r * p) <= (Ry * 10 - r * p) * 2 ^ 53 <= r * p ->
  - (Ry * T) <= (Rz - Ry * T) * 2 ^ 53 <= Ry * T ->
  v * p <= Rz < (v + 1) * p ->
  - n <= 20 * (v - n) <= n.
Proof.
  intros HT Hp HTn Hn Hx Hr Hy Hz Hv.
  pose proof (Z.lt_le_incl _ _ Hp) as Hp0.
  pose proof (unit_mul_le T n p Hp0 HTn) as HTp.
  pose proof (unit_mul_le (10 ^ 6) n p Hp0 Hn) as Hnp.
  assert (Hr3 : r * p <= 9 * p \/ r = 10 \/ 11 * p <= r * p).
  { assert (Hc : r <= 9 \/ r = 10 \/ 11 <= r) by lia.
    destruct Hc as [H | [H | H]]; [left|right; left|right; right];
      [|assumption|]; apply unit_mul_le; assumption. }
  assert (Hg : - (n * p) <= 20 * (v * p - n * p) <= n * p).
  { clear HTn Hn.
    destruct HT as [-> | [-> | ->]]; destruct Hr3 as [H | [-> | H]]; lia. }
  replace (20 * (v * p - n * p)) with (20 * (v - n) * p) in Hg by ring.
  rewrite <- Z.mul_opp_l in Hg. destruct Hg as [Hg1 Hg2].
  split; apply (Z.mul_le_mono_pos_r _ _ p Hp); assumption.
Qed.

Lemma count_P_le n : n <= 2 ^ 1022 -> n * P <= 2 ^ 1022 * P.
Proof. apply Z.mul_le_mono_nonneg_r. apply Z.lt_le_incl, P_pos. Qed.

(** The errors of the four roundings and of the truncation, added up. *)
Lemma roundtrip_arith n T Rx r Ry Rz v :
  T = 10 ^ 6 \/ T = 10 ^ 9 \/ T = 10 ^ 12 ->
  T <= n -> 10 ^ 6 <= n ->
  - (n * P) <= (Rx * T - n * P) * 2 ^ 53 <= n * P ->
  - P <= 2 * (r * P - 10 * Rx) <= P ->
  - (r * P) <= (Ry * 10 - r * P) * 2 ^ 53 <= r * P ->
  - (Ry * T) <= (Rz - Ry * T) * 2 ^ 53 <= Ry * T ->
  v * P <= Rz < (v + 1) * P ->
  - n <= 20 * (v - n) <= n.
Proof.
  intros HT. apply (roundtrip_arith_gen n T Rx r Ry Rz v P HT P_pos).
Qed.

(** What the first two roundings leave for the later ones: at least ten
    tenths, and magnitudes inside the range of doubles. *)
Lemma roundtrip_side n T Rx r :
  T = 10 ^ 6 \/ T = 10 ^ 9 \/ T = 10 ^ 12 ->
  T <= n -> n <= 2 ^ 1022 ->
  - (n * P) <= (Rx * T - n * P) * 2 ^ 53 <= n * P ->
  - P <= 2 * (r * P - 10 * Rx) <= P ->
  10 <= r /\ 10 * 2 ^ 52 <= r * P /\ r * P < 10 * 2 ^ 2097.
Proof.
  intros HT HTn Hn Hx Hr.
  destruct (roundtrip_side_gen n T Rx r P (2 ^ 1022 * P) HT P_pos HTn (count_P_le n Hn) Hx Hr)
    as [Hr10 Hu].
  split; [exact Hr10|]. split; [|exact Hu].
  apply Z.mul_le_mono_nonneg; [discriminate|exact Hr10|discriminate|].
  unfold P. apply pow2_le; discriminate.
Qed.

Lemma roundtrip_side_mul n T Rx r Ry :
  T = 10 ^ 6 \/ T = 10 ^ 9 \/ T = 10 ^ 12 ->
  T <= n -> n <= 2 ^ 1022 ->
  - (n * P) <= (Rx * T - n * P) * 2 ^ 53 <= n * P ->
  - P <= 2 * (r * P - 10 * Rx) <= P ->
  - (r * P) <= (Ry * 10 - r * P) * 2 ^ 53 <= r * P ->
  2 ^ 1073 <= Ry /\ Ry * T < 2 ^ 2097.
Proof.
  intros HT HTn Hn Hx Hr Hy.
  destruct (roundtrip_side_mul_gen n T Rx r Ry P (2 ^ 1022 * P) HT P_pos HTn
              (count_P_le n Hn) Hx Hr Hy) as [Hl Hu].
  split; [|exact Hu].
  apply (Z.mul_le_mono_pos_l _ _ 2); [reflexivity|exact Hl].
Qed.

Lemma unit_float T :
  T = 10 ^ 6 \/ T = 10 ^ 9 \/ T = 10 ^ 12 ->
  exists mT eT, B64.of_int T = S754_finite false mT eT /\
                -40 <= eT <= 0 /\ Z.pos mT = T * 2 ^ (- eT) /\ 2 ^ 52 <= Z.pos mT.
Proof.
  intros [-> | [-> | ->]]; eexists _, _; (split; [reflexivity|]); vm_compute;
    repeat split; discriminate.
Qed.

Lemma int_truediv_pos n T :
  0 < n -> 0 < T ->
  int_truediv n T =
  match B64.of_ratio false n T with
  | S754_infinity _ => Raise OverflowError
  | x => Ok x
  end.
Proof.
  intros Hn HT. unfold int_truediv.
  destruct (Z.eqb_spec T 0); [lia|]. destruct (Z.eqb_spec n 0); [lia|].
  destruct (Z.ltb_spec n 0); [lia|]. destruct (Z.ltb_spec T 0); [lia|].
  cbn [xorb]. rewrite !Z.abs_eq by lia. reflexivity.
Qed.

Lemma unit_ratio_side n T :
  1 <= T <= n -> n <= 2 ^ 1022 -> T * 2 ^ 52 <= n * P /\ n * P < T * 2 ^ 2097.
Proof.
  intros [HT1 HTn] Hnu. pose proof P_pos as HP. split.
  - apply Z.mul_le_mono_nonneg; [|exact HTn|discriminate|unfold P; apply pow2_le; discriminate].
    apply Z.le_trans with 1; [discriminate|exact HT1].
  - apply Z.le_lt_trans with (2 ^ 1022 * P).
    + apply Z.mul_le_mono_nonneg_r; [apply Z.lt_le_incl, HP|exact Hnu].
    + apply Z.lt_le_trans with (1 * 2 ^ 2097); [reflexivity|].
      apply Z.mul_le_mono_nonneg_r; [discriminate|exact HT1].
Qed.

(** One size label, there and back. *)
Lemma roundtrip_unit n T U :
  T = 10 ^ 6 \/ T = 10 ^ 9 \/ T = 10 ^ 12 ->
  unit_letter U = true -> unit_multiplier U = T ->
  T <= n -> 10 ^ 6 <= n <= 2 ^ 1022 ->
  exists x v,
    truediv (NInt n) (NInt T) = Ok x /\
    parse_model_size (format_fixed 1 x ++ String U EmptyString) = Ok v /\
    - n <= 20 * (v - n) <= n.
Proof.
  intros HT HU HUT HTn [Hn Hnu]. keep Hnu.
  assert (HT0 : 0 < T) by (destruct HT as [-> | [-> | ->]]; reflexivity).
  (* the quotient *)
  destruct (unit_ratio_side n T ltac:(lia) Hnu) as [Hs1 Hs2]. keep Hs2.
  destruct (of_ratio_rounds n T ltac:(lia) HT0 Hs1 Hs2) as (mx & ex & Ex & Vx & Hx).
  set (Rx := B2S (B64.of_ratio false n T)) in *.
  exists (S754_finite false mx ex).
  cbn [truediv]. rewrite int_truediv_pos, Ex by lia.
  (* its text *)
  rewrite Ex in Vx. pose proof (valid_finite_inv _ _ _ Vx) as (Hex & _ & _).
  rewrite format_fixed_1, scaled_digits_B2S by lia.
  rewrite <- Ex. fold Rx.
  set (r := rne (10 * Rx) P).
  pose proof (rne_err (10 * Rx) P P_pos) as Hr. fold r in Hr.
  destruct (roundtrip_side n T Rx r HT HTn Hnu Hx Hr) as (Hr10 & Hrl & Hru). keep Hru.
  (* parsing the text *)
  rewrite parse_model_size_label by (try apply tenths_text_number; try assumption; lia).
  unfold spec_parse_value. rewrite float_of_decimal_eq.
  destruct (tenths_text_value r ltac:(lia)) as [-> ->].
  destruct (Z.eqb_spec r 0); [lia|].
  destruct (of_ratio_rounds r 10 ltac:(lia) ltac:(lia) Hrl Hru) as (my & ey & Ey & Vy & Hy).
  set (Ry := B2S (B64.of_ratio false r 10)) in *.
  destruct (roundtrip_side_mul n T Rx r Ry HT HTn Hnu Hx Hr Hy) as (Hyl & Hyu).
  keep Hyl. keep Hyu.
  (* the product with the unit *)
  rewrite HUT. destruct (unit_float T HT) as (mT & eT & -> & HeT & EmT & HmT).
  rewrite Ey in Vy. pose proof (valid_finite_inv _ _ _ Vy) as (Hey & Hdy & _).
  assert (Hmy : Z.pos my < 2 ^ 53).
  { pose proof (Zdigits2_bounds (Z.pos my) ltac:(lia)) as [_ Hu].
    pose proof (pow2_le _ 53 Hdy (Zdigits2_nonneg _)). lia. }
  assert (ERy : Ry = Z.pos my * 2 ^ (ey + 1074)) by (unfold Ry; rewrite Ey; reflexivity).
  assert (Hey2 : -54 < ey).
  { enough (1073 < 53 + (ey + 1074)) by lia.
    apply pow2_lt_inv; [discriminate|lia|].
    apply Z.le_lt_trans with Ry; [exact Hyl|]. rewrite ERy, (pow2_split 53 (ey + 1074)) by lia.
    apply Z.mul_lt_mono_pos_r; [apply pow2_gt0; lia|exact Hmy]. }
  set (k := ey + eT + 1074).
  assert (EA : Z.pos my * Z.pos mT * 2 ^ k = Ry * T).
  { rewrite ERy, EmT. replace (ey + 1074) with (k + - eT) by (unfold k; lia).
    rewrite pow2_split by (unfold k; lia). ring. }
  rewrite Ey.
  destruct (mul_rounds my ey mT eT) as (mz & ez & Ez & Vz & Hz); fold k.
  { unfold k. lia. }
  { apply Z.le_trans with (1 * Z.pos mT); [lia|].
    apply Z.mul_le_mono_nonneg_r; lia. }
  { rewrite EA. exact Hyu. }
  fold k in Hz. rewrite EA in Hz. rewrite Ez in Vz. pose proof (valid_finite_inv _ _ _ Vz) as (Hez & _ & _).
  rewrite Ez. unfold int_of_float. rewrite trunc_B2S by lia.
  rewrite <- Ez.
  set (Rz := B2S (B64.mul (S754_finite false my ey) (S754_finite false mT eT))) in *.
  exists (Rz / P). split; [reflexivity|]. split; [reflexivity|].
  rewrite Z.mul_1_r in Hz.
  apply (roundtrip_arith n T Rx r Ry Rz (Rz / P) HT HTn Hn Hx Hr Hy Hz).
  pose proof P_pos as HP.
  pose proof (Z.div_mod Rz P ltac:(lia)).
  pose proof (Z.mod_pos_bound Rz P HP). lia.
Qed.

(** *** Labels that parse without overflow *)

Lemma digits_value_bound s acc :
  all_digits s = true -> 0 <= acc ->
  digits_value acc s < (acc + 1) * 10 ^ Z.of_nat (String.length s).
Proof.
  revert acc. induction s as [|c s IH]; intros acc H Hacc.
  - simpl. lia.
  - simpl in H. apply andb_true_iff in H as [Hc Hs].
    cbn [digits_value String.length]. rewrite Nat2Z.inj_succ, Z.pow_succ_r by lia.
    unfold is_digit in Hc. apply andb_true_iff in Hc as [H1 H2].
    apply Nat.leb_le in H1, H2.
    specialize (IH (10 * acc + (Z.of_nat (nat_of_ascii c) - 48)) Hs ltac:(lia)).
    pose proof (pow2_gt0 0 ltac:(lia)).
    assert (0 < 10 ^ Z.of_nat (String.length s)) by (apply Z.pow_pos_nonneg; lia).
    nia.
Qed.

Lemma length_app a b : String.length (a ++ b) = (String.length a + String.length b)%nat.
Proof. induction a as [|c a IH]; [reflexivity|]. rewrite append_cons. simpl. rewrite IH. reflexivity. Qed.

Lemma number_bounds num :
  number_text num ->
  0 <= number_num num < 10 ^ Z.of_nat (String.length num) /\
  1 <= number_den num <= 10 ^ Z.of_nat (String.length num).
Proof.
  intros Hnum. pose proof (number_num_nonneg num Hnum) as H0.
  unfold number_num, number_den in *.
  destruct Hnum as [[_ H]|(a & b & -> & [_ Ha] & [_ Hb])].
  - rewrite split_point_digits in * by assumption. rewrite append_nil_r in *.
    pose proof (digits_value_bound num 0 H ltac:(lia)).
    cbn [String.length]. change (10 ^ Z.of_nat 0) with 1.
    assert (0 < 10 ^ Z.of_nat (String.length num)) by (apply Z.pow_pos_nonneg; lia).
    lia.
  - change ("." ++ b) with (String "." b) in *. rewrite split_point_dot in * by assumption.
    assert (Hab : all_digits (a ++ b) = true) by (rewrite all_digits_app, Ha, Hb; reflexivity).
    pose proof (digits_value_bound (a ++ b) 0 Hab ltac:(lia)) as Hlt.
    rewrite !length_app in *. cbn [String.length].
    assert (Hle1 : 10 ^ Z.of_nat (String.length a + String.length b)
                   <= 10 ^ Z.of_nat (String.length a + S (String.length b)))
      by (apply Z.pow_le_mono_r; lia).
    assert (Hle2 : 10 ^ Z.of_nat (String.length b)
                   <= 10 ^ Z.of_nat (String.length a + S (String.length b)))
      by (apply Z.pow_le_mono_r; lia).
    assert (0 < 10 ^ Z.of_nat (String.length b)) by (apply Z.pow_pos_nonneg; lia).
    lia.
Qed.

Lemma unit_multiplier_cases u :
  unit_multiplier u = 10 ^ 6 \/ unit_multiplier u = 10 ^ 9 \/ unit_multiplier u = 10 ^ 12.
Proof.
  unfold unit_multiplier. destruct (Re.one_of "Mm" u); [auto|].
  destruct (Re.one_of "Bb" u); auto.
Qed.

(** The bounds the magnitudes obey when the number has at most 295
    characters. *)
Lemma short_number_arith n d T Ry :
  T = 10 ^ 6 \/ T = 10 ^ 9 \/ T = 10 ^ 12 ->
  1 <= n < 10 ^ 295 -> 1 <= d <= 10 ^ 295 -> 0 <= Ry ->
  Ry <= Ry * d <= Ry * 10 ^ 295 ->
  - (n * P) <= (Ry * d - n * P) * 2 ^ 53 <= n * P ->
  2 ^ 93 <= Ry /\ Ry * T < 2 ^ 2097.
Proof.
  intros HT Hn Hd HR Hm Hy. unfold P in *.
  destruct HT as [-> | [-> | ->]]; lia.
Qed.


(** *** What a pattern matches *)

Lemma many_in f s a rest :
  In (a, rest) (Re.many f s) <-> s = a ++ rest /\ all_in f a = true.
Proof.
  revert a rest. induction s as [|c s IH]; intros a rest.
  - simpl. split.
    + intros [E|[]]. injection E as <- <-. split; reflexivity.
    + intros [E _]. left. destruct a; [|discriminate]. rewrite append_nil_l in E. congruence.
  - cbn [Re.many]. destruct (f c) eqn:Hc.
    + rewrite List.in_app_iff, List.in_map_iff. split.
      * intros [((a' & r') & E & Hin)|[E|[]]].
        -- injection E as <- <-. apply IH in Hin as [-> Ha].
           split; [reflexivity|]. simpl. rewrite Hc, Ha. reflexivity.
        -- injection E as <- <-. split; reflexivity.
      * intros [E Ha]. destruct a as [|c' a].
        -- right. left. rewrite append_nil_l in E. congruence.
        -- left. rewrite append_cons in E. injection E as <- ->.
           simpl in Ha. apply andb_true_iff in Ha as [_ Ha].
           exists (a, rest). split; [reflexivity|]. apply IH. split; [reflexivity|assumption].
    + split.
      * intros [E|[]]. injection E as <- <-. split; reflexivity.
      * intros [E Ha]. destruct a as [|c' a].
        -- left. rewrite append_nil_l in E. congruence.
        -- rewrite append_cons in E. injection E as <- ->.
           simpl in Ha. rewrite Hc in Ha. discriminate.
Qed.

Lemma rmatch_in r : forall s a rest,
  In (a, rest) (Re.rmatch r s) <-> s = a ++ rest /\ matched r a rest.
Proof.
  induction r as [f|f|r1 IH1 r2 IH2|r IH|]; intros s a rest.
  - destruct s as [|c s].
    + simpl. split; [intros []|]. intros [E (c & -> & _)]. discriminate.
    + rewrite rmatch_class. cbn [matched]. destruct (f c) eqn:Hc.
      * split.
        -- intros [E|[]]. injection E as <- <-. split; [reflexivity|]. exists c. auto.
        -- intros [E (c' & -> & Hc')]. rewrite append_cons, append_nil_l in E.
           injection E as <- <-. left. reflexivity.
      * split; [intros []|]. intros [E (c' & -> & Hc')].
        rewrite append_cons in E. injection E as <- _. congruence.
  - destruct s as [|c s].
    + simpl. split; [intros []|]. intros [E [Hne _]].
      destruct a; [congruence|discriminate].
    + cbn [Re.rmatch matched]. destruct (f c) eqn:Hc.
      * rewrite List.in_map_iff. split.
        -- intros ((a' & r') & E & Hin). injection E as <- <-.
           apply many_in in Hin as [-> Ha]. split; [reflexivity|].
           split; [discriminate|]. simpl. rewrite Hc, Ha. reflexivity.
        -- intros [E [Hne Ha]]. destruct a as [|c' a]; [congruence|].
           rewrite append_cons in E. injection E as <- ->.
           simpl in Ha. apply andb_true_iff in Ha as [_ Ha].
           exists (a, rest). split; [reflexivity|]. apply many_in. auto.
      * split; [intros []|]. intros [E [Hne Ha]]. destruct a as [|c' a]; [congruence|].
        rewrite append_cons in E. injection E as <- ->. simpl in Ha.
        rewrite Hc in Ha. discriminate.
  - rewrite rmatch_seq, List.in_flat_map. cbn [matched]. split.
    + intros ((a1 & r1') & H1 & Hin). apply List.in_map_iff in Hin as ((a2 & r2') & E & H2).
      injection E as <- <-. apply IH1 in H1 as [-> M1]. apply IH2 in H2 as [-> M2].
      split; [rewrite append_assoc; reflexivity|]. exists a1, a2. auto.
    + intros [-> (a1 & a2 & -> & M1 & M2)].
      exists (a1, a2 ++ rest). split.
      * apply IH1. split; [apply append_assoc|assumption].
      * apply List.in_map_iff. exists (a2, rest). split; [reflexivity|].
        apply IH2. auto.
  - rewrite rmatch_opt, List.in_app_iff, IH. cbn [matched]. split.
    + intros [[-> M]|[E|[]]]; [auto|]. injection E as <- <-. auto.
    + intros [-> [M| ->]]; [auto|]. right. left. reflexivity.
  - cbn [Re.rmatch matched]. split.
    + destruct (String.eqb_spec s EmptyString) as [->|Hn]; simpl.
      * intros [E|[]]. injection E as <- <-. auto.
      * destruct (String.eqb_spec s (String "010" EmptyString)) as [->|Hn2]; [|intros []].
        intros [E|[]]. injection E as <- <-. auto.
    + intros [-> [-> H]]. rewrite append_nil_l.
      destruct H as [->| ->]; simpl; left; reflexivity.
Qed.

Lemma matches_iff r s :
  Re.matches r s = true <-> exists a rest, s = a ++ rest /\ matched r a rest.
Proof.
  unfold Re.matches. split.
  - destruct (Re.rmatch r s) as [|[a rest] l] eqn:E; [discriminate|]. intros _.
    exists a, rest. apply rmatch_in. rewrite E. left. reflexivity.
  - intros (a & rest & H). apply rmatch_in in H.
    destruct (Re.rmatch r s); [destruct H|reflexivity].
Qed.

Lemma all_in_digits s : all_in is_digit s = all_digits s.
Proof. induction s as [|c s IH]; [reflexivity|]. simpl. rewrite IH. reflexivity. Qed.

Lemma matched_number a rest : matched Re.number_re a rest <-> number_text a.
Proof.
  unfold Re.number_re, number_text, digit_run. cbn [matched]. split.
  - intros (a1 & a2 & -> & [Hne H1] & [(x & y & -> & (c & -> & Hc) & [Hy1 Hy2])| ->]).
    + right. exists a1, y. rewrite all_in_digits in *.
      apply Ascii.eqb_eq in Hc. subst c. repeat split; auto.
    + left. rewrite append_nil_r, <- all_in_digits. auto.
  - intros [[Hne H]|(x & y & -> & [Hx1 Hx2] & [Hy1 Hy2])].
    + exists a, EmptyString. rewrite append_nil_r, all_in_digits. repeat split; auto.
    + exists x, ("." ++ y). rewrite !all_in_digits. repeat split; auto.
      left. exists ".", y. rewrite all_in_digits. repeat split; auto.
      exists "."%char. split; reflexivity.
Qed.

Lemma matches_cli_pattern s : Re.matches cli_pattern s = true <-> cli_label s.
Proof.
  rewrite matches_iff. unfold cli_pattern, cli_label, size_label. split.
  - intros (a & rest & -> & a1 & a2 & -> & M1 & M2).
    apply matched_number in M1.
    destruct M2 as (u & e & -> & (c & -> & Hc) & [-> Hend]).
    rewrite append_nil_r. destruct Hend as [->| ->].
    + left. rewrite append_nil_r. exists a1, c. auto.
    + right. exists (a1 ++ String c EmptyString). split; [reflexivity|]. exists a1, c. auto.
  - intros [(num & u & -> & Hn & Hu)|(l & -> & num & u & -> & Hn & Hu)].
    + exists (num ++ String u EmptyString), EmptyString. split; [rewrite append_nil_r; reflexivity|].
      exists num, (String u EmptyString). split; [reflexivity|].
      split; [apply matched_number; assumption|].
      exists (String u EmptyString), EmptyString. repeat split; auto. exists u. auto.
    + exists (num ++ String u EmptyString), (String "010" EmptyString). split; [reflexivity|].
      exists num, (String u EmptyString). split; [reflexivity|].
      split; [apply matched_number; assumption|].
      exists (String u EmptyString), EmptyString. repeat split; auto. exists u. auto.
Qed.

(** X1. The route taken by the command line. An argument that is a size
    label, possibly followed by one newline, is handed to [from_params];
    the precision "auto" is then replaced by "all", so [from_params]
    never receives "auto". Every other argument of ASCII characters
    goes to [from_hf] with the precision as chosen. *)
Theorem cli_dispatch_routes s c :
  (cli_label s ->
   cli_dispatch s c =
   Call_from_params (ParamStr s)
     (match c with Choice_auto => VStr "all" | _ => choice_value c end))
  /\ (isascii s = true -> ~ cli_label s ->
      cli_dispatch s c = Call_from_hf s (choice_value c)).
Proof.
  unfold cli_dispatch. cbn [orb]. split.
  - intros H. apply matches_cli_pattern in H. rewrite H. destruct c; reflexivity.
  - intros _ H. destruct (Re.matches cli_pattern s) eqn:E; [|reflexivity].
    exfalso. apply H, matches_cli_pattern, E.
Qed.

Lemma cli_dispatch_routes_witness :
  (cli_label "7B" /\
   cli_dispatch "7B" Choice_auto = Call_from_params (ParamStr "7B") (VStr "all"))
  /\ (isascii "org/7B" = true /\ ~ cli_label "org/7B" /\
      cli_dispatch "org/7B" Choice_auto = Call_from_hf "org/7B" (VStr "auto")).
Proof.
  assert (H : cli_label "7B").
  { left. exists "7", "B"%char. split; [reflexivity|]. split; [|reflexivity].
    left. split; [discriminate|reflexivity]. }
  assert (N : ~ cli_label "org/7B").
  { intros L. apply matches_cli_pattern in L. discriminate L. }
  split; [split; [exact H|apply (proj1 (cli_dispatch_routes "7B" Choice_auto) H)]|].
  split; [reflexivity|]. split; [exact N|].
  apply (proj2 (cli_dispatch_routes "org/7B" Choice_auto) eq_refl N).
Defined.

(** *** The precision resolver *)

(** X2. Without a ["quantization"] entry the resolver, when it returns,
    returns a member of [Precision]: one of 32, 16, 8, 4. *)
Theorem determine_precision_member cfg v :
  cfg !! "quantization" = None -> determine_precision cfg = Ok v ->
  exists p, v = VPrecision p.
Proof.
  intros Hq. unfold determine_precision. rewrite Hq.
  assert (Hd : forall k d,
             (p ← precision_map_get k d; Ok (VPrecision p)) = Ok v -> exists p, v = VPrecision p).
  { intros k d. destruct (precision_map_get k d) as [p|e]; simpl; [|discriminate].
    intros E. injection E as <-. eauto. }
  destruct (cfg !! "quantization_config") as [qc|]; [|apply Hd].
  destruct (dict_get qc "load_in_4bit" VNone) as [b4|]; simpl; [|discriminate].
  destruct (truthy b4); [intros E; injection E as <-; eauto|].
  destruct (dict_get qc "load_in_8bit" VNone) as [b8|]; simpl; [|discriminate].
  destruct (truthy b8); [intros E; injection E as <-; eauto|].
  apply Hd.
Qed.

Lemma determine_precision_member_witness :
  (<["torch_dtype" := VStr "bfloat16"]> ∅ : gmap string value) !! "quantization" = None /\
  determine_precision (<["torch_dtype" := VStr "bfloat16"]> ∅) = Ok (VPrecision BITS_16) /\
  exists p, VPrecision BITS_16 = VPrecision p.
Proof.
  split; [reflexivity|]. split; [reflexivity|].
  apply (determine_precision_member (<["torch_dtype" := VStr "bfloat16"]> ∅));
    reflexivity.
Defined.

(** X3. A ["quantization_config"] mapping decides by its flags, 4-bit
    first: a true [load_in_4bit] gives 4 whatever else is set, else a
    true [load_in_8bit] gives 8; and a mapping with neither flag true
    counts for nothing: the answer is that of the same configuration
    without the entry. *)
Theorem determine_precision_quantization_config cfg qc :
  cfg !! "quantization" = None ->
  cfg !! "quantization_config" = Some (VDict qc) ->
  determine_precision cfg =
  if truthy (default VNone (qc !! "load_in_4bit")) then Ok (VPrecision BITS_4)
  else if truthy (default VNone (qc !! "load_in_8bit")) then Ok (VPrecision BITS_8)
  else determine_precision (delete "quantization_config" cfg).
Proof.
  intros Hq Hqc. unfold determine_precision.
  rewrite Hq, Hqc, lookup_delete_eq.
  rewrite !lookup_delete_ne by discriminate. rewrite Hq. cbn [dict_get].
  destruct (qc !! "load_in_4bit") as [b4|]; cbn [default mbind result_bind];
    destruct (qc !! "load_in_8bit") as [b8|]; cbn [default]; reflexivity.
Qed.

Lemma determine_precision_quantization_config_witness :
  determine_precision
    (<["quantization_config" := VDict (<["bits" := VInt 4]> ∅)]>
       (<["torch_dtype" := VStr "float16"]> ∅))
  = determine_precision
      (delete "quantization_config"
         (<["quantization_config" := VDict (<["bits" := VInt 4]> ∅)]>
            (<["torch_dtype" := VStr "float16"]> ∅))).
Proof.
  etransitivity;
    [apply (determine_precision_quantization_config _ (<["bits" := VInt 4]> ∅)); reflexivity|].
  reflexivity.
Defined.

(** *** Counts below one million *)

Lemma scan_digits_only d : all_digits d = true -> scan d = None.
Proof.
  intros H. unfold scan.
  pose proof (span_digits_run d EmptyString H eq_refl) as E.
  rewrite append_nil_r in E. rewrite E.
  destruct (String.eqb d EmptyString); reflexivity.
Qed.

Lemma str_int_neg p : str_int (Z.neg p) = String "-" (str_int (Z.pos p)).
Proof.
  rewrite str_int_pos. unfold str_int. cbn [Z.to_int NilZero.string_of_int].
  unfold NilZero.string_of_uint.
  pose proof (Unsigned.to_uint_nonnil p). destruct (Pos.to_uint p); congruence.
Qed.

Lemma str_int_unparsed n :
  parse_model_size (str_int n) = Raise (ValueError ("Invalid model size format: " ++ str_int n)).
Proof.
  assert (El : lower (str_int n) = str_int n).
  { destruct n as [|p|p].
    - reflexivity.
    - apply lower_digits, str_int_digit_run. lia.
    - rewrite str_int_neg. simpl. f_equal. apply lower_digits, str_int_digit_run. lia. }
  rewrite <- El at 2. apply parse_model_size_invalid. rewrite El.
  destruct n as [|p|p].
  - reflexivity.
  - apply scan_digits_only, str_int_digit_run. lia.
  - rewrite str_int_neg. reflexivity.
Qed.

(** X4. A count below one million, negative ones included as far as
    [str] converts them (up to 4300 digits), is shown as its plain
    decimal numeral, and that text is not a size label: parsing it
    raises the invalid-format error, so the round trip of larger counts
    has no counterpart here. *)
Theorem format_model_size_below_million n :
  - 10 ^ 4300 < n < 10 ^ 6 ->
  format_model_size n = Ok (str_int n)
  /\ parse_model_size (str_int n)
     = Raise (ValueError ("Invalid model size format: " ++ str_int n)).
Proof.
  intros [_ Hn]. split; [|apply str_int_unparsed].
  unfold format_model_size, format_model_size_loop.
  destruct (Z.leb_spec (ModelSizeUnit_value TRILLION) n) as [H|_];
    [change (ModelSizeUnit_value TRILLION) with (10 ^ 12) in H; lia|].
  destruct (Z.leb_spec (ModelSizeUnit_value BILLION) n) as [H|_];
    [change (ModelSizeUnit_value BILLION) with (10 ^ 9) in H; lia|].
  destruct (Z.leb_spec (ModelSizeUnit_value MILLION) n) as [H|_];
    [change (ModelSizeUnit_value MILLION) with (10 ^ 6) in H; lia|].
  reflexivity.
Qed.

Lemma format_model_size_below_million_witness :
  - 10 ^ 4300 < - (42) < 10 ^ 6 /\ format_model_size (- (42)) = Ok "-42"
  /\ parse_model_size "-42" = Raise (ValueError "Invalid model size format: -42").
Proof.
  assert (H : - 10 ^ 4300 < - (42) < 10 ^ 6).
  { split; [|reflexivity]. apply (proj1 (Z.opp_lt_mono 42 (10 ^ 4300))).
    apply Z.lt_le_trans with (10 ^ 2); [reflexivity|].
    apply Z.pow_le_mono_r; [reflexivity|discriminate]. }
  split; [exact H|]. apply (format_model_size_below_million (- (42)) H).
Defined.

(** *** Integers and powers of two as doubles *)

Lemma of_int_char z S :
  0 < z -> 0 <= S -> 2 ^ (S + 52) <= z * P < 2 ^ (S + 53) ->
  2 ^ 52 <= rne (z * P) (2 ^ S) <= 2 ^ 53 /\
  B64.of_int z = pack_norm false (rne (z * P) (2 ^ S)) S.
Proof.
  intros Hz HS Hb. destruct z as [|p|p]; try lia.
  unfold of_int, binary_normalize, binary_round. rewrite fexp_eq, Z.add_0_r.
  pose proof (Zdigits2_bounds (Z.pos p) Hz) as Hd.
  change (Z.pos (digits2_pos p)) with (Zdigits2 (Z.pos p)).
  set (d := Zdigits2 (Z.pos p)) in *.
  assert (Hd1 : 1 <= d) by (unfold d; simpl; lia).
  assert (HSd : d + 1021 <= S).
  { enough (d + 1073 < S + 53) by lia. apply pow2_lt_inv; try lia.
    replace (d + 1073) with (d - 1 + 1074) by lia. rewrite pow2_split by lia.
    fold P. pose proof P_pos. nia. }
  assert (Hal : exists mz ez, shl_align p 0 (fexp d) = (mz, ez) /\
                              Z.pos mz * 2 ^ (ez + 1074) = Z.pos p * P /\
                              0 <= ez + 1074 <= S).
  { destruct (Z_le_gt_dec d 53) as [Hs|Hl].
    - unfold shl_align, fexp. replace (Z.max (d - 53) (-1074) - 0) with (d - 53) by lia.
      destruct (d - 53) as [|q|q] eqn:E; try lia.
      + exists p, 0. split; [reflexivity|]. split; [reflexivity|lia].
      + exists (Pos.iter xO p q), (d - 53). split; [f_equal; lia|].
        rewrite pos_iter_xO. split; [|lia].
        unfold P. replace (2 ^ 1074) with (2 ^ (Z.pos q + (d - 53 + 1074))) by (f_equal; lia).
        rewrite (pow2_split (Z.pos q) (d - 53 + 1074)) by lia. ring.
    - exists p, 0. split; [|split; [reflexivity|lia]].
      unfold shl_align, fexp.
      destruct (Z.max (d - 53) (-1074) - 0) eqn:E; try reflexivity; lia. }
  destruct Hal as (mz & ez & -> & Emz & Hez).
  rewrite binary_round_aux_exact by lia.
  destruct (round_core_char false (Z.pos mz) 1 ez S) as [Hm Hp]; try lia.
  rewrite Emz, Z.mul_1_l in Hm, Hp. split; assumption.
Qed.

Lemma P_pow k : 0 <= k -> 2 ^ (k + 1074) = 2 ^ k * P.
Proof. intros Hk. unfold P. apply pow2_split; lia. Qed.

Lemma mul_P_lt z k : 0 <= k -> z < 2 ^ k -> z * P < 2 ^ (k + 1074).
Proof. intros Hk Hz. rewrite P_pow by assumption. apply Z.mul_lt_mono_pos_r; [apply P_pos|assumption]. Qed.

Lemma mul_P_le z k : 0 <= k -> 2 ^ k <= z -> 2 ^ (k + 1074) <= z * P.
Proof.
  intros Hk Hz. rewrite P_pow by assumption.
  apply Z.mul_le_mono_nonneg_r; [apply Z.lt_le_incl, P_pos|assumption].
Qed.

(** The binade of a number, from bounds by powers of two. *)
Lemma binade_exp A S a b :
  0 <= S -> 0 <= a -> 0 <= b ->
  2 ^ (S + 52) <= A < 2 ^ (S + 53) -> 2 ^ a <= A < 2 ^ b ->
  a < S + 53 /\ S + 52 < b.
Proof.
  intros HS Ha Hb [Hl Hu] [Hal Hbu]. split; apply pow2_lt_inv; lia.
Qed.

Lemma mant_pow_lt m1 S k :
  0 <= S -> m1 <= 2 ^ 53 -> S + 53 < k -> m1 * 2 ^ S < 2 ^ k.
Proof.
  intros HS Hm Hk. apply Z.le_lt_trans with (2 ^ 53 * 2 ^ S).
  - apply Z.mul_le_mono_nonneg_r; [apply Z.lt_le_incl, pow2_gt0|]; assumption.
  - rewrite <- pow2_split by lia. apply Z.pow_lt_mono_r; lia.
Qed.

Lemma pack_norm_shift m1 S h :
  2 ^ 52 <= m1 <= 2 ^ 53 -> 0 <= S -> 0 <= h -> S + h <= 2044 ->
  exists m e, 2 ^ 52 <= Z.pos m < 2 ^ 53 /\ S - 1074 <= e /\ e + h <= 971 /\
              Z.pos m * 2 ^ (e + 1074) = m1 * 2 ^ S /\
              forall j, 0 <= j <= h -> pack_norm false m1 (S + j) = S754_finite false m (e + j).
Proof.
  intros Hm HS Hh Hlt. unfold pack_norm.
  destruct (Z.eqb_spec m1 (2 ^ 53)) as [E|E].
  - exists (Z.to_pos (2 ^ 52)), (S - 1074 + 1).
    change (Z.pos (Z.to_pos (2 ^ 52))) with (2 ^ 52).
    split; [lia|]. split; [lia|]. split; [lia|]. split.
    + replace (S - 1074 + 1 + 1074) with (1 + S) by lia. rewrite pow2_split, E by lia.
      change (2 ^ 53) with (2 ^ 52 * 2 ^ 1). ring.
    + intros j Hj. rewrite pack_finite by lia. f_equal. lia.
  - exists (Z.to_pos m1), (S - 1074). rewrite Z2Pos.id by lia.
    split; [lia|]. split; [lia|]. split; [lia|]. split.
    + f_equal. f_equal. lia.
    + intros j Hj. rewrite pack_finite by lia. f_equal. lia.
Qed.

Lemma pow2_float h :
  0 <= h <= 3 ->
  B64.div (B64.of_int 32) (B64.of_int (2 ^ (5 - h)))
  = S754_finite false 4503599627370496 (h - 52).
Proof.
  intros Hh. assert (E : h = 0 \/ h = 1 \/ h = 2 \/ h = 3) by lia.
  destruct E as [-> | [-> | [-> | ->]]]; vm_compute; reflexivity.
Qed.

(** [float(z * 2^h) / 2^h = float(z)] *)
Lemma of_int_shift_div z h :
  0 < z -> 0 <= h <= 3 -> z * 2 ^ h < 2 ^ 1023 ->
  B64.div (B64.of_int (z * 2 ^ h)) (S754_finite false 4503599627370496 (h - 52))
  = B64.of_int z.
Proof.
  intros Hz Hh.
  pose proof (pow2_gt0 h ltac:(lia)) as Hph.
  pose proof P_pos as HP.
  assert (HzP : 2 ^ (0 + 1074) <= z * P).
  { apply mul_P_le; [discriminate|]. apply Z.lt_pred_le. exact Hz. }
  destruct (binade_exists (z * P) 1) as (S & HS & Hb).
  { reflexivity. }
  { rewrite Z.mul_1_l. apply Z.le_trans with (2 ^ (0 + 1074)); [apply pow2_le; discriminate|].
    exact HzP. }
  rewrite !Z.mul_1_l in Hb.
  assert (HS2 : 0 + 1074 < S + 53).
  { apply (binade_exp (z * P) S (0 + 1074) (S + 53)); try assumption; try discriminate.
    - apply Z.add_nonneg_nonneg; [assumption|discriminate].
    - split; [assumption|apply Hb]. }
  clear HzP.
  assert (Hbh : 2 ^ (S + h + 52) <= z * 2 ^ h * P < 2 ^ (S + h + 53)).
  { replace (S + h + 52) with (S + 52 + h) by lia.
    replace (S + h + 53) with (S + 53 + h) by lia.
    rewrite (pow2_split (S + 52) h), (pow2_split (S + 53) h) by lia.
    replace (z * 2 ^ h * P) with (z * P * 2 ^ h) by ring.
    split; [apply Z.mul_le_mono_nonneg_r; lia|apply Z.mul_lt_mono_pos_r; lia]. }
  assert (H0 : 0 <= S + h) by lia.
  assert (H1 : 0 <= S + h + 52) by lia.
  intros Hlt.
  assert (HSh : S + h + 52 < 1023 + 1074).
  { apply (binade_exp (z * 2 ^ h * P) (S + h) (S + h + 52) (1023 + 1074));
      try assumption; try discriminate.
    split; [apply Hbh|]. apply mul_P_lt; [discriminate|assumption]. }
  clear Hlt.
  destruct (of_int_char z S Hz HS Hb) as [Hm1 Ez].
  destruct (of_int_char (z * 2 ^ h) (S + h)) as [_ Ezh]; try lia.
  replace (z * 2 ^ h * P) with (z * P * 2 ^ h) in Ezh by ring.
  rewrite (pow2_split S h), rne_scale in Ezh by (try apply pow2_gt0; lia).
  set (m1 := rne (z * P) (2 ^ S)) in *.
  destruct (pack_norm_shift m1 S h) as (m & e & Hm & He & Heu & _ & Hj); try lia.
  rewrite Ezh, Ez, (Hj h) by lia.
  replace (pack_norm false m1 S) with (pack_norm false m1 (S + 0)) by (f_equal; lia).
  rewrite (Hj 0) by lia.
  rewrite div_pow2_normal by (try assumption; try reflexivity; lia).
  cbn [xorb]. f_equal. lia.
Qed.

(** *** The memory estimate, as a scaled integer *)

Lemma memory_scaled p :
  0 < p < 2 ^ 1019 ->
  exists m1 S, 2 ^ 52 <= m1 <= 2 ^ 53 /\ 0 <= S /\ m1 * 2 ^ (S + 3) < 2 ^ 2098 /\
    forall prec, spec_estimateMemoryBytes p prec
                 = pack_norm false m1 (S + (3 - halvings prec)).
Proof.
  intros [Hp0 Hpu].
  pose proof P_pos as HP.
  (* float(p * 4) *)
  assert (Hbig : p * 4 * P < 2 ^ (1021 + 1074)).
  { apply mul_P_lt; [lia|]. change (2 ^ 1021) with (2 ^ 1019 * 4).
    apply Z.mul_lt_mono_pos_r; [reflexivity|assumption]. }
  clear Hpu.
  assert (Hlow : 2 ^ (2 + 1074) <= p * 4 * P).
  { apply mul_P_le; [discriminate|]. change (2 ^ 2) with (1 * 4).
    apply Z.mul_le_mono_nonneg_r; [discriminate|]. apply Z.lt_pred_le. exact Hp0. }
  destruct (binade_exists (p * 4 * P) 1) as (S1 & HS1 & Hb1).
  { reflexivity. }
  { rewrite Z.mul_1_l. apply Z.le_trans with (2 ^ (2 + 1074)); [apply pow2_le; discriminate|].
    exact Hlow. }
  rewrite !Z.mul_1_l in Hb1.
  assert (HS1b : 2 + 1074 < S1 + 53 /\ S1 + 52 < 1021 + 1074).
  { apply (binade_exp (p * 4 * P)); try assumption; try discriminate.
    split; assumption. }
  clear Hbig Hlow.
  destruct (of_int_char (p * 4) S1) as [Hm1' Ex]; try lia.
  set (m1' := rne (p * 4 * P) (2 ^ S1)) in *.
  destruct (pack_norm_shift m1' S1 0) as (m & e & Hm & He & Heu & Em & Hj); try lia.
  specialize (Hj 0 ltac:(lia)). rewrite !Z.add_0_r in Hj. rewrite Z.add_0_r in Heu.
  assert (He2 : e <= S1 - 1073).
  { enough (e + 1074 + 52 < S1 + 54) by lia. apply pow2_lt_inv; try lia.
    rewrite pow2_split by lia.
    apply Z.le_lt_trans with (Z.pos m * 2 ^ (e + 1074)).
    - rewrite Z.mul_comm. apply Z.mul_le_mono_nonneg_r; [apply Z.lt_le_incl, pow2_gt0|]; lia.
    - rewrite Em. apply mant_pow_lt; lia. }
  (* the product with 1.2 *)
  set (mL := 5404319552844595%positive).
  set (A3 := Z.pos m * Z.pos mL * 2 ^ (e + 1019)).
  pose proof (pow2_gt0 (e + 1019) ltac:(lia)) as HpE.
  assert (HmL : 2 ^ 52 <= Z.pos mL < 2 ^ 53) by (unfold mL; lia).
  assert (HA3 : 2 ^ 104 * 2 ^ (e + 1019) <= A3 < 2 ^ 106 * 2 ^ (e + 1019)).
  { unfold A3. change (2 ^ 104) with (2 ^ 52 * 2 ^ 52). change (2 ^ 106) with (2 ^ 53 * 2 ^ 53).
    split.
    - apply Z.mul_le_mono_nonneg_r; [lia|]. apply Z.mul_le_mono_nonneg; lia.
    - apply Z.mul_lt_mono_pos_r; [lia|]. apply Z.mul_lt_mono_nonneg; lia. }
  rewrite <- !pow2_split in HA3 by lia.
  destruct (binade_exists A3 1) as (S3 & HS3 & Hb3); [lia| |].
  { apply Z.le_trans with (2 ^ (104 + (e + 1019))); [|lia].
    rewrite Z.mul_1_l. apply pow2_le; lia. }
  rewrite !Z.mul_1_l in Hb3.
  destruct (binade_exp A3 S3 (104 + (e + 1019)) (106 + (e + 1019))) as [HS3l HS3u]; try lia.
  set (m1 := rne A3 (2 ^ S3)).
  assert (Hm1 : 2 ^ 52 <= m1 <= 2 ^ 53).
  { destruct (mul_char m (e - 3) mL (-52) S3) as [H _]; try lia.
    - replace (e - 3 + -52 + 1074) with (e + 1019) by lia. exact Hb3.
    - replace (e - 3 + -52 + 1074) with (e + 1019) in H by lia. exact H. }
  exists m1, S3. split; [assumption|]. split; [assumption|]. split.
  { apply mant_pow_lt; lia. }
  intros prec. unfold spec_estimateMemoryBytes.
  pose proof (halvings_range prec) as Hh. set (h := halvings prec) in *.
  assert (Hb : B64.div (B64.of_int 32) (B64.of_int (Precision_value prec))
               = S754_finite false 4503599627370496 (h - 52))
    by (unfold h; destruct prec; vm_compute; reflexivity).
  rewrite Hb, Ex, Hj, div_pow2_normal by (try assumption; try reflexivity; lia).
  cbn [xorb]. change lit_1_2 with (S754_finite false mL (-52)).
  pose proof (pow2_gt0 (3 - h) ltac:(lia)) as Hph.
  destruct (mul_char m (e - h) mL (-52) (S3 + (3 - h))) as [_ Hmul].
  { lia. }
  { replace (e - h + -52 + 1074) with (e + 1019 + (3 - h)) by lia.
    replace (S3 + (3 - h) + 52) with (S3 + 52 + (3 - h)) by lia.
    replace (S3 + (3 - h) + 53) with (S3 + 53 + (3 - h)) by lia.
    rewrite (pow2_split (e + 1019)), (pow2_split (S3 + 52)), (pow2_split (S3 + 53)) by lia.
    rewrite Z.mul_assoc. fold A3.
    split; [apply Z.mul_le_mono_nonneg_r; lia|apply Z.mul_lt_mono_pos_r; lia]. }
  rewrite Hmul. f_equal.
  replace (e - h + -52 + 1074) with (e + 1019 + (3 - h)) by lia.
  rewrite (pow2_split (e + 1019)), (pow2_split S3) by lia.
  rewrite Z.mul_assoc. fold A3. apply rne_scale; [apply pow2_gt0|]; lia.
Qed.

Lemma calculate_memory_ok p prec :
  0 <= p < 2 ^ 1019 ->
  calculate_memory p (Precision_num prec) = Ok (spec_estimateMemoryBytes p prec).
Proof.
  intros [H0 Hu]. apply calculate_memory_eq; [exact H0|].
  apply Z.lt_trans with (2 ^ 1019 * 4); [|reflexivity].
  apply Z.mul_lt_mono_pos_r; [reflexivity|exact Hu].
Qed.

Lemma count_small n : 0 <= n <= 2 ^ 54 -> 0 <= n < 2 ^ 1019.
Proof.
  intros [H0 H1]. split; [exact H0|].
  apply Z.le_lt_trans with (2 ^ 54); [exact H1|reflexivity].
Qed.

Lemma memory_value p prec :
  0 <= p < 2 ^ 1019 ->
  B64.valid (spec_estimateMemoryBytes p prec) = true /\
  B64.is_finite (spec_estimateMemoryBytes p prec) = true /\
  nonneg (spec_estimateMemoryBytes p prec) = true /\
  B2S (spec_estimateMemoryBytes p prec) * 32
  = B2S (spec_estimateMemoryBytes p BITS_32) * Precision_value prec.
Proof.
  intros [Hp0 Hpu]. destruct (Z.eq_dec p 0) as [->|Hne].
  { destruct prec; vm_compute; repeat split; reflexivity. }
  assert (Hp : 0 < p < 2 ^ 1019).
  { split; [|exact Hpu]. apply Z.le_neq. split; [exact Hp0|].
    intros E. apply Hne. symmetry. exact E. }
  clear Hpu. keep Hp.
  destruct (memory_scaled p Hp) as (m1 & S & Hm1 & HS & Hfin & Hs). keep Hfin.
  pose proof (halvings_range prec) as Hh.
  pose proof (pow2_gt0 S HS) as HpS.
  assert (Hj : forall j, 0 <= j <= 3 ->
             exists m e, pack_norm false m1 (S + j) = S754_finite false m e /\
                         B64.valid (S754_finite false m e) = true /\
                         B2S (S754_finite false m e) = m1 * 2 ^ S * 2 ^ j).
  { intros j Hj. destruct (pack_norm_finite m1 (S + j)) as (m & e & E & V & B); try lia.
    - apply Z.le_lt_trans with (m1 * 2 ^ (S + 3)); [|exact Hfin].
      apply Z.mul_le_mono_nonneg_l; [lia|]. apply pow2_le; lia.
    - exists m, e. rewrite B, pow2_split by lia. repeat split; try assumption. ring. }
  rewrite !Hs. simpl (halvings BITS_32). rewrite Z.sub_0_r.
  destruct (Hj 3 ltac:(lia)) as (m3 & e3 & -> & _ & ->).
  destruct (Hj (3 - halvings prec) ltac:(lia)) as (m & e & -> & V & ->).
  split; [assumption|]. split; [reflexivity|]. split; [reflexivity|].
  destruct prec; simpl; lia.
Qed.

(** X5. The memory estimate is exactly proportional to the bit width. For
    a parameter count [0 <= p < 2^1019] the four estimates are finite
    doubles, and the estimate at a precision is the 32-bit estimate
    times [precision / 32], with no rounding between them ([B2S] is the
    value of a double in units of [2^-1074]). *)
Theorem calculate_memory_proportional p :
  0 <= p < 2 ^ 1019 ->
  exists m32,
    calculate_memory p (Precision_num BITS_32) = Ok m32 /\
    forall prec, exists m,
      calculate_memory p (Precision_num prec) = Ok m /\
      B64.is_finite m = true /\
      B2S m * 32 = B2S m32 * Precision_value prec.
Proof.
  intros Hp. exists (spec_estimateMemoryBytes p BITS_32).
  split; [apply calculate_memory_ok; exact Hp|].
  intros prec. exists (spec_estimateMemoryBytes p prec).
  split; [apply calculate_memory_ok; exact Hp|].
  destruct (memory_value p prec Hp) as (_ & F & _ & E). split; assumption.
Qed.

Lemma calculate_memory_proportional_witness :
  0 <= 7000000000 < 2 ^ 1019 /\
  exists m32,
    calculate_memory 7000000000 (Precision_num BITS_32) = Ok m32 /\
    forall prec, exists m,
      calculate_memory 7000000000 (Precision_num prec) = Ok m /\
      B64.is_finite m = true /\
      B2S m * 32 = B2S m32 * Precision_value prec.
Proof.
  split; [lia|]. apply (calculate_memory_proportional 7000000000). lia.
Defined.

(** *** A file size through the estimate and back *)

Lemma memory_of_estimate f prec :
  0 <= f <= 2 ^ 53 -> (Precision_value prec | f * 8) ->
  spec_estimateMemoryBytes (spec_estimateParameterCount f prec) prec
  = B64.mul (B64.of_int f) lit_1_2.
Proof.
  intros Hf [q Hq]. unfold spec_estimateParameterCount.
  rewrite Hq, ceil_div_exact by (destruct prec; simpl; lia).
  destruct (Z.eq_dec f 0) as [->|Hne].
  { assert (q = 0) by (destruct prec; simpl in Hq; lia). subst q.
    destruct prec; vm_compute; reflexivity. }
  unfold spec_estimateMemoryBytes. f_equal.
  pose proof (halvings_range prec) as Hh.
  assert (Hb : B64.div (B64.of_int 32) (B64.of_int (Precision_value prec))
               = S754_finite false 4503599627370496 (halvings prec - 52))
    by (destruct prec; vm_compute; reflexivity).
  assert (E : q * 4 = f * 2 ^ halvings prec) by (destruct prec; simpl in *; lia).
  rewrite Hb, E. apply of_int_shift_div; try lia.
  apply Z.le_lt_trans with (2 ^ 53 * 2 ^ 3); [|reflexivity].
  apply Z.mul_le_mono_nonneg; try lia. apply pow2_le; lia.
Qed.

Lemma estimate_count_bounds f prec :
  0 <= f <= 2 ^ 53 -> 0 <= spec_estimateParameterCount f prec <= 2 ^ 54.
Proof.
  intros Hf. unfold spec_estimateParameterCount, ceil_div.
  destruct prec; simpl Precision_value.
  - pose proof (Z.div_mod (- (f * 8)) 32 ltac:(lia)).
    pose proof (Z.mod_pos_bound (- (f * 8)) 32 ltac:(lia)). lia.
  - pose proof (Z.div_mod (- (f * 8)) 16 ltac:(lia)).
    pose proof (Z.mod_pos_bound (- (f * 8)) 16 ltac:(lia)). lia.
  - pose proof (Z.div_mod (- (f * 8)) 8 ltac:(lia)).
    pose proof (Z.mod_pos_bound (- (f * 8)) 8 ltac:(lia)). lia.
  - pose proof (Z.div_mod (- (f * 8)) 4 ltac:(lia)).
    pose proof (Z.mod_pos_bound (- (f * 8)) 4 ltac:(lia)). lia.
Qed.

Lemma from_hf_fixed gs gc fs name f prec pv :
  gs name = Ok f -> 0 <= f <= 2 ^ 53 ->
  pv = VInt (Precision_value prec) \/ pv = VPrecision prec ->
  from_hf gs gc fs name pv =
  Ok ("Required GPU Memory[" ++ name ++ ", precision: "
      ++ str_int (Precision_value prec) ++ "]: "
      ++ spec_humanizeBytes
           (spec_estimateMemoryBytes (spec_estimateParameterCount f prec) prec)).
Proof.
  intros Hgs Hf Hpv. unfold from_hf. rewrite Hgs. cbn [mbind result_bind].
  pose proof (estimate_count_bounds f prec Hf) as Hn.
  assert (Hrest :
    (num_params ← estimate_parameters f (Precision_num prec);
     gpu_mem ← calculate_memory num_params (Precision_num prec);
     h ← convert_bytes_to_human_readable gpu_mem;
     Ok ("Required GPU Memory[" ++ name ++ ", precision: "
         ++ str_int (Precision_value prec) ++ "]: " ++ h))
    = Ok ("Required GPU Memory[" ++ name ++ ", precision: "
          ++ str_int (Precision_value prec) ++ "]: "
          ++ spec_humanizeBytes
               (spec_estimateMemoryBytes (spec_estimateParameterCount f prec) prec))).
  { rewrite estimate_parameters_exact by assumption. cbn [mbind result_bind].
    rewrite calculate_memory_ok by (apply count_small; exact Hn). cbn [mbind result_bind].
    rewrite convert_bytes_eq; [reflexivity|].
    apply memory_value, count_small. exact Hn. }
  destruct Hpv as [-> | ->]; cbn [eq_str as_num mbind result_bind format_precision];
    exact Hrest.
Qed.

(** X6. With an explicit precision, the memory [from_hf] reports does not
    depend on that precision. For a file of [0 <= f <= 2^53] bytes whose
    bit count the precision divides, the parameter estimate and the
    memory estimate cancel: the figure is [float(f) * 1.2], formatted,
    whether the precision is given as the number or as the member of
    [Precision]; only the label of the report names the precision. *)
Theorem from_hf_precision_cancels gs gc fs name f prec pv :
  gs name = Ok f -> 0 <= f <= 2 ^ 53 -> (Precision_value prec | f * 8) ->
  pv = VInt (Precision_value prec) \/ pv = VPrecision prec ->
  from_hf gs gc fs name pv =
  Ok ("Required GPU Memory[" ++ name ++ ", precision: "
      ++ str_int (Precision_value prec) ++ "]: "
      ++ spec_humanizeBytes (B64.mul (B64.of_int f) lit_1_2)).
Proof.
  intros Hgs Hf Hdiv Hpv.
  rewrite (from_hf_fixed gs gc fs name f prec pv) by assumption.
  rewrite memory_of_estimate by assumption. reflexivity.
Qed.

Lemma from_hf_precision_cancels_witness :
  0 <= 14000000000 <= 2 ^ 53 /\ (Precision_value BITS_16 | 14000000000 * 8) /\
  from_hf (fun _ => Ok 14000000000) (fun _ => Ok ∅) (fun _ => "") "org/model" (VInt 16) =
  Ok ("Required GPU Memory[org/model, precision: 16]: "
      ++ spec_humanizeBytes (B64.mul (B64.of_int 14000000000) lit_1_2)).
Proof.
  split; [lia|]. split; [exists 7000000000; reflexivity|].
  apply (from_hf_precision_cancels _ _ _ "org/model" 14000000000 BITS_16);
    [reflexivity|lia|exists 7000000000; reflexivity|left; reflexivity].
Defined.

(** *** The memory estimate against the exact formula *)

Lemma of_int_rounds z :
  0 < z < 2 ^ 1023 -> rounds_to (B64.of_int z) (z * P) 1.
Proof.
  intros [Hz Hzu].
  assert (Hbig : z * P < 2 ^ 2097) by (apply (mul_P_lt z 1023); [discriminate|exact Hzu]).
  clear Hzu. keep Hbig.
  assert (HzP : 2 ^ (0 + 1074) <= z * P).
  { apply mul_P_le; [discriminate|]. apply Z.lt_pred_le. exact Hz. }
  destruct (binade_exists (z * P) 1) as (S & HS & Hb).
  { reflexivity. }
  { rewrite Z.mul_1_l. apply Z.le_trans with (2 ^ (0 + 1074)); [apply pow2_le; discriminate|].
    exact HzP. }
  clear HzP.
  destruct (of_int_char z S) as [Hm1 ->]; try lia.
  apply pack_norm_rounds; try lia.
  - rewrite Z.mul_1_l. reflexivity.
  - split; [lia|]. rewrite Z.mul_1_l. exact Hbig.
Qed.

Lemma memory_accuracy_arith p X Y M :
  0 <= p -> X = Y * 2 ^ 52 ->
  - (4 * p * P) <= (X - 4 * p * P) * 2 ^ 53 <= 4 * p * P ->
  - (Y * 5404319552844595) <= (M - Y * 5404319552844595) * 2 ^ 53 <= Y * 5404319552844595 ->
  - (96 * p * P) <= (20 * M - 96 * p * P) * 2 ^ 51 <= 96 * p * P.
Proof.
  intros Hp -> HX HM.
  assert (0 <= p * P) by (apply Z.mul_nonneg_nonneg; [lia|apply Z.lt_le_incl, P_pos]).
  lia.
Qed.

Lemma memory_accuracy_32 p :
  0 < p < 2 ^ 1019 ->
  - (96 * p * P) <= (20 * B2S (spec_estimateMemoryBytes p BITS_32) - 96 * p * P) * 2 ^ 51
  <= 96 * p * P.
Proof.
  intros [Hp0 Hpu]. unfold spec_estimateMemoryBytes.
  pose proof P_pos as HP.
  assert (Hbig : p * 16 * P < 2 ^ 2097).
  { apply (mul_P_lt (p * 16) 1023); [discriminate|].
    change (2 ^ 1023) with (2 ^ 1019 * 16). apply Z.mul_lt_mono_pos_r; [reflexivity|exact Hpu]. }
  assert (H4 : 0 < p * 4 < 2 ^ 1023).
  { split; [apply Z.mul_pos_pos; [exact Hp0|reflexivity]|].
    apply Z.lt_trans with (2 ^ 1019 * 4); [|reflexivity].
    apply Z.mul_lt_mono_pos_r; [reflexivity|exact Hpu]. }
  clear Hpu. keep Hbig. keep H4.
  destruct (of_int_rounds (p * 4) H4) as (mx & ex & Ex & Vx & Hx).
  rewrite Z.mul_1_r in Hx. rewrite Ex in Vx, Hx |- *.
  pose proof (valid_finite_inv _ _ _ Vx) as (Hex & Hdx & Hnx).
  assert (Hux : Z.pos mx < 2 ^ 53).
  { pose proof (Zdigits2_bounds (Z.pos mx) ltac:(lia)) as [_ Hu].
    pose proof (pow2_le (Zdigits2 (Z.pos mx)) 53 Hdx (Zdigits2_nonneg _)). lia. }
  cbn [B2S signed] in Hx.
  pose proof (pow2_gt0 (ex + 1074) ltac:(lia)) as Hpx.
  assert (HpP : P <= p * P).
  { rewrite <- (Z.mul_1_l P) at 1. apply Z.mul_le_mono_nonneg_r; lia. }
  assert (Hel : -52 < ex).
  { enough (1 + 1074 < 53 + (ex + 1074)) by lia. apply pow2_lt_inv; try lia.
    rewrite (pow2_split 1 1074), (pow2_split 53 (ex + 1074)) by lia. fold P.
    apply Z.le_lt_trans with (Z.pos mx * 2 ^ (ex + 1074)); [lia|].
    apply Z.mul_lt_mono_pos_r; lia. }
  specialize (Hnx ltac:(lia)).
  change (B64.div (B64.of_int 32) (B64.of_int (Precision_value BITS_32)))
    with (S754_finite false 4503599627370496 (0 - 52)).
  rewrite div_pow2_normal by (try assumption; try reflexivity; lia).
  cbn [xorb]. rewrite Z.sub_0_r.
  change lit_1_2 with (S754_finite false 5404319552844595 (-52)).
  set (Y := Z.pos mx * 2 ^ (ex + 1022)).
  assert (HY : 0 < Y) by (apply Z.mul_pos_pos; [lia|apply pow2_gt0; lia]).
  assert (EX : Z.pos mx * 2 ^ (ex + 1074) = Y * 2 ^ 52).
  { unfold Y. replace (ex + 1074) with (ex + 1022 + 52) by lia.
    rewrite pow2_split by lia. ring. }
  rewrite EX in Hx.
  destruct (mul_rounds mx ex 5404319552844595 (-52)) as (mz & ez & Ez & Vz & Hz).
  { lia. }
  { apply Z.le_trans with (1 * Z.pos 5404319552844595); [lia|].
    apply Z.mul_le_mono_nonneg_r; lia. }
  { replace (ex + -52 + 1074) with (ex + 1022) by lia.
    replace (Z.pos mx * Z.pos 5404319552844595 * 2 ^ (ex + 1022))
      with (Y * 5404319552844595) by (unfold Y; ring).
    apply Z.le_lt_trans with (p * 16 * P); [lia|exact Hbig]. }
  replace (ex + -52 + 1074) with (ex + 1022) in Hz by lia.
  replace (Z.pos mx * Z.pos 5404319552844595 * 2 ^ (ex + 1022))
    with (Y * 5404319552844595) in Hz by (unfold Y; ring).
  rewrite Z.mul_1_r in Hz.
  apply (memory_accuracy_arith p (Y * 2 ^ 52) Y); try assumption; try lia.
Qed.

(** X18. The memory estimate agrees with the formula it implements. For a
    parameter count [0 <= p < 2^1019] the double returned is within a
    relative error of [2^-51] of [p * precision / 8 * 1.2], that is of
    [3 p precision / 20] bytes. *)
Theorem calculate_memory_accuracy p prec :
  0 <= p < 2 ^ 1019 ->
  exists m,
    calculate_memory p (Precision_num prec) = Ok m /\ B64.is_finite m = true /\
    - (3 * p * Precision_value prec * P)
    <= (20 * B2S m - 3 * p * Precision_value prec * P) * 2 ^ 51
    <= 3 * p * Precision_value prec * P.
Proof.
  intros Hp. exists (spec_estimateMemoryBytes p prec).
  split; [apply calculate_memory_ok; exact Hp|].
  destruct (memory_value p prec Hp) as (_ & F & _ & E). split; [assumption|].
  destruct (Z.eq_dec p 0) as [->|Hne].
  { destruct prec; vm_compute; split; discriminate. }
  assert (Hp' : 0 < p < 2 ^ 1019).
  { split; [|apply Hp]. apply Z.le_neq. split; [apply Hp|].
    intros E0. apply Hne. symmetry. exact E0. }
  pose proof (memory_accuracy_32 p Hp') as H32.
  set (M := B2S (spec_estimateMemoryBytes p prec)) in *.
  set (M32 := B2S (spec_estimateMemoryBytes p BITS_32)) in *.
  clearbody M M32. clear - E H32.
  destruct prec; simpl Precision_value in *; lia.
Qed.

Lemma calculate_memory_accuracy_witness :
  0 <= 7000000000 < 2 ^ 1019 /\
  exists m,
    calculate_memory 7000000000 (Precision_num BITS_16) = Ok m /\ B64.is_finite m = true /\
    - (3 * 7000000000 * Precision_value BITS_16 * P)
    <= (20 * B2S m - 3 * 7000000000 * Precision_value BITS_16 * P) * 2 ^ 51
    <= 3 * 7000000000 * Precision_value BITS_16 * P.
Proof.
  split; [lia|]. apply (calculate_memory_accuracy 7000000000 BITS_16). lia.
Defined.

(** *** How close a parsed label is to the number written *)

Lemma parse_accuracy_arith n d T Ry Rz v :
  T = 10 ^ 6 \/ T = 10 ^ 9 \/ T = 10 ^ 12 ->
  0 < n -> 0 < d -> 0 <= v ->
  - (n * P) <= (Ry - n * P) * 2 ^ 53 <= n * P ->
  - (Ry * T) <= (Rz - Ry * T) * 2 ^ 53 <= Ry * T ->
  v * P <= Rz < (v + d) * P ->
  2 ^ 51 * (v - n * T) <= n * T /\ 2 ^ 51 * (n * T - (v + d)) < n * T.
Proof.
  intros HT Hn Hd Hv Hy Hz Hvz. pose proof P_pos as HP. split.
  - apply (Z.mul_le_mono_pos_r _ _ P HP). destruct HT as [-> | [-> | ->]]; lia.
  - apply (Z.mul_lt_mono_pos_r P _ _ HP). destruct HT as [-> | [-> | ->]]; lia.
Qed.

Lemma P_binade_side z : 0 < z -> 1 * 2 ^ 52 <= z * P.
Proof.
  intros Hz. rewrite Z.mul_1_l.
  apply Z.le_trans with (2 ^ (0 + 1074)); [apply pow2_le; discriminate|].
  apply mul_P_le; [discriminate|]. apply Z.lt_pred_le. exact Hz.
Qed.

Lemma short_ratio_side n d :
  1 <= n < 10 ^ 295 -> 1 <= d <= 10 ^ 295 ->
  d * 2 ^ 52 <= n * P /\ n * P < d * 2 ^ 2097.
Proof.
  intros [Hn1 Hnu] [Hd1 Hdu]. pose proof P_pos as HP. split.
  - apply Z.le_trans with (10 ^ 295 * 2 ^ 52).
    + apply Z.mul_le_mono_nonneg_r; [discriminate|exact Hdu].
    + apply Z.le_trans with (1 * P); [vm_compute; discriminate|].
      apply Z.mul_le_mono_nonneg_r; [apply Z.lt_le_incl, HP|exact Hn1].
  - apply Z.lt_le_trans with (10 ^ 295 * P).
    + apply Z.mul_lt_mono_pos_r; [exact HP|exact Hnu].
    + apply Z.le_trans with (1 * 2 ^ 2097); [vm_compute; discriminate|].
      apply Z.mul_le_mono_nonneg_r; [discriminate|exact Hd1].
Qed.

Lemma spec_parse_value_accuracy num u :
  number_text num -> (String.length num <= 295)%nat ->
  exists v, spec_parse_value num u = Ok v /\ 0 <= v /\
    2 ^ 51 * (v * number_den num - number_num num * unit_multiplier u)
      <= number_num num * unit_multiplier u /\
    2 ^ 51 * (number_num num * unit_multiplier u - (v + 1) * number_den num)
      < number_num num * unit_multiplier u.
Proof.
  intros Hnum Hlen. unfold spec_parse_value. rewrite float_of_decimal_eq.
  destruct (number_bounds num Hnum) as [[Hn0 Hnu] [Hd1 Hdu]].
  assert (Hpow : 10 ^ Z.of_nat (String.length num) <= 10 ^ 295)
    by (apply Z.pow_le_mono_r; lia).
  assert (Hnb : number_num num < 10 ^ 295) by (apply Z.lt_le_trans with (1 := Hnu); exact Hpow).
  assert (Hdb : number_den num <= 10 ^ 295) by (apply Z.le_trans with (1 := Hdu); exact Hpow).
  clear Hpow Hnu Hdu. keep Hnb. keep Hdb.
  pose proof (unit_multiplier_cases u) as HT.
  destruct (unit_float _ HT) as (mT & eT & -> & HeT & EmT & HmT).
  set (T := unit_multiplier u) in *.
  assert (HT0 : 0 < T) by (destruct HT as [-> | [-> | ->]]; reflexivity).
  destruct (Z.eqb_spec (number_num num) 0) as [E0|E0].
  - exists 0. rewrite E0. split; [reflexivity|]. lia.
  - set (n := number_num num) in *. set (d := number_den num) in *.
    assert (Hn1 : 1 <= n) by lia.
    destruct (short_ratio_side n d (conj Hn1 Hnb) (conj Hd1 Hdb)) as [Hs1 Hs2]. keep Hs2.
    destruct (of_ratio_rounds n d ltac:(lia) ltac:(lia) Hs1 Hs2) as (my & ey & Ey & Vy & Hy).
    set (Ry := B2S (B64.of_ratio false n d)) in *.
    assert (HR0 : 0 <= Ry).
    { unfold Ry. rewrite Ey. apply B2S_nonneg. reflexivity. }
    assert (Hmid : Ry <= Ry * d <= Ry * 10 ^ 295).
    { split.
      - rewrite <- (Z.mul_1_r Ry) at 1. apply Z.mul_le_mono_nonneg_l; [exact HR0|exact Hd1].
      - apply Z.mul_le_mono_nonneg_l; [exact HR0|exact Hdb]. }
    keep Hmid.
    destruct (short_number_arith n d T Ry HT (conj Hn1 Hnb) (conj Hd1 Hdb) HR0 Hmid Hy)
      as [Hyl Hyu].
    keep Hyu.
    rewrite Ey in Vy. pose proof (valid_finite_inv _ _ _ Vy) as (Hey & Hdy & _).
    assert (Hmy : Z.pos my < 2 ^ 53).
    { pose proof (Zdigits2_bounds (Z.pos my) ltac:(lia)) as [_ Hu].
      pose proof (pow2_le _ 53 Hdy (Zdigits2_nonneg _)). lia. }
    assert (ERy : Ry = Z.pos my * 2 ^ (ey + 1074)) by (unfold Ry; rewrite Ey; reflexivity).
    assert (Hey2 : 40 < ey + 1074).
    { apply pow2_lt_inv; try lia.
      pose proof (pow2_gt0 (ey + 1074) ltac:(lia)) as Hp.
      change (2 ^ 93) with (2 ^ 53 * 2 ^ 40) in Hyl.
      rewrite ERy in Hyl. clear - Hyl Hmy Hp. nia. }
    set (k := ey + eT + 1074).
    assert (EA : Z.pos my * Z.pos mT * 2 ^ k = Ry * T).
    { rewrite ERy, EmT. replace (ey + 1074) with (k + - eT) by (unfold k; lia).
      rewrite pow2_split by (unfold k; lia). ring. }
    rewrite Ey.
    destruct (mul_rounds my ey mT eT) as (mz & ez & Ez & Vz & Hz); fold k.
    { unfold k. lia. }
    { apply Z.le_trans with (1 * Z.pos mT); [lia|].
      apply Z.mul_le_mono_nonneg_r; lia. }
    { rewrite EA. exact Hyu. }
    fold k in Hz. rewrite EA in Hz.
    rewrite Ez in Vz. pose proof (valid_finite_inv _ _ _ Vz) as (Hez & _ & _).
    rewrite Ez. unfold int_of_float. rewrite trunc_B2S by lia. rewrite <- Ez.
    set (Rz := B2S (B64.mul (S754_finite false my ey) (S754_finite false mT eT))) in *.
    assert (HRz0 : 0 <= Rz).
    { unfold Rz. rewrite Ez. apply B2S_nonneg. reflexivity. }
    exists (Rz / P). split; [reflexivity|].
    pose proof P_pos as HP.
    pose proof (Z.div_mod Rz P ltac:(lia)) as Hdm.
    pose proof (Z.mod_pos_bound Rz P HP) as Hmod.
    assert (Hv0 : 0 <= Rz / P) by (apply Z.div_pos; lia).
    split; [assumption|].
    set (v := Rz / P) in *.
    destruct (parse_accuracy_arith n d T (Ry * d) (Rz * d) (v * d)) as [H1 H2];
      try assumption; try lia.
    + rewrite Z.mul_1_r in Hz.
      replace (Ry * d * T) with (Ry * T * d) by ring.
      replace ((Rz * d - Ry * T * d) * 2 ^ 53) with ((Rz - Ry * T) * 2 ^ 53 * d) by ring.
      assert (0 <= Ry * T) by (apply Z.mul_nonneg_nonneg; lia).
      clear - Hz Hd1 H. split.
      * rewrite <- Z.mul_opp_l. apply Z.mul_le_mono_nonneg_r; lia.
      * apply Z.mul_le_mono_nonneg_r; lia.
    + replace (v * d * P) with (v * P * d) by ring.
      replace ((v * d + d) * P) with ((v + 1) * P * d) by ring.
      split; [apply Z.mul_le_mono_nonneg_r; lia|apply Z.mul_lt_mono_pos_r; lia].
Qed.

Lemma spec_parse_value_bound num u :
  number_text num -> (String.length num <= 290)%nat ->
  exists v, spec_parse_value num u = Ok v /\ 0 <= v < 2 ^ 1019.
Proof.
  intros Hnum Hlen.
  destruct (spec_parse_value_accuracy num u Hnum ltac:(lia)) as (v & E & Hv & Hu & _).
  exists v. split; [assumption|]. split; [assumption|].
  destruct (number_bounds num Hnum) as [[Hn0 Hnu] [Hd1 _]].
  assert (Hvd : v <= v * number_den num).
  { rewrite <- (Z.mul_1_r v) at 1. apply Z.mul_le_mono_nonneg_l; lia. }
  assert (HT : 0 <= unit_multiplier u <= 10 ^ 12)
    by (destruct (unit_multiplier_cases u) as [-> | [-> | ->]]; lia).
  assert (H2 : v <= 2 * (number_num num * unit_multiplier u)).
  { assert (0 <= number_num num * unit_multiplier u) by (apply Z.mul_nonneg_nonneg; lia).
    clear - Hu Hvd H Hv. lia. }
  assert (Hpow : 10 ^ Z.of_nat (String.length num) <= 10 ^ 290)
    by (apply Z.pow_le_mono_r; lia).
  apply Z.le_lt_trans with (1 := H2).
  apply Z.le_lt_trans with (2 * (10 ^ 290 * 10 ^ 12)); [|reflexivity].
  apply Z.mul_le_mono_nonneg_l; [discriminate|].
  apply Z.mul_le_mono_nonneg; [exact Hn0| |apply HT|apply HT].
  apply Z.lt_le_incl, Z.lt_le_trans with (1 := Hnu). exact Hpow.
Qed.

(** X7. The value returned for a label is the number written times the
    multiplier of its unit, truncated, up to the rounding of two
    floating-point operations. With [n / d] the number as written and
    [T] the multiplier, a label whose number has at most 295 characters
    gives an integer [v >= 0] with
    [v <= (n T / d) (1 + 2^-51)] and [v + 1 > (n T / d) (1 - 2^-51)]. *)
Theorem parse_model_size_accuracy num u rest :
  number_text num -> unit_letter u = true -> (String.length num <= 295)%nat ->
  exists v, parse_model_size (num ++ String u rest) = Ok v /\ 0 <= v /\
    2 ^ 51 * (v * number_den num - number_num num * unit_multiplier u)
      <= number_num num * unit_multiplier u /\
    2 ^ 51 * (number_num num * unit_multiplier u - (v + 1) * number_den num)
      < number_num num * unit_multiplier u.
Proof.
  intros Hnum Hu Hlen. rewrite parse_model_size_label by assumption.
  apply spec_parse_value_accuracy; assumption.
Qed.

Lemma parse_model_size_accuracy_witness :
  number_text "8.2" /\ unit_letter "M" = true /\ (String.length "8.2" <= 295)%nat /\
  exists v, parse_model_size "8.2M" = Ok v /\ 0 <= v /\
    2 ^ 51 * (v * number_den "8.2" - number_num "8.2" * unit_multiplier "M")
      <= number_num "8.2" * unit_multiplier "M" /\
    2 ^ 51 * (number_num "8.2" * unit_multiplier "M" - (v + 1) * number_den "8.2")
      < number_num "8.2" * unit_multiplier "M".
Proof.
  assert (Hn : number_text "8.2").
  { right. exists "8", "2". repeat split; try discriminate; reflexivity. }
  split; [exact Hn|]. split; [reflexivity|]. split; [simpl; lia|].
  apply (parse_model_size_accuracy "8.2" "M"%char "" Hn eq_refl). simpl; lia.
Defined.

(** *** Whole numbers *)

Lemma pack_norm_exact q S :
  0 < q < 2 ^ 53 -> 0 <= S -> 2 ^ (S + 52) <= q * P < 2 ^ (S + 53) ->
  exists m e, pack_norm false (rne (q * P) (2 ^ S)) S = S754_finite false m e /\
              B64.valid (S754_finite false m e) = true /\
              B2S (S754_finite false m e) = q * P.
Proof.
  intros Hq HS Hb.
  assert (HSu : S + 52 < 53 + 1074).
  { assert (H1 : 0 <= S + 52) by lia.
    apply (binade_exp (q * P) S (S + 52) (53 + 1074) HS H1 ltac:(discriminate) Hb).
    split; [apply Hb|]. apply mul_P_lt; [discriminate|apply Hq]. }
  pose proof (pow2_gt0 S HS) as HpS.
  pose proof (pow2_gt0 (1074 - S) ltac:(lia)) as HpR.
  assert (EP : q * P = q * 2 ^ (1074 - S) * 2 ^ S).
  { unfold P. replace 1074 with (1074 - S + S) at 1 by lia.
    rewrite (pow2_split (1074 - S) S) by lia. ring. }
  rewrite EP, rne_mul by lia.
  rewrite (pow2_split S 52), (pow2_split S 53), EP in Hb by lia.
  destruct (pack_norm_finite (q * 2 ^ (1074 - S)) S) as (m & e & E & V & B); try lia.
  - split.
    + apply Z.mul_le_mono_pos_r with (2 ^ S); lia.
    + apply Z.lt_le_incl. apply Z.mul_lt_mono_pos_r with (2 ^ S); lia.
  - rewrite <- EP. apply Z.lt_trans with (2 ^ (53 + 1074)); [|reflexivity].
    apply mul_P_lt; [discriminate|apply Hq].
  - exists m, e. repeat split; assumption.
Qed.

Lemma of_ratio_multiple k d :
  0 < k < 2 ^ 53 -> 0 < d ->
  exists m e, B64.of_ratio false (k * d) d = S754_finite false m e /\
              B64.valid (S754_finite false m e) = true /\
              B2S (S754_finite false m e) = k * P.
Proof.
  intros Hk Hd.
  destruct (binade_exists (k * P) 1) as (S & HS & Hb); [lia|apply P_binade_side; lia|].
  rewrite !Z.mul_1_l in Hb.
  destruct (of_ratio_char false (k * d) d S) as [_ E]; try lia.
  { replace (k * d * P) with (d * (k * P)) by ring.
    split; [apply Z.mul_le_mono_nonneg_l; lia|apply Z.mul_lt_mono_pos_l; lia]. }
  replace (k * d * P) with (k * P * d) in E by ring.
  rewrite (Z.mul_comm d (2 ^ S)), rne_scale in E by (try apply pow2_gt0; lia).
  rewrite E. apply pack_norm_exact; lia.
Qed.

Lemma mul_unit_exact my ey k T :
  T = 10 ^ 6 \/ T = 10 ^ 9 \/ T = 10 ^ 12 ->
  B64.valid (S754_finite false my ey) = true ->
  B2S (S754_finite false my ey) = k * P -> 0 < k -> k * T < 2 ^ 53 ->
  int_of_float (B64.mul (S754_finite false my ey) (B64.of_int T)) = Ok (k * T).
Proof.
  intros HT Vy By Hk Hlt.
  destruct (unit_float _ HT) as (mT & eT & -> & HeT & EmT & HmT).
  assert (HT0 : 10 ^ 6 <= T) by (destruct HT as [-> | [-> | ->]]; lia).
  pose proof (valid_finite_inv _ _ _ Vy) as (Hey & Hdy & Hny).
  assert (Hmy : Z.pos my < 2 ^ 53).
  { pose proof (Zdigits2_bounds (Z.pos my) ltac:(lia)) as [_ Hu].
    pose proof (pow2_le _ 53 Hdy (Zdigits2_nonneg _)). lia. }
  cbn [B2S signed] in By.
  assert (Hey2 : -53 < ey).
  { enough (0 + 1074 < 53 + (ey + 1074)) by lia. apply pow2_lt_inv; try lia.
    rewrite (pow2_split 53 (ey + 1074)) by lia.
    apply Z.le_lt_trans with (k * P).
    - apply mul_P_le; [discriminate|]. apply Z.lt_pred_le. exact Hk.
    - rewrite <- By. apply Z.mul_lt_mono_pos_r; [apply pow2_gt0; lia|exact Hmy]. }
  specialize (Hny ltac:(lia)).
  set (j := ey + eT + 1074).
  assert (EA : Z.pos my * Z.pos mT * 2 ^ j = k * T * P).
  { rewrite EmT. replace (k * T * P) with (k * P * T) by ring. rewrite <- By.
    replace (ey + 1074) with (j + - eT) by (unfold j; lia).
    rewrite pow2_split by (unfold j; lia). ring. }
  destruct (binade_exists (k * T * P) 1) as (S' & HS' & Hb');
    [lia|apply P_binade_side, Z.mul_pos_pos; lia|].
  rewrite !Z.mul_1_l in Hb'.
  assert (Hj : j + 51 < S').
  { enough (104 + j < S' + 53) by lia. apply pow2_lt_inv; try (unfold j; lia).
    apply Z.le_lt_trans with (k * T * P); [|lia]. rewrite <- EA, pow2_split by (unfold j; lia).
    change (2 ^ 104) with (2 ^ 52 * 2 ^ 52).
    apply Z.mul_le_mono_nonneg_r; [apply Z.lt_le_incl, pow2_gt0; unfold j; lia|].
    apply Z.mul_le_mono_nonneg; lia. }
  destruct (mul_char my ey mT eT S') as [_ Ez]; fold j.
  { unfold j in *. lia. }
  { rewrite EA. assumption. }
  fold j in Ez. rewrite EA in Ez.
  destruct (pack_norm_exact (k * T) S') as (mz & ez & Ez2 & Vz & Bz); try lia.
  rewrite Ez, Ez2. pose proof (valid_finite_inv _ _ _ Vz) as (Hez & _ & _).
  unfold int_of_float. rewrite trunc_B2S, Bz by lia.
  rewrite Z.div_mul by (pose proof P_pos; lia). reflexivity.
Qed.

Lemma spec_parse_value_integer num u :
  digit_run num -> digits_value 0 num * unit_multiplier u < 2 ^ 53 ->
  spec_parse_value num u = Ok (digits_value 0 num * unit_multiplier u).
Proof.
  intros [Hne Hd] Hlt. unfold spec_parse_value. rewrite float_of_decimal_eq.
  unfold number_num, number_den. rewrite split_point_digits by assumption.
  rewrite append_nil_r. change (10 ^ Z.of_nat (String.length EmptyString)) with 1.
  pose proof (digits_value_nonneg num 0 Hd ltac:(lia)) as Hk.
  set (k := digits_value 0 num) in *.
  pose proof (unit_multiplier_cases u) as HT.
  assert (HT0 : 10 ^ 6 <= unit_multiplier u) by (destruct HT as [-> | [-> | ->]]; lia).
  destruct (Z.eqb_spec k 0) as [E0|E0].
  { rewrite E0. destruct (unit_float _ HT) as (mT & eT & -> & _). reflexivity. }
  assert (Hk53 : k < 2 ^ 53) by nia.
  destruct (of_ratio_multiple k 1) as (my & ey & Ey & Vy & By); try lia.
  rewrite Z.mul_1_r in Ey. rewrite Ey.
  apply mul_unit_exact; try assumption; lia.
Qed.

(** X8. A label whose number is a whole number parses exactly as long as
    the product fits in 53 bits: the result is the number times the
    multiplier of the unit, with no rounding. *)
Theorem parse_model_size_integer_exact num u rest :
  digit_run num -> unit_letter u = true ->
  digits_value 0 num * unit_multiplier u < 2 ^ 53 ->
  parse_model_size (num ++ String u rest) = Ok (digits_value 0 num * unit_multiplier u).
Proof.
  intros Hd Hu Hlt. rewrite parse_model_size_label by (try left; assumption).
  apply spec_parse_value_integer; assumption.
Qed.

Lemma parse_model_size_integer_exact_witness :
  digit_run "405" /\ unit_letter "B" = true /\
  digits_value 0 "405" * unit_multiplier "B" < 2 ^ 53 /\
  parse_model_size "405B" = Ok 405000000000.
Proof.
  assert (Hd : digit_run "405") by (split; [discriminate|reflexivity]).
  split; [exact Hd|]. split; [reflexivity|]. split; [reflexivity|].
  apply (parse_model_size_integer_exact "405" "B"%char "" Hd eq_refl). reflexivity.
Defined.

(** *** The label of a count *)

Lemma label_arith n T Rx r :
  T = 10 ^ 6 \/ T = 10 ^ 9 \/ T = 10 ^ 12 ->
  - (n * P) <= (Rx * T - n * P) * 2 ^ 53 <= n * P ->
  - P <= 2 * (r * P - 10 * Rx) <= P ->
  - (2 ^ 53 * T + 20 * n) <= 2 ^ 54 * (r * T - 10 * n) <= 2 ^ 53 * T + 20 * n.
Proof.
  intros HT Hx Hr. pose proof P_pos as HP.
  split; apply (Z.mul_le_mono_pos_r _ _ P HP); destruct HT as [-> | [-> | ->]]; lia.
Qed.

Lemma format_unit n T :
  T = 10 ^ 6 \/ T = 10 ^ 9 \/ T = 10 ^ 12 -> T <= n <= 2 ^ 1022 ->
  exists x r,
    truediv (NInt n) (NInt T) = Ok x /\ format_fixed 1 x = tenths_text r /\ 10 <= r /\
    - (2 ^ 53 * T + 20 * n) <= 2 ^ 54 * (r * T - 10 * n) <= 2 ^ 53 * T + 20 * n.
Proof.
  intros HT [HTn Hnu]. keep Hnu.
  assert (HT0 : 10 ^ 6 <= T) by (destruct HT as [-> | [-> | ->]]; lia).
  destruct (unit_ratio_side n T ltac:(lia) Hnu) as [Hs1 Hs2]. keep Hs2.
  destruct (of_ratio_rounds n T ltac:(lia) ltac:(lia) Hs1 Hs2) as (mx & ex & Ex & Vx & Hx).
  set (Rx := B2S (B64.of_ratio false n T)) in *.
  exists (S754_finite false mx ex).
  cbn [truediv]. rewrite int_truediv_pos, Ex by lia.
  rewrite Ex in Vx. pose proof (valid_finite_inv _ _ _ Vx) as (Hex & _ & _).
  rewrite format_fixed_1, scaled_digits_B2S by lia.
  rewrite <- Ex. fold Rx.
  set (r := rne (10 * Rx) P).
  pose proof (rne_err (10 * Rx) P P_pos) as Hr. fold r in Hr.
  destruct (roundtrip_side n T Rx r HT HTn Hnu Hx Hr) as (Hr10 & _ & _).
  exists r. split; [reflexivity|]. split; [reflexivity|]. split; [assumption|].
  apply (label_arith n T Rx r); assumption.
Qed.

Lemma format_model_size_unit n :
  10 ^ 6 <= n ->
  format_model_size n =
  (x ← truediv (NInt n) (NInt (fst (size_unit n)));
   Ok (format_fixed 1 x ++ snd (size_unit n))).
Proof.
  intros Hn. unfold format_model_size, format_model_size_loop, size_unit.
  change (ModelSizeUnit_value TRILLION) with (10 ^ 12).
  change (ModelSizeUnit_value BILLION) with (10 ^ 9).
  change (ModelSizeUnit_value MILLION) with (10 ^ 6).
  destruct (Z.leb_spec (10 ^ 12) n); [reflexivity|].
  destruct (Z.leb_spec (10 ^ 9) n); [reflexivity|].
  destruct (Z.leb_spec (10 ^ 6) n); [reflexivity|lia].
Qed.

Lemma size_unit_cases n :
  10 ^ 6 <= n ->
  (fst (size_unit n) = 10 ^ 6 \/ fst (size_unit n) = 10 ^ 9 \/ fst (size_unit n) = 10 ^ 12)
  /\ fst (size_unit n) <= n
  /\ exists U, snd (size_unit n) = String U EmptyString /\ unit_letter U = true.
Proof.
  intros Hn. unfold size_unit.
  destruct (Z.leb_spec (10 ^ 12) n); [|destruct (Z.leb_spec (10 ^ 9) n)]; cbn [fst snd].
  - split; [auto|]. split; [lia|]. exists "T"%char. split; reflexivity.
  - split; [auto|]. split; [lia|]. exists "B"%char. split; reflexivity.
  - split; [auto|]. split; [lia|]. exists "M"%char. split; reflexivity.
Qed.

(** X9. The label of a count [10^6 <= n <= 2^1022] is a number with one
    decimal followed by the unit of the largest threshold not above
    [n]. The number, [r] tenths, is at least 1.0 and is [n / threshold]
    rounded to one decimal: [|r T - 10 n| <= T / 2 + 10 n / 2^53], the
    last term being the rounding of the division itself. *)
Theorem format_model_size_label n :
  10 ^ 6 <= n <= 2 ^ 1022 ->
  exists r,
    format_model_size n = Ok (tenths_text r ++ snd (size_unit n)) /\ 10 <= r /\
    - (2 ^ 53 * fst (size_unit n) + 20 * n)
    <= 2 ^ 54 * (r * fst (size_unit n) - 10 * n)
    <= 2 ^ 53 * fst (size_unit n) + 20 * n.
Proof.
  intros [Hn Hnu]. keep Hnu. rewrite format_model_size_unit by assumption.
  destruct (size_unit_cases n Hn) as (HT & HTn & _).
  destruct (format_unit n (fst (size_unit n)) HT (conj HTn Hnu))
    as (x & r & Ex & Ef & Hr & Hacc).
  rewrite Ex. cbn [mbind result_bind]. rewrite Ef.
  exists r. split; [reflexivity|]. split; assumption.
Qed.

Lemma format_model_size_label_witness :
  10 ^ 6 <= 7000000000 <= 2 ^ 1022 /\
  exists r,
    format_model_size 7000000000 = Ok (tenths_text r ++ snd (size_unit 7000000000)) /\
    10 <= r /\
    - (2 ^ 53 * fst (size_unit 7000000000) + 20 * 7000000000)
    <= 2 ^ 54 * (r * fst (size_unit 7000000000) - 10 * 7000000000)
    <= 2 ^ 53 * fst (size_unit 7000000000) + 20 * 7000000000.
Proof.
  split; [lia|]. apply (format_model_size_label 7000000000). lia.
Defined.

Lemma format_model_size_returns n :
  n <= 2 ^ 1022 -> exists label, format_model_size n = Ok label.
Proof.
  intros Hn. keep Hn. destruct (Z_lt_le_dec n (10 ^ 6)) as [Hs|Hl].
  - exists (str_int n). unfold format_model_size, format_model_size_loop.
    change (ModelSizeUnit_value TRILLION) with (10 ^ 12).
    change (ModelSizeUnit_value BILLION) with (10 ^ 9).
    change (ModelSizeUnit_value MILLION) with (10 ^ 6).
    destruct (Z.leb_spec (10 ^ 12) n); [lia|].
    destruct (Z.leb_spec (10 ^ 9) n); [lia|].
    destruct (Z.leb_spec (10 ^ 6) n); [lia|reflexivity].
  - rewrite format_model_size_unit by assumption.
    destruct (size_unit_cases n Hl) as (HT & HTn & _).
    destruct (format_unit n (fst (size_unit n)) HT (conj HTn Hn)) as (x & r & Ex & _).
    rewrite Ex. eexists. reflexivity.
Qed.

(** X10. A label made by [format_model_size] is one the command line takes
    for a parameter count: for [10^6 <= n <= 2^1022] the label is a size
    label, so [cli] hands it to [from_params], whatever the precision
    chosen. *)
Theorem format_model_size_cli n :
  10 ^ 6 <= n <= 2 ^ 1022 ->
  exists label,
    format_model_size n = Ok label /\ size_label label /\
    forall c, exists p, cli_dispatch label c = Call_from_params (ParamStr label) p.
Proof.
  intros [Hn Hnu]. keep Hnu. rewrite format_model_size_unit by assumption.
  destruct (size_unit_cases n Hn) as (HT & HTn & U & EU & HU).
  destruct (format_unit n (fst (size_unit n)) HT (conj HTn Hnu))
    as (x & r & Ex & Ef & Hr & _).
  rewrite Ex. cbn [mbind result_bind]. rewrite Ef, EU. eexists. split; [reflexivity|].
  assert (Hl : size_label (tenths_text r ++ String U EmptyString)).
  { exists (tenths_text r), U. split; [reflexivity|].
    split; [apply tenths_text_number; lia|assumption]. }
  split; [assumption|]. intros c.
  unfold cli_dispatch. cbn [orb].
  assert (Hm : Re.matches cli_pattern (tenths_text r ++ String U EmptyString) = true)
    by (apply matches_cli_pattern; left; assumption).
  rewrite Hm. eexists. reflexivity.
Qed.

Lemma format_model_size_cli_witness :
  10 ^ 6 <= 1500000000000 <= 2 ^ 1022 /\
  exists label,
    format_model_size 1500000000000 = Ok label /\ size_label label /\
    forall c, exists p, cli_dispatch label c = Call_from_params (ParamStr label) p.
Proof.
  split; [lia|]. apply (format_model_size_cli 1500000000000). lia.
Defined.

(** *** The report for all precisions *)

Lemma calculate_all_precisions_loop_eq n :
  0 <= n < 2 ^ 1019 ->
  calculate_all_precisions_loop n Precision_members
  = Ok [report_line n BITS_32; report_line n BITS_16; report_line n BITS_8; report_line n BITS_4].
Proof.
  intros Hn. unfold Precision_members. cbn [calculate_all_precisions_loop].
  rewrite !calculate_memory_ok by exact Hn. cbn [mbind result_bind].
  rewrite !convert_bytes_eq by (apply memory_value; assumption).
  reflexivity.
Qed.

Lemma count_fits n : 0 <= n < 2 ^ 1019 -> n <= 2 ^ 1022.
Proof.
  intros [_ Hu]. apply Z.le_trans with (2 ^ 1019); [apply Z.lt_le_incl, Hu|discriminate].
Qed.

Lemma calculate_all_precisions_returns n name :
  0 <= n < 2 ^ 1019 -> exists text, calculate_all_precisions n name = Ok text.
Proof.
  intros Hn.
  destruct (format_model_size_returns n (count_fits n Hn)) as (label & El).
  unfold calculate_all_precisions.
  rewrite calculate_all_precisions_loop_eq by assumption. cbn [mbind result_bind].
  rewrite El. cbn [mbind result_bind].
  destruct name as [s|]; [destruct (negb (String.eqb s ""))|]; eexists; reflexivity.
Qed.

(** X11. For a count [0 <= n < 2^1019] the report for all precisions is
    always produced: a header with the label of the count (and the
    model name, when one is given and is not empty), then one line per
    precision, in the order 32, 16, 8, 4. *)
Theorem calculate_all_precisions_report n name :
  0 <= n < 2 ^ 1019 ->
  exists label,
    format_model_size n = Ok label /\
    calculate_all_precisions n name =
    Ok ((match name with
         | Some s => if String.eqb s "" then "Required GPU Memory[parameters: " ++ label ++ "]"
                     else "Required GPU Memory[" ++ s ++ ", parameters: " ++ label ++ "]"
         | None => "Required GPU Memory[parameters: " ++ label ++ "]"
         end)
        ++ String "010" EmptyString
        ++ join_lines [report_line n BITS_32; report_line n BITS_16;
                       report_line n BITS_8; report_line n BITS_4]).
Proof.
  intros Hn.
  destruct (format_model_size_returns n (count_fits n Hn)) as (label & El).
  exists label. split; [assumption|].
  unfold calculate_all_precisions.
  rewrite calculate_all_precisions_loop_eq by assumption. cbn [mbind result_bind].
  rewrite El. cbn [mbind result_bind].
  destruct name as [s|]; [destruct (String.eqb s "")|]; cbn [negb];
    rewrite !append_assoc; reflexivity.
Qed.

Lemma calculate_all_precisions_report_witness :
  0 <= 7000000000 < 2 ^ 1019 /\
  exists label,
    format_model_size 7000000000 = Ok label /\
    calculate_all_precisions 7000000000 None =
    Ok (("Required GPU Memory[parameters: " ++ label ++ "]")
        ++ String "010" EmptyString
        ++ join_lines [report_line 7000000000 BITS_32; report_line 7000000000 BITS_16;
                       report_line 7000000000 BITS_8; report_line 7000000000 BITS_4]).
Proof.
  split; [lia|]. apply (calculate_all_precisions_report 7000000000 None). lia.
Defined.

(** *** The command line on a size label *)

Lemma from_params_label fs num u pv :
  number_text num -> unit_letter u = true -> (String.length num <= 290)%nat ->
  pv = VStr "all" \/ (exists prec, pv = VInt (Precision_value prec)) ->
  exists text, from_params fs (ParamStr (num ++ String u EmptyString)) pv = Ok text /\
               forall fs', from_params fs' (ParamStr (num ++ String u EmptyString)) pv = Ok text.
Proof.
  intros Hnum Hu Hlen Hpv. unfold from_params.
  rewrite parse_model_size_label by assumption.
  destruct (spec_parse_value_bound num u Hnum Hlen) as (v & -> & Hv).
  cbn [mbind result_bind].
  destruct (format_model_size_returns v (count_fits v Hv)) as (label & El).
  destruct Hpv as [-> | (prec & ->)].
  - cbn [eq_str]. change (String.eqb "all" "all") with true. cbv iota.
    destruct (calculate_all_precisions_returns v None Hv) as (text & ->).
    eexists. split; [reflexivity|]. intros _. reflexivity.
  - cbn [eq_str as_num mbind result_bind format_precision].
    change (NInt (Precision_value prec)) with (Precision_num prec).
    rewrite calculate_memory_ok by exact Hv. cbn [mbind result_bind].
    rewrite El. cbn [mbind result_bind].
    rewrite convert_bytes_eq by (apply memory_value; assumption).
    eexists. split; [reflexivity|]. intros _. reflexivity.
Qed.

(** X12. On a size label the command line always prints a report. For a
    label whose number has at most 290 characters and every choice of
    [--precision], [cli] returns a text, without raising; the registry
    is not consulted, so the text is the same whatever the registry
    would answer. *)
Theorem cli_label_report gs gc fs num u c :
  number_text num -> unit_letter u = true -> (String.length num <= 290)%nat ->
  exists text,
    cli gs gc fs (num ++ String u EmptyString) c = Ok text /\
    forall gs' gc' fs', cli gs' gc' fs' (num ++ String u EmptyString) c = Ok text.
Proof.
  intros Hnum Hu Hlen. unfold cli, cli_dispatch. cbn [orb].
  assert (Hm : Re.matches cli_pattern (num ++ String u EmptyString) = true).
  { apply matches_cli_pattern. left. exists num, u. auto. }
  rewrite Hm. cbn [run_call].
  destruct (from_params_label fs num u
              (if eq_str (choice_value c) "auto" then VStr "all" else choice_value c)
              Hnum Hu Hlen) as (text & E & Hall).
  { destruct c; cbn.
    - left; reflexivity.
    - left; reflexivity.
    - right; exists BITS_32; reflexivity.
    - right; exists BITS_16; reflexivity.
    - right; exists BITS_8; reflexivity.
    - right; exists BITS_4; reflexivity. }
  exists text. split; [assumption|]. intros gs' gc' fs'. apply Hall.
Qed.

Lemma cli_label_report_witness :
  number_text "1.5" /\ unit_letter "t" = true /\ (String.length "1.5" <= 290)%nat /\
  exists text,
    cli (fun _ => Raise KeyError) (fun _ => Raise KeyError) (fun _ => "") "1.5t" Choice_auto
    = Ok text /\
    forall gs' gc' fs', cli gs' gc' fs' "1.5t" Choice_auto = Ok text.
Proof.
  assert (Hn : number_text "1.5").
  { right. exists "1", "5". repeat split; try discriminate; reflexivity. }
  split; [exact Hn|]. split; [reflexivity|]. split; [simpl; lia|].
  apply (cli_label_report _ _ _ "1.5" "t"%char Choice_auto Hn eq_refl). simpl; lia.
Defined.

(** *** Whole multiples of a unit, there and back *)

Lemma size_unit_multiple k T :
  T = 10 ^ 6 \/ T = 10 ^ 9 \/ T = 10 ^ 12 -> 1 <= k -> (T < 10 ^ 12 -> k < 1000) ->
  fst (size_unit (k * T)) = T /\
  exists U, snd (size_unit (k * T)) = String U EmptyString /\ unit_letter U = true /\
            unit_multiplier U = T.
Proof.
  intros HT Hk Hs. unfold size_unit.
  destruct HT as [-> | [-> | ->]].
  - destruct (Z.leb_spec (10 ^ 12) (k * 10 ^ 6)); [lia|].
    destruct (Z.leb_spec (10 ^ 9) (k * 10 ^ 6)); [lia|].
    split; [reflexivity|]. exists "M"%char. repeat split.
  - destruct (Z.leb_spec (10 ^ 12) (k * 10 ^ 9)); [lia|].
    destruct (Z.leb_spec (10 ^ 9) (k * 10 ^ 9)); [|lia].
    split; [reflexivity|]. exists "B"%char. repeat split.
  - destruct (Z.leb_spec (10 ^ 12) (k * 10 ^ 12)); [|lia].
    split; [reflexivity|]. exists "T"%char. repeat split.
Qed.

(** X19. A whole multiple of its unit survives the round trip unchanged.
    For [n = k T] with [T] one of [10^6], [10^9], [10^12], [k >= 1]
    (and [k < 1000] below the last unit, so that [T] is the unit
    chosen) and [n < 2^53], the label is [k.0] followed by the unit and
    parsing it gives [n] back. *)
Theorem round_trip_whole_units k T :
  T = 10 ^ 6 \/ T = 10 ^ 9 \/ T = 10 ^ 12 ->
  1 <= k -> (T < 10 ^ 12 -> k < 1000) -> k * T < 2 ^ 53 ->
  exists U,
    format_model_size (k * T) = Ok (tenths_text (10 * k) ++ String U EmptyString) /\
    parse_model_size (tenths_text (10 * k) ++ String U EmptyString) = Ok (k * T).
Proof.
  intros HT Hk Hs Hlt.
  assert (HT0 : 10 ^ 6 <= T) by (destruct HT as [-> | [-> | ->]]; lia).
  assert (Hk53 : k < 2 ^ 53) by nia.
  destruct (size_unit_multiple k T HT Hk Hs) as (ET & U & EU & HU & HUT).
  exists U. split.
  - rewrite format_model_size_unit by nia. rewrite ET, EU.
    cbn [truediv]. rewrite int_truediv_pos by nia.
    destruct (of_ratio_multiple k T) as (m & e & E & V & B); try lia.
    rewrite E. cbn [mbind result_bind].
    pose proof (valid_finite_inv _ _ _ V) as (He & _ & _).
    rewrite format_fixed_1, scaled_digits_B2S, B by lia.
    replace (10 * (k * P)) with (10 * k * P) by ring.
    rewrite rne_mul by apply P_pos. reflexivity.
  - rewrite parse_model_size_label by (try apply tenths_text_number; try assumption; lia).
    unfold spec_parse_value. rewrite float_of_decimal_eq.
    destruct (tenths_text_value (10 * k) ltac:(lia)) as [-> ->].
    destruct (Z.eqb_spec (10 * k) 0); [lia|].
    rewrite (Z.mul_comm 10 k).
    destruct (of_ratio_multiple k 10) as (my & ey & Ey & Vy & By); try lia.
    rewrite Ey, HUT. apply mul_unit_exact; try assumption; lia.
Qed.

Lemma round_trip_whole_units_witness :
  exists U,
    format_model_size (405 * 10 ^ 9) = Ok (tenths_text (10 * 405) ++ String U EmptyString) /\
    parse_model_size (tenths_text (10 * 405) ++ String U EmptyString) = Ok (405 * 10 ^ 9).
Proof.
  apply (round_trip_whole_units 405 (10 ^ 9)); [right; left; reflexivity|lia|lia|lia].
Defined.

(** *** The registry query *)

Lemma get_model_file_size_loop_first fm name pre f post :
  Forall (fun g => is_model_file g = false) pre -> is_model_file f = true ->
  get_model_file_size_loop fm name (pre ++ f :: post)%list =
  match fm name f with
  | Returns size => Ok size
  | Raises e => Raise (ValueError ("Failed to get model file size: " ++ hub_exn_str e))
  end.
Proof.
  intros Hpre Hf. induction Hpre as [|g pre Hg _ IH]; cbn [app get_model_file_size_loop].
  - rewrite Hf. reflexivity.
  - rewrite Hg. exact IH.
Qed.

Lemma get_model_file_size_loop_none fm name siblings :
  Forall (fun g => is_model_file g = false) siblings ->
  get_model_file_size_loop fm name siblings = Ok None.
Proof.
  intros H. induction H as [|g l Hg _ IH]; cbn [get_model_file_size_loop]; [reflexivity|].
  rewrite Hg. exact IH.
Qed.

(** X14. The fall-back for a repository without safetensors looks at the
    first listed file that has one of the seven known model file names,
    and at no other: its size is the answer, and when it has none, or
    when no listed file has a known name, the query fails with
    "Model size can't be obtained", whatever the files listed after it. *)
Theorem get_model_size_fallback mi fm st name t :
  st name = Raises (NotASafetensorsRepoError t) ->
  (forall pre f post,
      mi name = Returns (pre ++ f :: post)%list ->
      Forall (fun g => is_model_file g = false) pre -> is_model_file f = true ->
      (forall z, fm name f = Returns (Some z) -> get_model_size mi fm st name = Ok z)
      /\ (fm name f = Returns None ->
          get_model_size mi fm st name
          = Raise (ValueError ("Model size can't be obtained from the model repo: " ++ name))))
  /\ (forall siblings,
        mi name = Returns siblings ->
        Forall (fun g => is_model_file g = false) siblings ->
        get_model_size mi fm st name
        = Raise (ValueError ("Model size can't be obtained from the model repo: " ++ name))).
Proof.
  intros Hst. unfold get_model_size, get_model_file_size. rewrite Hst. split.
  - intros pre f post Hmi Hpre Hf. rewrite Hmi.
    rewrite get_model_file_size_loop_first by assumption.
    split; [intros z E|intros E]; rewrite E; reflexivity.
  - intros siblings Hmi Hall. rewrite Hmi.
    rewrite get_model_file_size_loop_none by assumption. reflexivity.
Qed.

Lemma get_model_size_fallback_witness :
  get_model_size
    (fun _ => Returns ["README.md"; "model.onnx"; "pytorch_model.bin"])
    (fun _ f => if String.eqb f "model.onnx" then Returns (Some 1000) else Returns (Some 5000))
    (fun _ => Raises (NotASafetensorsRepoError "no safetensors")) "org/model"
  = Ok 1000.
Proof.
  apply (proj1 (get_model_size_fallback
                  (fun _ => Returns ["README.md"; "model.onnx"; "pytorch_model.bin"])
                  (fun _ f => if String.eqb f "model.onnx" then Returns (Some 1000)
                              else Returns (Some 5000))
                  (fun _ => Raises (NotASafetensorsRepoError "no safetensors"))
                  "org/model" "no safetensors" eq_refl)
               ["README.md"] "model.onnx" ["pytorch_model.bin"]).
  - reflexivity.
  - repeat constructor.
  - reflexivity.
  - reflexivity.
Defined.

(** *** The precision found in the configuration *)

Lemma determine_precision_cases cfg :
  cfg !! "quantization" = None ->
  (exists p, determine_precision cfg = Ok (VPrecision p))
  \/ exists e, determine_precision cfg = Raise e.
Proof.
  intros Hq. unfold determine_precision. rewrite Hq.
  assert (Hd : forall k d,
             (exists p, (p ← precision_map_get k d; Ok (VPrecision p)) = Ok (VPrecision p))
             \/ exists e, (p ← precision_map_get k d; Ok (VPrecision p)) = Raise e).
  { intros k d. destruct (precision_map_get k d) as [p|e]; cbn [mbind result_bind]; eauto. }
  destruct (cfg !! "quantization_config") as [qc|]; [|apply Hd].
  destruct (dict_get qc "load_in_4bit" VNone) as [b4|]; cbn [mbind result_bind]; [|eauto].
  destruct (truthy b4); [eauto|].
  destruct (dict_get qc "load_in_8bit" VNone) as [b8|]; cbn [mbind result_bind]; [|eauto].
  destruct (truthy b8); [eauto|]. apply Hd.
Qed.

(** X15. With the precision "auto", a file of [0 <= f <= 2^53] bytes and a
    configuration without a ["quantization"] entry, [from_hf] reports
    whenever the precision can be determined: the precision found is a
    member of [Precision], and the report is the one for that explicit
    precision. *)
Theorem from_hf_auto_report gs gc fs name f cfg v :
  gs name = Ok f -> 0 <= f <= 2 ^ 53 ->
  gc name = Ok cfg -> cfg !! "quantization" = None ->
  determine_precision cfg = Ok v ->
  exists prec,
    v = VPrecision prec /\
    from_hf gs gc fs name (VStr "auto") =
    Ok ("Required GPU Memory[" ++ name ++ ", precision: "
        ++ str_int (Precision_value prec) ++ "]: "
        ++ spec_humanizeBytes
             (spec_estimateMemoryBytes (spec_estimateParameterCount f prec) prec))
    /\ from_hf gs gc fs name (VStr "auto") = from_hf gs gc fs name (VPrecision prec).
Proof.
  intros Hgs Hf Hgc Hq Hv.
  destruct (determine_precision_cases cfg Hq) as [(prec & E)|(e & E)]; [|congruence].
  exists prec. split; [congruence|].
  assert (Hauto : from_hf gs gc fs name (VStr "auto") = from_hf gs gc fs name (VPrecision prec)).
  { unfold from_hf. rewrite Hgs. cbn [mbind result_bind eq_str].
    change (String.eqb "auto" "auto") with true. cbv iota.
    rewrite Hgc. cbn [mbind result_bind]. rewrite E. reflexivity. }
  split; [|exact Hauto]. rewrite Hauto.
  apply from_hf_fixed; [assumption|assumption|right; reflexivity].
Qed.

Lemma from_hf_auto_report_witness :
  exists prec,
    VPrecision BITS_4 = VPrecision prec /\
    from_hf (fun _ => Ok 4000000000)
            (fun _ => Ok (<["quantization_config" :=
                              VDict (<["load_in_4bit" := VBool true]> ∅)]> ∅))
            (fun _ => "") "org/model" (VStr "auto") =
    Ok ("Required GPU Memory[" ++ "org/model" ++ ", precision: "
        ++ str_int (Precision_value prec) ++ "]: "
        ++ spec_humanizeBytes
             (spec_estimateMemoryBytes (spec_estimateParameterCount 4000000000 prec) prec))
    /\ from_hf (fun _ => Ok 4000000000)
            (fun _ => Ok (<["quantization_config" :=
                              VDict (<["load_in_4bit" := VBool true]> ∅)]> ∅))
            (fun _ => "") "org/model" (VStr "auto")
       = from_hf (fun _ => Ok 4000000000)
            (fun _ => Ok (<["quantization_config" :=
                              VDict (<["load_in_4bit" := VBool true]> ∅)]> ∅))
            (fun _ => "") "org/model" (VPrecision prec).
Proof.
  apply (from_hf_auto_report _ _ _ "org/model" 4000000000
           (<["quantization_config" := VDict (<["load_in_4bit" := VBool true]> ∅)]> ∅)
           (VPrecision BITS_4)); try reflexivity. lia.
Defined.

(** *** What parsing can answer *)






(** *** The figure shown for a byte count *)

Lemma format_fixed_2 m e :
  format_fixed 2 (S754_finite false m e) = hundredths_text (scaled_digits 2 m e).
Proof. unfold format_fixed, hundredths_text. rewrite append_nil_l. reflexivity. Qed.

Lemma scaled_digits_2_B2S m e :
  -1074 <= e ->
  scaled_digits 2 m e = rne (100 * B2S (S754_finite false m e)) P.
Proof.
  intros He. unfold scaled_digits, B2S, signed. change (10 ^ Z.of_nat 2) with 100.
  destruct (Z.leb_spec 0 e) as [H|H].
  - rewrite pow2_split by lia. fold P.
    replace (100 * (Z.pos m * (2 ^ e * P))) with (Z.pos m * 2 ^ e * 100 * P) by ring.
    rewrite rne_mul by apply P_pos. reflexivity.
  - assert (EP : P = 2 ^ (- e) * 2 ^ (e + 1074)).
    { unfold P. rewrite <- pow2_split by lia. f_equal. lia. }
    rewrite EP.
    replace (100 * (Z.pos m * 2 ^ (e + 1074))) with (Z.pos m * 100 * 2 ^ (e + 1074)) by ring.
    rewrite rne_scale by (apply pow2_gt0; lia). reflexivity.
Qed.

(** A double that is at least 1 is a normal positive number. *)
Lemma ge_one_normal x :
  B64.valid x = true -> B64.is_finite x = true -> B64.leb (B64.of_int 1) x = true ->
  exists m e, x = S754_finite false m e /\ 2 ^ 52 <= Z.pos m < 2 ^ 53 /\ -52 <= e <= 971.
Proof.
  intros Hv Hf H1.
  destruct x as [[]|[]| |[] m e]; try discriminate.
  pose proof (valid_finite_inv _ _ _ Hv) as (Hr & Hd & Hn).
  assert (Hu : Z.pos m < 2 ^ 53).
  { pose proof (Zdigits2_bounds (Z.pos m) ltac:(lia)) as [_ Hu].
    pose proof (pow2_le (Zdigits2 (Z.pos m)) 53 Hd (Zdigits2_nonneg _)). lia. }
  rewrite leb_B2S in H1 by (try assumption; reflexivity).
  apply Z.leb_le in H1. change (B2S (B64.of_int 1)) with P in H1.
  cbn [B2S signed] in H1.
  assert (He : 1021 < e + 1074).
  { apply pow2_lt_inv; try lia.
    pose proof (pow2_gt0 (e + 1074) ltac:(lia)) as Hp.
    change (2 ^ 1021) with (2 ^ 1074 / 2 ^ 53). unfold P in H1.
    apply Z.div_lt_upper_bound; [lia|]. nia. }
  exists m, e. split; [reflexivity|]. split; [|lia]. split; [apply Hn; lia|assumption].
Qed.

Lemma div_pow2_figure m e k :
  2 ^ 52 <= Z.pos m < 2 ^ 53 -> -52 <= e <= 971 -> 0 <= k <= 30 ->
  format_fixed 2 (B64.div (S754_finite false m e) (S754_finite false 4503599627370496 (k - 52)))
  = hundredths_text (rne (100 * B2S (S754_finite false m e)) (2 ^ k * P)).
Proof.
  intros Hm He Hk.
  rewrite div_pow2_normal by (try assumption; try reflexivity; lia).
  cbn [xorb]. rewrite format_fixed_2, scaled_digits_2_B2S by lia. f_equal.
  cbn [B2S signed].
  replace (e + 1074) with (e - k + 1074 + k) by lia.
  rewrite (pow2_split (e - k + 1074) k) by lia.
  replace (100 * (Z.pos m * (2 ^ (e - k + 1074) * 2 ^ k)))
    with (100 * (Z.pos m * 2 ^ (e - k + 1074)) * 2 ^ k) by ring.
  rewrite (Z.mul_comm (2 ^ k) P).
  rewrite rne_scale by (try apply P_pos; apply pow2_gt0; lia). reflexivity.
Qed.

(** X17. The figure shown for a byte count of at least one byte is the count
    divided by [2^30] (GB) or [2^20] (MB), rounded once, to the nearest
    hundredth: the division is exact. A GB figure is never below 1.00
    and an MB figure never above 1024.00. ([B2S x] is the value of [x]
    in units of [2^-1074], which [P] is the number of in 1.) *)
Theorem convert_bytes_figure x :
  B64.valid x = true -> B64.is_finite x = true -> B64.leb (B64.of_int 1) x = true ->
  convert_bytes_to_human_readable x =
  Ok (if B64.leb (B64.of_int (2 ^ 30)) x
      then hundredths_text (rne (100 * B2S x) (2 ^ 30 * P)) ++ " GB"
      else hundredths_text (rne (100 * B2S x) (2 ^ 20 * P)) ++ " MB")
  /\ (B64.leb (B64.of_int (2 ^ 30)) x = true -> 100 <= rne (100 * B2S x) (2 ^ 30 * P))
  /\ (B64.leb (B64.of_int (2 ^ 30)) x = false ->
      0 <= rne (100 * B2S x) (2 ^ 20 * P) <= 102400).
Proof.
  intros Hv Hf H1. rewrite convert_bytes_eq by assumption.
  destruct (ge_one_normal x Hv Hf H1) as (m & e & -> & Hm & He).
  unfold spec_humanizeBytes.
  change (B64.of_int (2 ^ 30)) with (S754_finite false 4503599627370496 (30 - 52)).
  change (B64.of_int (2 ^ 20)) with (S754_finite false 4503599627370496 (20 - 52)).
  rewrite !div_pow2_figure by (try assumption; lia).
  split; [reflexivity|].
  set (R := B2S (S754_finite false m e)).
  assert (HR : P <= R).
  { rewrite leb_B2S in H1 by (try assumption; reflexivity). apply Z.leb_le in H1. exact H1. }
  pose proof P_pos as HP.
  assert (HG : S754_finite false 4503599627370496 (30 - 52) = B64.of_int (2 ^ 30)) by reflexivity.
  rewrite HG, leb_B2S by (try assumption; reflexivity).
  change (B2S (B64.of_int (2 ^ 30))) with (2 ^ 30 * P). fold R.
  split.
  - intros H. apply Z.leb_le in H.
    rewrite <- (rne_mul 100 (2 ^ 30 * P)) at 1 by lia.
    apply rne_mono; lia.
  - intros H. apply Z.leb_gt in H. split.
    + apply rne_nonneg; lia.
    + apply Z.le_trans with (rne (102400 * (2 ^ 20 * P)) (2 ^ 20 * P));
        [|rewrite rne_mul by lia; lia].
      apply rne_mono; [lia|]. change (2 ^ 30) with (1024 * 2 ^ 20) in H. lia.
Qed.

Lemma convert_bytes_figure_witness :
  B64.valid (B64.of_int 16800000000) = true /\
  B64.is_finite (B64.of_int 16800000000) = true /\
  B64.leb (B64.of_int 1) (B64.of_int 16800000000) = true /\
  convert_bytes_to_human_readable (B64.of_int 16800000000) =
  Ok (if B64.leb (B64.of_int (2 ^ 30)) (B64.of_int 16800000000)
      then hundredths_text (rne (100 * B2S (B64.of_int 16800000000)) (2 ^ 30 * P)) ++ " GB"
      else hundredths_text (rne (100 * B2S (B64.of_int 16800000000)) (2 ^ 20 * P)) ++ " MB").
Proof.
  split; [reflexivity|]. split; [reflexivity|]. split; [reflexivity|].
  apply (proj1 (convert_bytes_figure (B64.of_int 16800000000) eq_refl eq_refl eq_refl)).
Defined.

(** ** The registry query and the precision resolver *)

Lemma from_hf_all_unfold gs gc fs name :
  from_hf gs gc fs name (VStr "all") =
  (model_size ← gs name; calculate_all_precisions model_size (Some name)).
Proof. unfold from_hf. destruct (gs name); reflexivity. Qed.

(** C2. With the selector ["all"], [from_hf] hands the fetched file size
    itself to [calculate_all_precisions] as the parameter count; it does
    not go through [estimate_parameters] first. For a 4,000,000-byte file
    the report is made for 4,000,000 parameters, while the 32-bit estimate
    of that file is 1,000,000 parameters and gives another report. *)
Theorem C2_from_hf_all_passes_file_size :
  (forall gs gc fs name,
      from_hf gs gc fs name (VStr "all") =
      (model_size ← gs name; calculate_all_precisions model_size (Some name)))
  /\ estimate_parameters 4000000 (Precision_num BITS_32) = Ok 1000000
  /\ from_hf (fun _ => Ok 4000000) (fun _ => Ok ∅) (fun _ => "") "org/model" (VStr "all")
     = calculate_all_precisions 4000000 (Some "org/model")
  /\ calculate_all_precisions 4000000 (Some "org/model")
     <> calculate_all_precisions 1000000 (Some "org/model").
Proof.
  split; [exact from_hf_all_unfold|].
  split; [vm_compute; reflexivity|].
  split; [rewrite from_hf_all_unfold; reflexivity|].
  vm_compute. discriminate.
Qed.

(** C3. With a ["quantization"] entry that has no ["bits"],
    [determine_precision] answers with the raw ["torch_dtype"] text, not a
    bit width; and a ["quantization"] entry that is not a mapping makes it
    raise. *)
Theorem C3_determine_precision_quantization_raw_dtype :
  determine_precision
    (<["quantization" := VDict ∅]> (<["torch_dtype" := VStr "float16"]> ∅))
  = Ok (VStr "float16")
  /\ determine_precision (<["quantization" := VStr "gptq"]> ∅) = Raise AttributeError
  /\ determine_precision
       (<["quantization" := VDict (<["bits" := VInt 3]> ∅)]> ∅) = Ok (VInt 3).
Proof. repeat split; vm_compute; reflexivity. Qed.

(** C9. A bare numeral does not reach [from_params]: it fails the size
    pattern, which demands a unit letter, and is sent to [from_hf] as a
    model name. *)
Theorem C9_cli_bare_numeral_goes_to_from_hf :
  forall c, cli_dispatch "7000000000" c = Call_from_hf "7000000000" (choice_value c).
Proof. intros c. destruct c; vm_compute; reflexivity. Qed.

(** ** The memory estimate *)

(** C1 (as amended). For every parameter count [p >= 0] whose quadruple
    converts to a finite double ([4 p < 2^1024 - 2^970]) and every
    precision, [calculate_memory] returns the binary64 value of
    [(p * 4) / (32 / precision) * 1.2]; for 7,000,000,000 parameters at
    16 bits that is 16,800,000,000 bytes, shown as "15.65 GB". *)
Theorem C1_calculate_memory_formula :
  (forall p prec, 0 <= p -> p * 4 < 2 ^ 1024 - 2 ^ 970 ->
     calculate_memory p (Precision_num prec) = Ok (spec_estimateMemoryBytes p prec))
  /\ calculate_memory 7000000000 (Precision_num BITS_16) = Ok (B64.of_int 16800000000)
  /\ convert_bytes_to_human_readable (B64.of_int 16800000000) = Ok "15.65 GB".
Proof.
  split; [exact calculate_memory_eq|]. split; vm_compute; reflexivity.
Qed.

Lemma C1_witness :
  0 <= 7000000000 /\ 7000000000 * 4 < 2 ^ 1024 - 2 ^ 970 /\
  calculate_memory 7000000000 (Precision_num BITS_16)
  = Ok (spec_estimateMemoryBytes 7000000000 BITS_16).
Proof.
  split; [lia|]. split; [reflexivity|].
  apply (proj1 C1_calculate_memory_formula); [lia|reflexivity].
Defined.

(** C1, as stated, fails for a count too large for a double: the
    conversion of [4 p] raises [OverflowError]. *)
Lemma C1_counterexample :
  0 <= 2 ^ 1022 /\ calculate_memory (2 ^ 1022) (Precision_num BITS_16) = Raise OverflowError.
Proof. split; [lia|vm_compute; reflexivity]. Qed.

(** C4 (as amended). For every [p >= 0] with [4 p < 2^1024 - 2^970] the
    four estimates exist, decrease with the bit width and are not
    negative. *)
Theorem C4_memory_monotone_in_precision :
  forall p, 0 <= p -> p * 4 < 2 ^ 1024 - 2 ^ 970 ->
  exists m32 m16 m8 m4,
    calculate_memory p (Precision_num BITS_32) = Ok m32 /\
    calculate_memory p (Precision_num BITS_16) = Ok m16 /\
    calculate_memory p (Precision_num BITS_8) = Ok m8 /\
    calculate_memory p (Precision_num BITS_4) = Ok m4 /\
    B64.leb m16 m32 = true /\ B64.leb m8 m16 = true /\ B64.leb m4 m8 = true /\
    B64.leb (B64.of_int 0) m32 = true /\ B64.leb (B64.of_int 0) m16 = true /\
    B64.leb (B64.of_int 0) m8 = true /\ B64.leb (B64.of_int 0) m4 = true.
Proof.
  intros p Hp Hu.
  exists (spec_estimateMemoryBytes p BITS_32), (spec_estimateMemoryBytes p BITS_16),
         (spec_estimateMemoryBytes p BITS_8), (spec_estimateMemoryBytes p BITS_4).
  rewrite !calculate_memory_eq by assumption.
  do 4 (split; [reflexivity|]).
  destruct (Z.eq_dec p 0) as [->|Hne].
  - vm_compute. repeat split.
  - destruct (estimate_shape p) as (mm & E & Hmm & Hs); [lia|assumption|].
    rewrite !Hs. simpl halvings. change (B64.of_int 0) with (S754_zero false).
    repeat split; try (apply pack_leb; lia); apply pack_nonneg; assumption.
Qed.

Lemma C4_witness :
  0 <= 7000000000 /\ 7000000000 * 4 < 2 ^ 1024 - 2 ^ 970 /\
  exists m32 m16 m8 m4,
    calculate_memory 7000000000 (Precision_num BITS_32) = Ok m32 /\
    calculate_memory 7000000000 (Precision_num BITS_16) = Ok m16 /\
    calculate_memory 7000000000 (Precision_num BITS_8) = Ok m8 /\
    calculate_memory 7000000000 (Precision_num BITS_4) = Ok m4 /\
    B64.leb m16 m32 = true /\ B64.leb m8 m16 = true /\ B64.leb m4 m8 = true /\
    B64.leb (B64.of_int 0) m32 = true /\ B64.leb (B64.of_int 0) m16 = true /\
    B64.leb (B64.of_int 0) m8 = true /\ B64.leb (B64.of_int 0) m4 = true.
Proof.
  split; [lia|]. split; [reflexivity|].
  apply C4_memory_monotone_in_precision; [lia|reflexivity].
Defined.

(** C4, as stated, fails where no estimate exists: for [p = 2^1022] the
    call raises at each of the four precisions. *)
Lemma C4_counterexample :
  0 <= 2 ^ 1022 /\
  calculate_memory (2 ^ 1022) (Precision_num BITS_32) = Raise OverflowError /\
  calculate_memory (2 ^ 1022) (Precision_num BITS_16) = Raise OverflowError /\
  calculate_memory (2 ^ 1022) (Precision_num BITS_8) = Raise OverflowError /\
  calculate_memory (2 ^ 1022) (Precision_num BITS_4) = Raise OverflowError.
Proof. split; [lia|]. repeat split; vm_compute; reflexivity. Qed.

(** ** The parameter estimate *)

(** C5 (as amended). For a file size [0 <= f <= 2^53] the estimate is
    exactly [ceil(8 f / precision)], hence not below the exact quotient;
    and for all [0 <= f1 <= f2], when the estimate for [f2] exists, so
    does the one for [f1], and it is not larger. *)
Theorem C5_estimate_parameters_ceiling :
  (forall f prec, 0 <= f <= 2 ^ 53 ->
     estimate_parameters f (Precision_num prec) = Ok (spec_estimateParameterCount f prec)
     /\ f * 8 <= spec_estimateParameterCount f prec * Precision_value prec)
  /\ (forall f1 f2 prec n2, 0 <= f1 <= f2 ->
        estimate_parameters f2 (Precision_num prec) = Ok n2 ->
        exists n1, estimate_parameters f1 (Precision_num prec) = Ok n1 /\ n1 <= n2).
Proof.
  split.
  - intros f prec Hf. split; [apply estimate_parameters_exact; assumption|].
    apply ceil_div_ge. destruct prec; simpl; lia.
  - intros f1 f2 prec n2 [H1 H12] E2.
    assert (E0 : estimate_parameters 0 (Precision_num prec) = Ok 0)
      by (destruct prec; vm_compute; reflexivity).
    assert (Hn2 : 0 < f2 -> est_value f2 prec < 2 ^ 2098 /\ n2 = ceil_div (est_value f2 prec) P).
    { intros Hf2. rewrite estimate_parameters_char in E2 by assumption.
      destruct (Z.ltb_spec (est_value f2 prec) (2 ^ 2098)); [|discriminate].
      split; [assumption|congruence]. }
    destruct (Z.eq_dec f1 0) as [->|Hne1].
    + exists 0. split; [assumption|].
      destruct (Z.eq_dec f2 0) as [->|Hne2]; [congruence|].
      destruct (Hn2 ltac:(lia)) as [_ ->].
      pose proof (est_value_nonneg f2 prec ltac:(lia)).
      pose proof (ceil_div_ge (est_value f2 prec) P P_pos). pose proof P_pos. nia.
    + destruct (Hn2 ltac:(lia)) as [Hlt ->].
      pose proof (est_value_mono f1 f2 prec ltac:(lia)) as Hmono.
      exists (ceil_div (est_value f1 prec) P). split.
      * rewrite estimate_parameters_char by lia.
        destruct (Z.ltb_spec (est_value f1 prec) (2 ^ 2098)); [reflexivity|lia].
      * apply ceil_div_mono; [apply P_pos|assumption].
Qed.

Lemma C5_witness :
  (0 <= 1000 <= 2 ^ 53 /\
   estimate_parameters 1000 (Precision_num BITS_32) = Ok 250)
  /\ (0 <= 1000 <= 2 ^ 60 /\
      estimate_parameters (2 ^ 60) (Precision_num BITS_32) = Ok (2 ^ 58) /\
      exists n1, estimate_parameters 1000 (Precision_num BITS_32) = Ok n1 /\ n1 <= 2 ^ 58).
Proof.
  split.
  - split; [lia|]. apply (proj1 C5_estimate_parameters_ceiling 1000 BITS_32). lia.
  - split; [lia|]. split; [vm_compute; reflexivity|].
    apply (proj2 C5_estimate_parameters_ceiling 1000 (2 ^ 60) BITS_32 (2 ^ 58));
      [lia|vm_compute; reflexivity].
Defined.

(** C5, as stated, fails once [8 f / precision] is no longer a double:
    for [f = 2^53 + 1] at 32 bits the quotient [2^51 + 1/4] rounds down
    to [2^51], one below its ceiling and below the quotient itself. *)
Lemma C5_counterexample :
  estimate_parameters (2 ^ 53 + 1) (Precision_num BITS_32) = Ok (2 ^ 51)
  /\ spec_estimateParameterCount (2 ^ 53 + 1) BITS_32 = 2 ^ 51 + 1
  /\ 2 ^ 51 * 32 < (2 ^ 53 + 1) * 8.
Proof. repeat split; vm_compute; reflexivity. Qed.

(** ** The byte formatter *)

(** C7. A double is shown in GB exactly when it is at least [2^30], and
    in MB otherwise, with two decimals; [2^30] gives "1.00 GB", [2^20]
    gives "1.00 MB", and [2^30 - 1] is shown in MB. *)
Theorem C7_humanize_threshold :
  (forall x, B64.valid x = true ->
     convert_bytes_to_human_readable x = Ok (spec_humanizeBytes x))
  /\ convert_bytes_to_human_readable (B64.of_int (2 ^ 30)) = Ok "1.00 GB"
  /\ convert_bytes_to_human_readable (B64.of_int (2 ^ 20)) = Ok "1.00 MB"
  /\ convert_bytes_to_human_readable (B64.of_int (2 ^ 30 - 1)) = Ok "1024.00 MB".
Proof.
  split; [exact convert_bytes_eq|]. repeat split; vm_compute; reflexivity.
Qed.

Lemma C7_witness :
  B64.valid (B64.of_int 16800000000) = true /\
  convert_bytes_to_human_readable (B64.of_int 16800000000)
  = Ok (spec_humanizeBytes (B64.of_int 16800000000)).
Proof.
  split; [reflexivity|].
  apply (proj1 C7_humanize_threshold). reflexivity.
Defined.

(** ** The size labels *)

(** C6 (as amended). For every integer [10^6 <= n <= 2^1022] formatting
    returns a label, parsing that label returns a value, and this value
    is within 5% of [n]. *)
Theorem C6_size_label_round_trip :
  forall n, 10 ^ 6 <= n <= 2 ^ 1022 ->
  exists label v,
    format_model_size n = Ok label /\
    parse_model_size label = Ok v /\
    - n <= 20 * (v - n) <= n.
Proof.
  intros n Hn. unfold format_model_size, format_model_size_loop.
  destruct (Z.leb_spec (ModelSizeUnit_value TRILLION) n) as [H12|H12].
  - destruct (roundtrip_unit n (10 ^ 12) "T") as (x & v & Ex & Ep & Hv);
      auto; try reflexivity.
    change (ModelSizeUnit_value TRILLION) with (10 ^ 12). rewrite Ex.
    exists (format_fixed 1 x ++ "T"), v. split; [reflexivity|]. split; assumption.
  - destruct (Z.leb_spec (ModelSizeUnit_value BILLION) n) as [H9|H9].
    + destruct (roundtrip_unit n (10 ^ 9) "B") as (x & v & Ex & Ep & Hv);
        auto; try reflexivity.
      change (ModelSizeUnit_value BILLION) with (10 ^ 9). rewrite Ex.
      exists (format_fixed 1 x ++ "B"), v. split; [reflexivity|]. split; assumption.
    + destruct (Z.leb_spec (ModelSizeUnit_value MILLION) n) as [H6|H6].
      * destruct (roundtrip_unit n (10 ^ 6) "M") as (x & v & Ex & Ep & Hv);
          auto; try reflexivity.
        change (ModelSizeUnit_value MILLION) with (10 ^ 6). rewrite Ex.
        exists (format_fixed 1 x ++ "M"), v. split; [reflexivity|]. split; assumption.
      * change (ModelSizeUnit_value MILLION) with (10 ^ 6) in H6. lia.
Qed.

Lemma C6_witness :
  10 ^ 6 <= 1234567 <= 2 ^ 1022 /\
  exists label v,
    format_model_size 1234567 = Ok label /\
    parse_model_size label = Ok v /\
    - 1234567 <= 20 * (v - 1234567) <= 1234567.
Proof.
  split; [lia|]. apply C6_size_label_round_trip. lia.
Defined.

(** C6, as stated, fails for integers too large for a double: for
    [n = 10^321] the division by the threshold raises, so there is no
    label to parse. *)
Lemma C6_counterexample :
  10 ^ 6 <= 10 ^ 321 /\ format_model_size (10 ^ 321) = Raise OverflowError.
Proof. split; [lia|vm_compute; reflexivity]. Qed.






